(** * automation_jira: grouping, sampling and rendering of the daily audit

    A shallow embedding of [automation_jira.py]: the functions
    [summarize_assignee_stats], [group_by_assignee],
    [pick_random_per_analyst], [build_email_html] and
    [print_console_summary], over the JSON values the Jira search
    endpoint returns, followed by the properties of the pipeline. *)

From Stdlib Require Import List String Ascii ZArith Lia Bool Arith.
From Stdlib Require Import Permutation Sorted.
From Stdlib Require DecimalString OrderedTypeEx.
Import ListNotations.
Set Warnings "-register-all".
Open Scope list_scope.
Open Scope string_scope.

(* ================================================================= *)
(** ** Values *)

(** What [resp.json()] yields.  A [str] is held as its UTF-8 text (so the
    order on code points is the order on bytes), a number is an integer
    (floats are outside the model), and a [dict] is the list of its items
    in insertion order, read by the first match on the key. *)
Inductive json : Type :=
| JNull
| JBool (b : bool)
| JNum (z : Z)
| JStr (s : string)
| JList (l : list json)
| JObj (items : list (string * json)).

(** The exceptions the modelled code can raise. *)
Inductive exn : Type := AttributeError | KeyError | TypeError | ValueError.

Inductive result (A : Type) : Type :=
| Ok (a : A)
| Raise (e : exn).
Arguments Ok {A} a.
Arguments Raise {A} e.

Definition bind {A B : Type} (r : result A) (k : A -> result B) : result B :=
  match r with
  | Ok a => k a
  | Raise e => Raise e
  end.

Notation "x <- e ;; k" := (bind e (fun x => k))
  (at level 61, e at next level, right associativity).

Definition is_ok {A : Type} (r : result A) : bool :=
  match r with Ok _ => true | Raise _ => false end.

(* ----------------------------------------------------------------- *)
(** *** The interpreter's operations on values *)

(** [bool(v)]: [None], [False], [0], [""], [[]] and [{}] are false. *)
Definition truthy (v : json) : bool :=
  match v with
  | JNull => false
  | JBool b => b
  | JNum z => negb (Z.eqb z 0)
  | JStr s => negb (String.eqb s "")
  | JList l => match l with [] => false | _ => true end
  | JObj items => match items with [] => false | _ => true end
  end.

(** [a or b]. *)
Definition py_or (a b : json) : json := if truthy a then a else b.

Fixpoint lookup (items : list (string * json)) (k : string) : option json :=
  match items with
  | [] => None
  | (k', v) :: rest => if String.eqb k' k then Some v else lookup rest k
  end.

(** [v.get(k, default)]: only a [dict] has the method. *)
Definition get (v : json) (k : string) (default : json) : result json :=
  match v with
  | JObj items =>
      match lookup items k with
      | Some x => Ok x
      | None => Ok default
      end
  | _ => Raise AttributeError
  end.

(** [v[k]] for a string [k]: [KeyError] on a [dict] without the key,
    [TypeError] on every other value. *)
Definition subscript (v : json) (k : string) : result json :=
  match v with
  | JObj items =>
      match lookup items k with
      | Some x => Ok x
      | None => Raise KeyError
      end
  | _ => Raise TypeError
  end.

(** Values that can be part of a [dict] key. *)
Definition hashable (v : json) : bool :=
  match v with
  | JList _ | JObj _ => false
  | _ => true
  end.

Definition bool_to_Z (b : bool) : Z := if b then 1%Z else 0%Z.

(** [a == b] on hashable values ([True == 1] and [False == 0]). *)
Definition py_eqb (a b : json) : bool :=
  match a, b with
  | JNull, JNull => true
  | JBool x, JBool y => Bool.eqb x y
  | JNum x, JNum y => Z.eqb x y
  | JBool x, JNum y => Z.eqb (bool_to_Z x) y
  | JNum x, JBool y => Z.eqb x (bool_to_Z y)
  | JStr s, JStr t => String.eqb s t
  | _, _ => false
  end.

(* ================================================================= *)
(** ** Owner identities and mappings keyed by them *)

(** The key of a bucket: [(accountId, displayName)]. *)
Abbreviation owner := (json * json)%type.

Definition owner_hashable (k : owner) : bool :=
  hashable (fst k) && hashable (snd k).

Definition owner_eqb (k1 k2 : owner) : bool :=
  py_eqb (fst k1) (fst k2) && py_eqb (snd k1) (snd k2).

(** A [dict] from owners to lists of issues, as its items in insertion
    order: iteration and the stable [sorted] both observe that order. *)
Abbreviation mapping := (list (owner * list json)).

Fixpoint mapping_get (m : mapping) (k : owner) : option (list json) :=
  match m with
  | [] => None
  | (k', v) :: rest => if owner_eqb k' k then Some v else mapping_get rest k
  end.

(** [m[k] = v]: replaces the value of an existing key in place, appends a
    new key at the end. *)
Fixpoint mapping_set (m : mapping) (k : owner) (v : list json) : mapping :=
  match m with
  | [] => [(k, v)]
  | (k', v') :: rest =>
      if owner_eqb k' k then (k', v) :: rest
      else (k', v') :: mapping_set rest k v
  end.

(** [m.setdefault(k, []).append(x)] once [k] is known to be hashable. *)
Fixpoint setdefault_append (m : mapping) (k : owner) (x : json) : mapping :=
  match m with
  | [] => [(k, [x])]
  | (k', v') :: rest =>
      if owner_eqb k' k then (k', (v' ++ [x])%list) :: rest
      else (k', v') :: setdefault_append rest k x
  end.

(** The keys of a well-formed mapping are hashable and pairwise different. *)
Fixpoint keys_distinct (m : mapping) : Prop :=
  match m with
  | [] => True
  | (k, _) :: rest =>
      owner_hashable k = true /\
      Forall (fun e => owner_eqb k (fst e) = false) rest /\
      keys_distinct rest
  end.

(* ================================================================= *)
(** ** 3. Procesamiento de issues *)

Definition UNASSIGNED : owner := (JStr "UNASSIGNED", JStr "(Sin asignar)").

(** The truth value of [i.get("fields", {}).get("assignee")]. *)
Definition has_assignee (i : json) : result bool :=
  fields <- get i "fields" (JObj []) ;;
  assignee <- get fields "assignee" JNull ;;
  Ok (truthy assignee).

(** [sum(1 for i in issues if ...)]. *)
Fixpoint count_with_assignee (issues : list json) : result nat :=
  match issues with
  | [] => Ok 0
  | i :: rest =>
      b <- has_assignee i ;;
      n <- count_with_assignee rest ;;
      Ok (if b then S n else n)
  end.

Definition nat_to_str (n : nat) : string :=
  DecimalString.NilZero.string_of_uint (Nat.to_uint n).

Definition int_to_str (z : Z) : string :=
  DecimalString.NilZero.string_of_int (Z.to_int z).

Definition stats_line (with_assignee without_assignee : nat) : string :=
  "[INFO] Con assignee: " ++ nat_to_str with_assignee
    ++ " | Sin assignee: " ++ nat_to_str without_assignee.

(** [summarize_assignee_stats] (l. 156).  A function that prints yields
    the texts handed to [print], in order, beside its result.  The function
    has no [return]: its value is [None]. *)
Definition summarize_assignee_stats (issues : list json)
  : list string * result json :=
  match count_with_assignee issues with
  | Raise e => ([], Raise e)
  | Ok with_assignee =>
      let without_assignee := List.length issues - with_assignee in
      ([stats_line with_assignee without_assignee], Ok JNull)
  end.

(** The key computed for one issue by the body of the loop of
    [group_by_assignee] (l. 170-177). *)
Definition owner_key (issue : json) : result owner :=
  fields <- get issue "fields" (JObj []) ;;
  assignee <- get fields "assignee" JNull ;;
  if negb (truthy assignee) then
    let key := UNASSIGNED in
    let name := JStr "(Sin asignar)" in
    Ok (fst key, name)
  else
    account_id <- subscript assignee "accountId" ;;
    display <- get assignee "displayName" (JStr "Desconocido") ;;
    let key := (account_id, display) in
    name <- get assignee "displayName" (JStr "Desconocido") ;;
    Ok (fst key, name).

(** The loop of [group_by_assignee] (l. 169-178); hashing the key is
    what [setdefault] does first, and it raises on a list or a dict. *)
Fixpoint group_loop (issues : list json) (groups : mapping) : result mapping :=
  match issues with
  | [] => Ok groups
  | issue :: rest =>
      k <- owner_key issue ;;
      if owner_hashable k
      then group_loop rest (setdefault_append groups k issue)
      else Raise TypeError
  end.

Definition group_by_assignee (issues : list json) : result mapping :=
  group_loop issues [].

(* ----------------------------------------------------------------- *)
(** *** The random source *)

(** The generator is the sequence of raw draws it will deliver;
    [randbelow n] reduces the next draw below [n].  Once the sequence is
    used up, every further draw is the least value the loop that asks
    for it accepts: zero for [randbelow]. *)
Definition rng : Type := list nat.

Definition randbelow (n : nat) (g : rng) : nat * rng :=
  match g with
  | [] => (0, [])
  | d :: g' => (d mod n, g')
  end.

Fixpoint set_nth (j : nat) (x : json) (l : list json) : list json :=
  match l, j with
  | [], _ => []
  | _ :: t, 0 => x :: t
  | h :: t, S j' => h :: set_nth j' x t
  end.

(** The first selection loop of the standard library's [random.sample],
    over a copy of the population: draw a position of the pool, take the
    element there, move the last element of the pool into the hole and
    shorten the pool by one. *)
Fixpoint sample_loop (pool : list json) (k : nat) (g : rng)
  : list json * rng :=
  match k with
  | 0 => ([], g)
  | S k' =>
      let n := List.length pool in
      let (j, g1) := randbelow n g in
      match nth_error pool j with
      | None => ([], g1)
      | Some x =>
          let pool' := firstn (n - 1) (set_nth j (last pool x) pool) in
          let (r, g2) := sample_loop pool' k' g1 in
          (x :: r, g2)
      end
  end.

(** [j in selected]. *)
Definition taken (selected : list nat) (j : nat) : bool :=
  existsb (Nat.eqb j) selected.

(** The first position below [n] that is not taken, [0] when all are. *)
Definition first_free (n : nat) (selected : list nat) : nat :=
  match find (fun j => negb (taken selected j)) (seq 0 n) with
  | Some j => j
  | None => 0
  end.

(** [j = randbelow(n)], and again [while j in selected]: the first draw
    that is a position not taken, the draws before it being spent.  Once
    the sequence is used up, the draw is the least value the loop
    accepts, the first free position. *)
Fixpoint fresh_index (n : nat) (selected : list nat) (g : rng)
  : nat * rng :=
  match g with
  | [] => (first_free n selected, [])
  | d :: g' =>
      if taken selected (d mod n) then fresh_index n selected g'
      else (d mod n, g')
  end.

(** The second selection loop of [random.sample], over the positions of
    the population itself: draw a position until it is one not taken
    before, note it and take the element there. *)
Fixpoint sample_set_loop (population : list json) (k : nat)
  (selected : list nat) (g : rng) : list json * rng :=
  match k with
  | 0 => ([], g)
  | S k' =>
      let n := List.length population in
      let (j, g1) := fresh_index n selected g in
      match nth_error population j with
      | None => ([], g1)
      | Some x =>
          let (r, g2) := sample_set_loop population k' (j :: selected) g1 in
          (x :: r, g2)
      end
  end.

(** [setsize]: 21, and for [k > 5] the table of a set of [k] elements
    besides, [4 ** ceil(log(3k, 4))], the least power of four that is
    not below [3k].  ([log4 x] rounded up is [log2 x] rounded up, halved
    and rounded up.  The library takes the logarithm in floating point,
    which gives this exponent for every [k] below 3 * 10^14.) *)
Definition setsize (k : Z) : Z :=
  if (5 <? k)%Z then (21 + 4 ^ ((Z.log2_up (3 * k) + 1) / 2))%Z else 21%Z.

(** [random.sample(population, k)]: [ValueError] unless
    [0 <= k <= len(population)]; a population of at most [setsize]
    elements is sampled through a pool, a longer one by its positions. *)
Definition random_sample (population : list json) (k : Z) (g : rng)
  : result (list json) * rng :=
  let n := Z.of_nat (List.length population) in
  if (k <? 0)%Z || (n <? k)%Z
  then (Raise ValueError, g)
  else if (n <=? setsize k)%Z then
    let (r, g') := sample_loop population (Z.to_nat k) g in
    (Ok r, g')
  else
    let (r, g') := sample_set_loop population (Z.to_nat k) [] g in
    (Ok r, g').

(** The loop of [pick_random_per_analyst] (l. 188-190). *)
Fixpoint pick_loop (items : mapping) (per_analyst : Z) (selection : mapping)
  (g : rng) : result mapping * rng :=
  match items with
  | [] => (Ok selection, g)
  | ((account_id, name), issues) :: rest =>
      let k := Z.min per_analyst (Z.of_nat (List.length issues)) in
      match random_sample issues k g with
      | (Raise e, g') => (Raise e, g')
      | (Ok chosen, g') =>
          pick_loop rest per_analyst
            (mapping_set selection (account_id, name) chosen) g'
      end
  end.

Definition pick_random_per_analyst (groups : mapping) (per_analyst : Z)
  (g : rng) : result mapping * rng :=
  pick_loop groups per_analyst [] g.

(* ================================================================= *)
(** ** Text *)

Definition dquote : ascii := ascii_of_nat 34.
Definition newline : string := String (ascii_of_nat 10) EmptyString.

(** The literal text of the templates is written with a backquote where
    the source has a double quote; [lit] puts the double quote back.  The
    source's templates hold no backquote. *)
Fixpoint lit (s : string) : string :=
  match s with
  | EmptyString => EmptyString
  | String c rest =>
      String (if Ascii.eqb c "`"%char then dquote else c) (lit rest)
  end.

(** [s.replace(c, r)] for a one-character [c]. *)
Fixpoint replace_char (c : ascii) (r : string) (s : string) : string :=
  match s with
  | EmptyString => EmptyString
  | String x rest =>
      if Ascii.eqb x c then r ++ replace_char c r rest
      else String x (replace_char c r rest)
  end.

(** [html.escape(s)] with its default [quote=True]: five replacements,
    the ampersand first. *)
Definition escape (s : string) : string :=
  let s := replace_char "&"%char "&amp;" s in
  let s := replace_char "<"%char "&lt;" s in
  let s := replace_char ">"%char "&gt;" s in
  let s := replace_char dquote "&quot;" s in
  replace_char "'"%char "&#x27;" s.

(** [escape(v)] calls [v.replace]: only a [str] has it. *)
Definition escape_value (v : json) : result string :=
  match v with
  | JStr s => Ok (escape s)
  | _ => Raise AttributeError
  end.

(** A byte of the UTF-8 text that continues a character. *)
Definition is_continuation (c : ascii) : bool :=
  (128 <=? nat_of_ascii c)%nat && (nat_of_ascii c <? 192)%nat.

(** [len(s)]: the number of characters. *)
Fixpoint str_len (s : string) : nat :=
  match s with
  | EmptyString => 0
  | String c rest =>
      if is_continuation c then str_len rest else S (str_len rest)
  end.

(** [s[:n]]: the first [n] characters. *)
Fixpoint str_take (n : nat) (s : string) : string :=
  match s with
  | EmptyString => EmptyString
  | String c rest =>
      if is_continuation c then String c (str_take n rest)
      else
        match n with
        | 0 => EmptyString
        | S n' => String c (str_take n' rest)
        end
  end.

(** [datetime.date] and its [isoformat()], [YYYY-MM-DD]. *)
Record date : Type := mk_date { year : nat; month : nat; day : nat }.

Fixpoint zeros (n : nat) : string :=
  match n with
  | 0 => EmptyString
  | S n' => String "0"%char (zeros n')
  end.

Definition zero_pad (width n : nat) : string :=
  let s := nat_to_str n in
  zeros (width - String.length s) ++ s.

Definition isoformat (d : date) : string :=
  zero_pad 4 (year d) ++ "-" ++ zero_pad 2 (month d) ++ "-"
    ++ zero_pad 2 (day d).

(* ================================================================= *)
(** ** 4. Construcción de correo *)

(** Paleta y fuentes. *)
Definition bg : string := "#faf6fa".
Definition card_bg : string := "#ffffff".
Definition text : string := "#0f172a".
Definition text_muted : string := "#334155".
Definition border : string := "#eaeef2".
Definition border_soft : string := "#e5e7eb".
Definition link : string := "#0b57d0".

(** The text of the six f-strings of [build_email_html], line for line
    (l. 217-302): the head, the notice for an empty selection, the opening
    of an owner's block, the line of an issue, the closing of a block and
    the foot. *)
Definition html_head (preheader date_str : string) (total_issues : Z) : string :=
  lit "        <!DOCTYPE html>
        <html lang=`es`>
        <head>
            <meta charset=`UTF-8` />
            <meta name=`x-apple-disable-message-reformatting` />
            <meta name=`color-scheme` content=`light only` />
            <title>Auditoría de incidentes</title>
        </head>
        <body style=`margin:0; padding:0; background-color:"
    ++ bg
    ++ lit ";`>
            
            
            <!-- preheader (oculto) -->
            <div style=`display:none; overflow:hidden; line-height:1px; opacity:0; max-height:0; max-width:0; mso-hide:all;`>
            "
    ++ (escape preheader)
    ++ lit "
            </div>

            <table role=`presentation` cellpadding=`0` cellspacing=`0` border=`0` width=`100%` style=`background-color:"
    ++ bg
    ++ lit ";`>
            <tr>
                <td align=`center` style=`padding:24px;`>
                <table role=`presentation` cellpadding=`0` cellspacing=`0` border=`0` width=`600` style=`width:600px; max-width:600px; background:"
    ++ card_bg
    ++ lit "; border:1px solid "
    ++ border
    ++ lit "; border-radius:8px;`>
                    <tr>
                    <td style=`padding:24px; font-family:-apple-system,Segoe UI,Roboto,Arial,Helvetica,sans-serif; color:"
    ++ text
    ++ lit "; font-size:14px; line-height:1.6;`>
                        <h2 style=`margin:0 0 8px 0; font-size:20px; line-height:1.3; color:"
    ++ text
    ++ lit ";`>
                        Auditoría de incidentes resueltos el "
    ++ (escape date_str)
    ++ lit "
                        </h2>
                        <p style=`margin:0 0 16px 0; color:"
    ++ text_muted
    ++ lit ";`>
                        Total de incidentes resueltos: <strong style=`color:"
    ++ text
    ++ lit ";`>"
    ++ (int_to_str total_issues)
    ++ lit "</strong>
                        </p>
     ".

Definition html_empty : string :=
  lit "            <p style=`margin:0; color:"
    ++ text_muted
    ++ lit ";`>
            <em>No se encontraron incidentes con analista asignado. Es posible que los incidentes estén sin asignar o que el filtro no aplique.</em>
            </p>
        ".

Definition html_block_open (safe_name : string) (count : nat) : string :=
  lit "                <div style=`margin:16px 0; padding:12px; border:1px solid "
    ++ border_soft
    ++ lit "; border-radius:8px;`>
                  <h3 style=`margin:0 0 8px 0; font-size:16px; color:"
    ++ text
    ++ lit ";`>
                    "
    ++ safe_name
    ++ lit " <span style=`color:"
    ++ text_muted
    ++ lit ";`>("
    ++ (nat_to_str count)
    ++ lit ")</span>
                  </h3>
                  <ol style=`margin:0; padding-left:20px;`>
          ".

Definition html_li (url key summary assignee_name : string) : string :=
  lit "                    <li style=`margin:0 0 6px 0;`>
                      <a href=`"
    ++ url
    ++ lit "` style=`color:"
    ++ link
    ++ lit "; text-decoration:none;`>"
    ++ key
    ++ lit "</a>
                      &nbsp;—&nbsp;"
    ++ summary
    ++ lit "
                      &nbsp;—&nbsp;<strong style=`color:"
    ++ text
    ++ lit ";`>"
    ++ assignee_name
    ++ lit "</strong>
                    </li>
             ".

Definition html_block_close : string :=
  lit "                  </ol>
                </div>
         ".

Definition html_tail : string :=
  lit "                <p style=`margin:16px 0 0 0; color:"
    ++ text_muted
    ++ lit "; font-size:12px;`>
                  Reporte generado automáticamente. No responder a este correo.
                </p>
              </td>
            </tr>
          </table>
          <div style=`height:24px; line-height:24px;`>&nbsp;</div>
        </td>
      </tr>
    </table>
  </body>
</html>
".

(** Simplification leaves the templates folded. *)
Arguments html_head : simpl never.
Arguments html_empty : simpl never.
Arguments html_block_open : simpl never.
Arguments html_li : simpl never.
Arguments html_block_close : simpl never.
Arguments html_tail : simpl never.

(** The body of the loop over the issues of one block (l. 269-282). *)
Definition render_issue_html (base_url : string) (issue : json)
  : result string :=
  k <- get issue "key" (JStr "(sin clave)") ;;
  key <- escape_value k ;;
  f <- get issue "fields" (JObj []) ;;
  let fields := py_or f (JObj []) in
  s <- get fields "summary" (JStr "(sin resumen)") ;;
  summary <- escape_value s ;;
  assignee <- get fields "assignee" JNull ;;
  d <- get (py_or assignee (JObj [])) "displayName" JNull ;;
  assignee_name <- escape_value (py_or d (JStr "(Sin asignar)")) ;;
  let url := base_url ++ "/browse/" ++ key in
  Ok (html_li url key summary assignee_name).

Fixpoint render_issues_html (base_url : string) (items : list json)
  (html_content : string) : result string :=
  match items with
  | [] => Ok html_content
  | issue :: rest =>
      li <- render_issue_html base_url issue ;;
      render_issues_html base_url rest (html_content ++ li)
  end.

(** One turn of the loop over the owners (l. 259-286). *)
Definition render_block_html (base_url : string) (entry : owner * list json)
  (html_content : string) : result string :=
  let '((account_id, name), items) := entry in
  safe_name <- escape_value (py_or name (JStr "(Sin asignar)")) ;;
  let count := List.length items in
  let html_content := html_content ++ html_block_open safe_name count in
  html_content <- render_issues_html base_url items html_content ;;
  Ok (html_content ++ html_block_close).

Fixpoint render_blocks_html (base_url : string) (entries : mapping)
  (html_content : string) : result string :=
  match entries with
  | [] => Ok html_content
  | entry :: rest =>
      html_content <- render_block_html base_url entry html_content ;;
      render_blocks_html base_url rest html_content
  end.

(** [_short] of [print_console_summary] once [text] is a [str]; it is
    only called with its default [maxlen]. *)
Definition maxlen : nat := 100.

Definition short (text : string) : string :=
  if (str_len text <=? maxlen)%nat then text
  else str_take (maxlen - 3) text ++ "...".

(** [print(x)] and the sequencing of printing computations: the texts
    printed before an exception stay printed. *)
Definition io (A : Type) : Type := (list string * result A)%type.

Definition print (s : string) : io unit := ([s], Ok tt).

Definition lift {A : Type} (r : result A) : io A := ([], r).

Definition io_bind {A B : Type} (m : io A) (k : A -> io B) : io B :=
  match m with
  | (out, Raise e) => (out, Raise e)
  | (out, Ok a) => let (out', r) := k a in ((out ++ out')%list, r)
  end.

Notation "m >> k" := (io_bind m (fun _ => k))
  (at level 62, right associativity).

(** The texts of a list, one after the other. *)
Definition join (ls : list string) : string := fold_right append EmptyString ls.

(** A raising function over a list, stopping at the first exception. *)
Fixpoint map_result {A B : Type} (f : A -> result B) (l : list A)
  : result (list B) :=
  match l with
  | [] => Ok []
  | x :: rest =>
      y <- f x ;;
      ys <- map_result f rest ;;
      Ok (y :: ys)
  end.

(** The text one owner's turn of the loop adds to the document. *)
Definition html_block (base_url : string) (entry : owner * list json)
  : result string :=
  render_block_html base_url entry EmptyString.

(** What the document holds in place of the blocks when there is
    nothing to show. *)
Definition html_notice (selection : mapping) : string :=
  match selection with
  | [] => html_empty
  | _ => EmptyString
  end.

(** The header of [build_email_html]: [preheader] and [date_str] as the
    function computes them. *)
Definition html_header (target_date : date) (total_issues : Z) : string :=
  html_head
    ("Total de incidentes resueltos: " ++ int_to_str total_issues
       ++ " — " ++ isoformat target_date)
    (isoformat target_date) total_issues.

Section Interpreter.

(** Two operations of the interpreter rest on its Unicode tables and are
    taken as they are: [str.lower], and [repr] (what [str()] and an
    f-string give for a list or a dict). *)
Variable str_lower : string -> string.
Variable py_repr : json -> string.

(** [str(v)], which is also how an f-string formats [v]. *)
Definition py_str (v : json) : string :=
  match v with
  | JNull => "None"
  | JBool true => "True"
  | JBool false => "False"
  | JNum z => int_to_str z
  | JStr s => s
  | JList _ | JObj _ => py_repr v
  end.

(** The key function [lambda kv: kv[0][1].lower()]: only a [str] has
    [lower]. *)
Definition name_key (kv : owner * list json) : result string :=
  match snd (fst kv) with
  | JStr s => Ok (str_lower s)
  | _ => Raise AttributeError
  end.

(** [sorted] computes the key of every item first, in order. *)
Fixpoint decorate (items : mapping)
  : result (list (string * (owner * list json))) :=
  match items with
  | [] => Ok []
  | kv :: rest =>
      k <- name_key kv ;;
      d <- decorate rest ;;
      Ok ((k, kv) :: d)
  end.

(** [sorted] is stable: an item goes before the first item of the sorted
    rest whose key is not smaller than its own. *)
Fixpoint insert_by_key (x : string * (owner * list json))
  (l : list (string * (owner * list json)))
  : list (string * (owner * list json)) :=
  match l with
  | [] => [x]
  | y :: rest =>
      if String.ltb (fst y) (fst x) then y :: insert_by_key x rest
      else x :: y :: rest
  end.

Fixpoint sort_by_key (l : list (string * (owner * list json)))
  : list (string * (owner * list json)) :=
  match l with
  | [] => []
  | x :: rest => insert_by_key x (sort_by_key rest)
  end.

(** [sorted(selection.items(), key=lambda kv: kv[0][1].lower())]. *)
Definition sorted_by_name (selection : mapping) : result mapping :=
  d <- decorate selection ;;
  Ok (map snd (sort_by_key d)).

(** [build_email_html] (l. 200-304). *)
Definition build_email_html (base_url : string) (target_date : date)
  (selection : mapping) (total_issues : Z) : result string :=
  let date_str := isoformat target_date in
  let preheader :=
    "Total de incidentes resueltos: " ++ int_to_str total_issues
      ++ " — " ++ date_str in
  let html_content := html_head preheader date_str total_issues in
  let html_content :=
    match selection with
    | [] => html_content ++ html_empty
    | _ => html_content
    end in
  entries <- sorted_by_name selection ;;
  html_content <- render_blocks_html base_url entries html_content ;;
  Ok (html_content ++ html_tail).

(** [_short(text)]. *)
Definition short_summary (v : json) : string :=
  match v with
  | JNull => "(sin resumen)"
  | _ => short (py_str v)
  end.

(** The body of the loop over the issues of one owner (l. 373-379). *)
Definition console_issue_line (base_url : string) (issue : json)
  : result string :=
  key <- get issue "key" (JStr "(sin clave)") ;;
  f <- get issue "fields" (JObj []) ;;
  let fields := py_or f (JObj []) in
  s <- get fields "summary" JNull ;;
  let summary := short_summary s in
  assignee <- get fields "assignee" JNull ;;
  d <- get (py_or assignee (JObj [])) "displayName" JNull ;;
  let assignee_name := py_or d (JStr "(Sin asignar)") in
  let url := base_url ++ "/browse/" ++ py_str key in
  Ok ("  - " ++ py_str key ++ " — " ++ summary ++ " — Resp.: "
        ++ py_str assignee_name ++ " — " ++ url).

Fixpoint console_issues (base_url : string) (issues : list json) : io unit :=
  match issues with
  | [] => lift (Ok tt)
  | issue :: rest =>
      io_bind (lift (console_issue_line base_url issue)) (fun line =>
      print line >>
      console_issues base_url rest)
  end.

Definition console_block (base_url : string) (entry : owner * list json)
  : io unit :=
  let '((account_id, name), issues) := entry in
  print (newline ++ py_str name ++ " (" ++ nat_to_str (List.length issues)
           ++ "):") >>
  console_issues base_url issues.

Fixpoint console_blocks (base_url : string) (entries : mapping) : io unit :=
  match entries with
  | [] => lift (Ok tt)
  | entry :: rest =>
      console_block base_url entry >> console_blocks base_url rest
  end.

(** [print_console_summary] (l. 349-379). *)
Definition print_console_summary (base_url : string) (selection : mapping)
  (total_issues : Z) : io unit :=
  print (newline ++ "=== Resumen de auditoría (consola) ===") >>
  print ("Total de issues resueltos: " ++ int_to_str total_issues) >>
  match selection with
  | [] =>
      print "No se encontraron issues con analista asignado para el rango."
  | _ =>
      io_bind (lift (sorted_by_name selection)) (fun entries =>
      console_blocks base_url entries)
  end.

(** An item of [sorted]'s work list: the key beside the entry. *)
Definition keyed (x : string * (owner * list json)) : Prop :=
  exists n, snd (fst (snd x)) = JStr n /\ fst x = str_lower n.

(** The order of the blocks: the lower-cased display names compare by
    code points. *)
Definition name_le (e1 e2 : owner * list json) : Prop :=
  exists n1 n2,
    snd (fst e1) = JStr n1 /\ snd (fst e2) = JStr n2 /\
    String.leb (str_lower n1) (str_lower n2) = true.

(** The entries whose lower-cased display name is [c]. *)
Definition has_lower_name (c : string) (e : owner * list json) : bool :=
  match snd (fst e) with
  | JStr n => String.eqb (str_lower n) c
  | _ => false
  end.


End Interpreter.

(** The order [sorted] works by: the keys compare by code points. *)
Definition key_le (x y : string * (owner * list json)) : Prop :=
  String.leb (fst x) (fst y) = true.

(** The display name a block of the document is headed with. *)
Definition shown_name (n : string) : string :=
  if String.eqb n "" then "(Sin asignar)" else n.



(** *** Escaping *)

(** The characters that open or close markup. *)
Definition is_markup_char (c : ascii) : bool :=
  Ascii.eqb c "<"%char || Ascii.eqb c ">"%char || Ascii.eqb c dquote
    || Ascii.eqb c "'"%char.

(** The markup characters of a text, in their order. *)
Fixpoint markup_chars (s : string) : string :=
  match s with
  | EmptyString => EmptyString
  | String c rest =>
      if is_markup_char c then String c (markup_chars rest)
      else markup_chars rest
  end.

(** The escaped form of one character: a character reference for each
    of the five special characters, the character itself otherwise. *)
Definition escape_char (c : ascii) : string :=
  if Ascii.eqb c "&"%char then "&amp;"
  else if Ascii.eqb c "<"%char then "&lt;"
  else if Ascii.eqb c ">"%char then "&gt;"
  else if Ascii.eqb c dquote then "&quot;"
  else if Ascii.eqb c "'"%char then "&#x27;"
  else String c EmptyString.

(** The escaped form of a text, character by character. *)
Fixpoint escape_chars (s : string) : string :=
  match s with
  | EmptyString => EmptyString
  | String c rest => escape_char c ++ escape_chars rest
  end.

Definition as_str (v : json) : result string :=
  match v with
  | JStr s => Ok s
  | _ => Raise AttributeError
  end.

(** The texts an issue supplies to its line of the document, as the
    renderer reads them and before it escapes them: the key, the
    summary and the assignee's display name, or their placeholders. *)
Definition issue_texts (issue : json) : result (string * string * string) :=
  k <- get issue "key" (JStr "(sin clave)") ;;
  key <- as_str k ;;
  f <- get issue "fields" (JObj []) ;;
  let fields := py_or f (JObj []) in
  s <- get fields "summary" (JStr "(sin resumen)") ;;
  summary <- as_str s ;;
  assignee <- get fields "assignee" JNull ;;
  d <- get (py_or assignee (JObj [])) "displayName" JNull ;;
  assignee_name <- as_str (py_or d (JStr "(Sin asignar)")) ;;
  Ok (key, summary, assignee_name).

(** The line of the document for three texts, each escaped. *)
Definition escaped_line (base_url : string) (t : string * string * string)
  : string :=
  let '(key, summary, assignee_name) := t in
  html_li (base_url ++ "/browse/" ++ escape key) (escape key)
    (escape summary) (escape assignee_name).

(** [b] is the block of the entry [e] with every text of [e] escaped:
    the heading with the escaped display name, and one line per issue
    with the issue's escaped texts. *)
Definition escaped_block (base_url : string) (e : owner * list json)
  (b : string) : Prop :=
  exists n texts,
    snd (fst e) = JStr n /\
    Forall2 (fun i t => issue_texts i = Ok t) (snd e) texts /\
    b = html_block_open (escape (shown_name n)) (List.length (snd e))
          ++ join (map (escaped_line base_url) texts) ++ html_block_close.

(** The texts of an issue without any field: the placeholders. *)
Definition blank_texts : string * string * string :=
  ("(sin clave)", "(sin resumen)", "(Sin asignar)").

(** The entry with its texts taken away: an empty display name, and
    issues without any field. *)
Definition blank_entry (e : owner * list json) : owner * list json :=
  ((fst (fst e), JStr ""), map (fun _ => JObj []) (snd e)).

(** *** Records with missing fields *)

Definition is_str (v : json) : bool :=
  match v with
  | JStr _ => true
  | _ => false
  end.

Definition absent_or (p : json -> bool) (o : option json) : bool :=
  match o with
  | None => true
  | Some v => p v
  end.

(** An assignee the pipeline takes: a false value (no assignee), or an
    object with an account id that can be hashed and, when it has a
    display name, a string for it. *)
Definition tolerated_assignee (v : json) : bool :=
  negb (truthy v) ||
  match v with
  | JObj items =>
      match lookup items "accountId" with
      | Some account_id => hashable account_id
      | None => false
      end
      && absent_or is_str (lookup items "displayName")
  | _ => false
  end.

Definition tolerated_fields (v : json) : bool :=
  match v with
  | JObj items =>
      absent_or is_str (lookup items "summary")
      && absent_or tolerated_assignee (lookup items "assignee")
  | _ => false
  end.

(** An issue record any of whose fields may be missing: the key, the
    fields object, the summary, the assignee, the display name.  What is
    there has the type the tracker gives it. *)
Definition tolerated (issue : json) : bool :=
  match issue with
  | JObj items =>
      absent_or is_str (lookup items "key")
      && absent_or tolerated_fields (lookup items "fields")
  | _ => false
  end.

(** The field [k] of an object, if it is there. *)
Definition field (v : json) (k : string) : option json :=
  match v with
  | JObj items => lookup items k
  | _ => None
  end.

Definition text_or (o : option json) (placeholder : string) : string :=
  match o with
  | Some (JStr s) => s
  | _ => placeholder
  end.

Definition issue_fields (issue : json) : json :=
  match field issue "fields" with
  | Some f => f
  | None => JObj []
  end.

(** The owner reference of an issue, if it has one. *)
Definition issue_assignee (issue : json) : option json :=
  match field (issue_fields issue) "assignee" with
  | Some a => if truthy a then Some a else None
  | None => None
  end.

(** The owner identity of an issue in the spec's words: the sentinel if
    and only if the issue has no owner reference, else the stable
    identifier with the display name or, that missing, its placeholder. *)
Definition expected_owner (issue : json) : owner :=
  match issue_assignee issue with
  | None => (JStr "UNASSIGNED", JStr "(Sin asignar)")
  | Some a =>
      (match field a "accountId" with Some id => id | None => JNull end,
       JStr (text_or (field a "displayName") "Desconocido"))
  end.

(** The texts of an issue's line in the spec's words: the key, the
    summary and the owner's display name, each replaced by its
    placeholder when missing. *)
Definition expected_texts (issue : json) : string * string * string :=
  (text_or (field issue "key") "(sin clave)",
   text_or (field (issue_fields issue) "summary") "(sin resumen)",
   match issue_assignee issue with
   | Some a => shown_name (text_or (field a "displayName") "")
   | None => "(Sin asignar)"
   end).

(** The console line for three texts. *)
Definition console_line (base_url : string) (t : string * string * string)
  : string :=
  let '(key, summary, assignee_name) := t in
  "  - " ++ key ++ " — " ++ short summary ++ " — Resp.: "
    ++ assignee_name ++ " — " ++ base_url ++ "/browse/" ++ key.

(** An entry the renderers take: a string for the display name, and
    tolerated issues. *)
Definition renderable (e : owner * list json) : Prop :=
  (exists n, snd (fst e) = JStr n) /\
  Forall (fun i => tolerated i = true) (snd e).

(** [str.lower] on ASCII text, for running the renderers on examples. *)
Definition ascii_lower_char (c : ascii) : ascii :=
  let n := nat_of_ascii c in
  if (65 <=? n)%nat && (n <=? 90)%nat then ascii_of_nat (n + 32) else c.

Fixpoint ascii_lower (s : string) : string :=
  match s with
  | EmptyString => EmptyString
  | String c rest => String (ascii_lower_char c) (ascii_lower rest)
  end.

(** A stand-in for [repr] where no list or dict is formatted. *)
Definition no_repr (v : json) : string := "...".

(* ================================================================= *)
(** ** Vocabulary of the properties *)

(** [m.get(k, [])]. *)
Definition bucket (m : mapping) (k : owner) : list json :=
  match mapping_get m k with
  | Some v => v
  | None => []
  end.

(** The key under which the loop of [group_by_assignee] files an issue:
    [owner_key], then the hashing done by [setdefault]. *)
Definition bucket_key (issue : json) : result owner :=
  k <- owner_key issue ;;
  if owner_hashable k then Ok k else Raise TypeError.

(** The issue's key equals [k]. *)
Definition belongs (k : owner) (issue : json) : bool :=
  match owner_key issue with
  | Ok k' => owner_eqb k' k
  | Raise _ => false
  end.

(** What the sampler owes an owner: the same key, [min(k, len(group))]
    issues, and these a part of the group (together with the issues not
    selected they are the group, rearranged). *)
Definition sampled_from (k : Z) (group sel : owner * list json) : Prop :=
  fst sel = fst group /\
  Z.of_nat (List.length (snd sel))
    = Z.min k (Z.of_nat (List.length (snd group))) /\
  exists rest, Permutation (snd sel ++ rest)%list (snd group).

(** The issue counts as one with an assignee. *)
Definition assigned (issue : json) : bool :=
  match has_assignee issue with
  | Ok b => b
  | Raise _ => false
  end.

(** *** Sample data *)

Definition make_issue (key summary : string) (assignee : json) : json :=
  JObj [("key", JStr key);
        ("fields", JObj [("summary", JStr summary); ("assignee", assignee)])].

Definition ana : json :=
  JObj [("accountId", JStr "A1"); ("displayName", JStr "Ana")].

Definition issue1 : json := make_issue "OPS-1" "Reinicio de <router> & switch" ana.
Definition issue2 : json := make_issue "OPS-2" "Cambio de clave" ana.
Definition issue3 : json := make_issue "OPS-3" "Sin responsable" JNull.

Definition ana_key : owner := (JStr "A1", JStr "Ana").

Definition sample_groups : mapping :=
  [(ana_key, [issue1; issue2]); (UNASSIGNED, [issue3])].

Definition bob : json :=
  JObj [("accountId", JStr "B7"); ("displayName", JStr "Bob <ops>")].

Definition ana_minor : json :=
  JObj [("accountId", JStr "A9"); ("displayName", JStr "ana")].

Definition issue6 : json := make_issue "OPS-6" "Disco lleno" bob.
Definition issue7 : json := make_issue "OPS-7" "Alta de usuario" ana_minor.

(** A selection in an order that is not the order of the names. *)
Definition sample_selection : mapping :=
  [((JStr "B7", JStr "Bob <ops>"), [issue6]);
   ((JStr "A9", JStr "ana"), [issue7]);
   (ana_key, [issue2; issue1]);
   (UNASSIGNED, [issue3])].


(** An assignee without a display name, with Ana's account id. *)
Definition nameless : json := JObj [("accountId", JStr "A1")].

Definition issue4 : json := make_issue "OPS-4" "Sin nombre" nameless.

(** An assignee object without its account id. *)
Definition no_account : json := JObj [("displayName", JStr "Ana")].

Definition issue5 : json := make_issue "OPS-5" "Sin cuenta" no_account.



(** Twenty-two issues of Ana, one more than [setsize] for a bound up to
    five, and the groups of these and of the issue without owner. *)
Definition large_group : list json :=
  map (fun i => make_issue ("B-" ++ nat_to_str i) "Incidente" ana) (seq 0 22).

Definition large_groups : mapping :=
  [(ana_key, large_group); (UNASSIGNED, [issue3])].

(** Records with missing fields: no field at all, no display name, no
    assignee, an empty assignee in fields without a summary. *)
Definition partial_issues : list json :=
  [JObj []; issue4; issue3;
   JObj [("key", JStr "OPS-8"); ("fields", JObj [("assignee", JObj [])])]].

Definition sample_date : date := mk_date 2024 3 7.

(** The document the renderer returns for the sample selection. *)
Definition sample_html : string :=
  match
    build_email_html ascii_lower "https://jira.example" sample_date
      sample_selection 5
  with
  | Ok html => html
  | Raise _ => EmptyString
  end.

(* ================================================================= *)
(** ** Further vocabulary *)

(** The issue has an assignee that carries the sentinel's own pair: the
    account id [UNASSIGNED] and the display name [(Sin asignar)]. *)
Definition sentinel_named (issue : json) : bool :=
  match issue_assignee issue with
  | Some a =>
      match field a "accountId", field a "displayName" with
      | Some (JStr account_id), Some (JStr name) =>
          String.eqb account_id "UNASSIGNED"
          && String.eqb name "(Sin asignar)"
      | _, _ => false
      end
  | None => false
  end.

(** The issues the sentinel bucket is for, and those it holds besides. *)
Definition unowned (issue : json) : bool :=
  negb (assigned issue) || sentinel_named issue.

(** An assignee with the sentinel's pair, and an issue of it. *)
Definition impostor : json :=
  JObj [("accountId", JStr "UNASSIGNED");
        ("displayName", JStr "(Sin asignar)")].

Definition issue10 : json := make_issue "OPS-10" "Cuenta genérica" impostor.

(** [a] is the beginning of [s]. *)
Definition prefix_of (a s : string) : Prop := exists rest, s = a ++ rest.

(** The keys [sorted] computes for a selection, in its order. *)
Definition lower_names (str_lower : string -> string) (selection : mapping)
  : result (list string) :=
  map_result (name_key str_lower) selection.

Definition is_object (v : json) : bool :=
  match v with
  | JObj _ => true
  | _ => false
  end.

(* ================================================================= *)
(** ** Splitting and trimming text *)

(** [s.split(c)] for a one-character separator: the parts between the
    separators, empty parts included; the empty text has one empty part. *)
Fixpoint split_on (sep : ascii) (s : string) : list string :=
  match s with
  | EmptyString => [EmptyString]
  | String c rest =>
      if Ascii.eqb c sep then EmptyString :: split_on sep rest
      else
        match split_on sep rest with
        | p :: ps => String c p :: ps
        | [] => [String c EmptyString]
        end
  end.

Fixpoint has_char (c : ascii) (s : string) : bool :=
  match s with
  | EmptyString => false
  | String x rest => Ascii.eqb x c || has_char c rest
  end.

(** The characters [str.isspace] holds for, in UTF-8: the ASCII ones
    (U+0009 to U+000D, U+001C to U+0020), U+0085 and U+00A0 on two bytes,
    and U+1680, U+2000 to U+200A, U+2028, U+2029, U+202F, U+205F and
    U+3000 on three. *)
Definition ascii_space (c : ascii) : bool :=
  let n := nat_of_ascii c in
  ((9 <=? n)%nat && (n <=? 13)%nat) || ((28 <=? n)%nat && (n <=? 32)%nat).

Definition two_byte_space (c1 c2 : ascii) : bool :=
  (nat_of_ascii c1 =? 194)%nat
  && ((nat_of_ascii c2 =? 133)%nat || (nat_of_ascii c2 =? 160)%nat).

Definition three_byte_space (c1 c2 c3 : ascii) : bool :=
  let n1 := nat_of_ascii c1 in
  let n2 := nat_of_ascii c2 in
  let n3 := nat_of_ascii c3 in
  ((n1 =? 225)%nat && (n2 =? 154)%nat && (n3 =? 128)%nat)
  || ((n1 =? 226)%nat && (n2 =? 128)%nat
      && (((128 <=? n3)%nat && (n3 <=? 138)%nat)
          || (n3 =? 168)%nat || (n3 =? 169)%nat || (n3 =? 175)%nat))
  || ((n1 =? 226)%nat && (n2 =? 129)%nat && (n3 =? 159)%nat)
  || ((n1 =? 227)%nat && (n2 =? 128)%nat && (n3 =? 128)%nat).

(** The number of bytes of the whitespace character [s] begins with,
    [0] when it begins with none. *)
Definition space_len (s : string) : nat :=
  match s with
  | String c1 r1 =>
      if ascii_space c1 then 1
      else
        match r1 with
        | String c2 r2 =>
            if two_byte_space c1 c2 then 2
            else
              match r2 with
              | String c3 _ => if three_byte_space c1 c2 c3 then 3 else 0
              | EmptyString => 0
              end
        | EmptyString => 0
        end
  | EmptyString => 0
  end.

Fixpoint drop (n : nat) (s : string) : string :=
  match n, s with
  | 0, _ => s
  | S n', String _ rest => drop n' rest
  | S _, EmptyString => EmptyString
  end.

Fixpoint lstrip_loop (fuel : nat) (s : string) : string :=
  match fuel with
  | 0 => s
  | S fuel' =>
      match space_len s with
      | 0 => s
      | n => lstrip_loop fuel' (drop n s)
      end
  end.

(** [s.lstrip()]: the leading whitespace characters taken away, one
    after the other; there are at most as many as bytes. *)
Definition lstrip (s : string) : string := lstrip_loop (String.length s) s.

(** [s.rstrip()]: the text up to the point from which all is whitespace. *)
Fixpoint rstrip (s : string) : string :=
  match s with
  | EmptyString => EmptyString
  | String c rest =>
      if String.eqb (lstrip s) EmptyString then EmptyString
      else String c (rstrip rest)
  end.

(** [s.strip()]. *)
Definition strip (s : string) : string := rstrip (lstrip s).

(** [n] blanks. *)
Fixpoint blanks (n : nat) : string :=
  match n with
  | 0 => EmptyString
  | S n' => String " " (blanks n')
  end.

(** The parts of a text that are not empty. *)
Definition nonempty (p : string) : bool := negb (String.eqb p EmptyString).

(** [[p.strip() for p in s.split(",") if p.strip()]], the comprehension
    of [build_jql_relative] (l. 95) and of [send_email] (l. 314). *)
Definition stripped_parts (s : string) : list string :=
  map strip
    (filter (fun p => negb (String.eqb (strip p) EmptyString))
       (split_on ","%char s)).

(* ================================================================= *)
(** ** 2. Consulta de issues en Jira *)

(** [build_jql_relative] (l. 90-104). *)
Definition build_jql_relative (project_keys : string) : string :=
  let projects := String.concat "," (stripped_parts project_keys) in
  "project in (" ++ projects ++ ") "
    ++ lit "AND status CHANGED TO `Resuelto` DURING (startOfDay(-1), endOfDay(-1))".

(** A part as [stripped_parts] leaves it: not empty, with no whitespace
    at either end and no comma. *)
Definition trimmed (p : string) : Prop :=
  p <> EmptyString /\ strip p = p /\ has_char ","%char p = false.

(* ================================================================= *)
(** ** The program and its collaborators *)

(** What a run does to the outside, in order: a text printed, a request
    sent to the tracker, the preview written, a call on the mail server. *)
Record request : Type := mk_request {
  req_url : string;
  req_jql : string;
  req_start_at : nat;
  req_max_results : nat;
  req_fields : list string;
  req_auth : string * string
}.

(** The message [send_email] builds: its three headers and its one part. *)
Record message : Type := mk_message {
  msg_subject : string;
  msg_from : string;
  msg_to : string;
  msg_html : string
}.

Inductive smtp_call : Type :=
| Connect (server : string) (port : Z)
| Ehlo
| StartTls
| Login (username password : string)
| Sendmail (sender : string) (recipients : list string) (msg : message).

Inductive event : Type :=
| Print (s : string)
| PrintErr (s : string)
| Get (r : request)
| WriteFile (name content : string)
| Smtp (c : smtp_call).

(** How a run ends besides returning: [sys.exit], an exception (of the
    interpreter, the one [fetch_all_issues] raises itself, or one of a
    collaborator), or no end within the steps allowed. *)
Inductive failure : Type :=
| Interpreter (e : exn)
| ApiError (description : string)
| TransportError
| FileError
| MailError.

Inductive ending (A : Type) : Type :=
| Returns (a : A)
| Exits (status : Z)
| Fails (f : failure)
| Unfinished.
Arguments Returns {A} a.
Arguments Exits {A} status.
Arguments Fails {A} f.
Arguments Unfinished {A}.

Definition proc (A : Type) : Type := (list event * ending A)%type.

Definition ret {A : Type} (a : A) : proc A := ([], Returns a).

Definition emit (e : event) : proc unit := ([e], Returns tt).

Definition stop {A : Type} (x : ending A) : proc A := ([], x).

Definition proc_bind {A B : Type} (m : proc A) (k : A -> proc B) : proc B :=
  match m with
  | (tr, Returns a) => let (tr', r) := k a in ((tr ++ tr')%list, r)
  | (tr, Exits status) => (tr, Exits status)
  | (tr, Fails f) => (tr, Fails f)
  | (tr, Unfinished) => (tr, Unfinished)
  end.

Notation "x <~ m ;; k" := (proc_bind m (fun x => k))
  (at level 61, m at next level, right associativity).

(** A raising computation within a run. *)
Definition of_result {A : Type} (r : result A) : proc A :=
  match r with
  | Ok a => ret a
  | Raise e => stop (Fails (Interpreter e))
  end.

(** A printing computation within a run. *)
Definition of_io {A : Type} (m : io A) : proc A :=
  (map Print (fst m), match snd m with
                      | Ok a => Returns a
                      | Raise e => Fails (Interpreter e)
                      end).

(* ----------------------------------------------------------------- *)
(** *** 1. Configuración *)

(** [os.getenv] once [load_dotenv] has run. *)
Definition environ : Type := string -> option string.

Definition getenv (env : environ) (var default : string) : string :=
  match env var with
  | Some val => val
  | None => default
  end.

(** The [cfg] that [load_settings] returns. *)
Record settings : Type := mk_settings {
  JIRA_BASE_URL : string;
  JIRA_EMAIL : string;
  JIRA_API_TOKEN : string;
  JIRA_PROJECT_KEYS : string;
  PER_ANALYST : Z;
  RECIPIENT_EMAIL : string;
  SENDER_EMAIL : string;
  SMTP_SERVER : string;
  SMTP_PORT : Z;
  SMTP_USERNAME : string;
  SMTP_PASSWORD : string;
  DRY_RUN : bool
}.

Definition required_vars : list string :=
  ["JIRA_BASE_URL"; "JIRA_EMAIL"; "JIRA_API_TOKEN"; "JIRA_PROJECT_KEYS";
   "PER_ANALYST"; "RECIPIENT_EMAIL"; "SENDER_EMAIL"; "SMTP_SERVER";
   "SMTP_PORT"].

(** The variable is not set, or set to the empty text. *)
Definition unset (env : environ) (var : string) : bool :=
  match env var with
  | Some val => String.eqb val EmptyString
  | None => true
  end.

(** The end of a run on a variable that is not there (l. 59-61). *)
Definition missing {A : Type} (var : string) : proc A :=
  _ <~ emit (PrintErr ("[ERROR] Falta variable de entorno: " ++ var)) ;;
  stop (Exits 1).

(** One turn of the loop over [required_vars] (l. 57-62). *)
Definition require (env : environ) (var : string) : proc string :=
  match env var with
  | Some val => if String.eqb val EmptyString then missing var else ret val
  | None => missing var
  end.

Section Program.

(** Besides [str.lower] and [repr], [int] on a text is the
    interpreter's (it reads the digits of every script): [None] stands
    for its [ValueError]. *)
Variable str_lower : string -> string.
Variable py_repr : json -> string.
Variable py_int : string -> option Z.

(** [load_settings] (l. 37-82); the loop over the nine names is written
    out in their order. *)
Definition load_settings (env : environ) : proc settings :=
  base_url <~ require env "JIRA_BASE_URL" ;;
  email <~ require env "JIRA_EMAIL" ;;
  token <~ require env "JIRA_API_TOKEN" ;;
  project_keys <~ require env "JIRA_PROJECT_KEYS" ;;
  per_analyst <~ require env "PER_ANALYST" ;;
  recipient <~ require env "RECIPIENT_EMAIL" ;;
  sender <~ require env "SENDER_EMAIL" ;;
  smtp_server <~ require env "SMTP_SERVER" ;;
  smtp_port <~ require env "SMTP_PORT" ;;
  let username := getenv env "SMTP_USERNAME" sender in
  let password := getenv env "SMTP_PASSWORD" EmptyString in
  let dry_run := String.eqb (str_lower (getenv env "DRY_RUN" "true")) "true" in
  match py_int per_analyst with
  | None =>
      _ <~ emit (PrintErr "[ERROR] PER_ANALYST debe ser un entero.") ;;
      stop (Exits 1)
  | Some per =>
      match py_int smtp_port with
      | None =>
          _ <~ emit (PrintErr "[ERROR] SMTP_PORT debe ser un entero.") ;;
          stop (Exits 1)
      | Some port =>
          ret (mk_settings base_url email token project_keys per recipient
                 sender smtp_server port username password dry_run)
      end
  end.

(* ----------------------------------------------------------------- *)
(** *** 2. Consulta de issues en Jira *)

(** What the tracker answers to a request: a response with its status,
    its text and what [resp.json()] gives ([None] for its [ValueError]),
    or nothing (the request raises). *)
Inductive reply : Type :=
| Answer (status_code : Z) (body : string) (decoded : option json)
| NoAnswer.

Definition server : Type := request -> reply.

(** [s.rstrip(c)] for one character. *)
Fixpoint rstrip_char (c : ascii) (s : string) : string :=
  match s with
  | EmptyString => EmptyString
  | String x rest =>
      let r := rstrip_char c rest in
      if String.eqb r EmptyString && Ascii.eqb x c then EmptyString
      else String x r
  end.

(** The characters of a text, each with the bytes that continue it. *)
Fixpoint chars (s : string) : list string :=
  match s with
  | EmptyString => []
  | String c rest =>
      match rest with
      | String c' _ =>
          if is_continuation c' then
            match chars rest with
            | g :: gs => String c g :: gs
            | [] => [String c EmptyString]
            end
          else String c EmptyString :: chars rest
      | EmptyString => [String c EmptyString]
      end
  end.

(** [issues.extend(v)]: the elements of a list, the keys of a dict, the
    characters of a text; nothing else can be iterated. *)
Definition extend (issues : list json) (v : json) : result (list json) :=
  match v with
  | JList l => Ok (issues ++ l)%list
  | JObj items => Ok (issues ++ map (fun kv => JStr (fst kv)) items)%list
  | JStr s => Ok (issues ++ map JStr (chars s))%list
  | _ => Raise TypeError
  end.

(** [n >= total]: a number compares with a number or a truth value. *)
Definition reaches (n : nat) (total : json) : result bool :=
  match total with
  | JNum z => Ok (z <=? Z.of_nat n)%Z
  | JBool b => Ok (bool_to_Z b <=? Z.of_nat n)%Z
  | _ => Raise TypeError
  end.

Definition max_results : nat := 100.

Definition search_fields : list string :=
  ["key"; "summary"; "assignee"; "reporter"; "resolutiondate"].

(** The [while True] of [fetch_all_issues] (l. 122-146), for at most
    [fuel] requests. *)
Fixpoint fetch_loop (fuel : nat) (jira : server) (base_url : string)
  (auth : string * string) (jql : string) (start_at : nat)
  (issues : list json) : proc (list json) :=
  match fuel with
  | 0 => stop Unfinished
  | S fuel' =>
      let url := base_url ++ "/rest/api/3/search/jql" in
      let req := mk_request url jql start_at max_results search_fields auth in
      _ <~ emit (Get req) ;;
      match jira req with
      | NoAnswer => stop (Fails TransportError)
      | Answer status_code body decoded =>
          if negb (status_code =? 200)%Z then
            stop (Fails (ApiError ("Error en Jira API: "
                                     ++ int_to_str status_code ++ " " ++ body)))
          else
            match decoded with
            | None =>
                stop (Fails (ApiError ("Respuesta no es JSON válido: " ++ body)))
            | Some data =>
                page <~ of_result (get data "issues" (JList [])) ;;
                issues <~ of_result (extend issues page) ;;
                total <~ of_result (get data "total" (JNum 0)) ;;
                enough <~ of_result (reaches (start_at + max_results) total) ;;
                if enough then ret issues
                else fetch_loop fuel' jira base_url auth jql
                       (start_at + max_results) issues
            end
      end
  end.

(** [fetch_all_issues] (l. 108-148). *)
Definition fetch_all_issues (fuel : nat) (jira : server) (base_url : string)
  (auth : string * string) (jql : string) : proc (list json) :=
  let base_url := rstrip_char "/"%char (strip base_url) in
  fetch_loop fuel jira base_url auth jql 0 [].

(* ----------------------------------------------------------------- *)
(** *** Envío de correo *)

(** The collaborators of [send_email]: the time stamp of the preview's
    name, and whether writing the file and each call on the mail server
    return. *)
Record post_office : Type := mk_post_office {
  stamp : string;
  disk : string -> string -> bool;
  mail : smtp_call -> bool
}.

Definition smtp (po : post_office) (c : smtp_call) : proc unit :=
  _ <~ emit (Smtp c) ;;
  if mail po c then ret tt else stop (Fails MailError).

(** [send_email] (l. 307-343).  The calls listed are those the function
    makes itself; how [with] closes the session is the library's. *)
Definition send_email (po : post_office) (cfg : settings)
  (subject html_body : string) : proc unit :=
  let recipients := stripped_parts (RECIPIENT_EMAIL cfg) in
  match recipients with
  | [] =>
      _ <~ emit (PrintErr
                   "[ERROR] RECIPIENT_EMAIL no tiene destinatarios válidos.") ;;
      stop (Exits 1)
  | _ =>
      let msg := mk_message subject (SENDER_EMAIL cfg)
                   (String.concat ", " recipients) html_body in
      if DRY_RUN cfg then
        _ <~ emit (Print (newline
                    ++ "[DRY_RUN] No se envió correo. Contenido MIME (recortado).")) ;;
        let fname := "auditoria_preview_" ++ stamp po ++ ".html" in
        _ <~ emit (WriteFile fname html_body) ;;
        if disk po fname html_body then
          emit (Print ("[DRY_RUN] Vista previa guardada en: " ++ fname))
        else stop (Fails FileError)
      else
        _ <~ smtp po (Connect (SMTP_SERVER cfg) (SMTP_PORT cfg)) ;;
        _ <~ smtp po Ehlo ;;
        _ <~ smtp po StartTls ;;
        _ <~ smtp po Ehlo ;;
        _ <~ (if String.eqb (SMTP_PASSWORD cfg) EmptyString then ret tt
              else smtp po (Login (SMTP_USERNAME cfg) (SMTP_PASSWORD cfg))) ;;
        smtp po (Sendmail (SENDER_EMAIL cfg) recipients msg)
  end.

(* ----------------------------------------------------------------- *)
(** *** 5. Programa principal *)

(** The outside of a run of [main]: the environment, the tracker, the
    draws of the random source, yesterday's date in Bogotá, and the
    collaborators of [send_email]. *)
Record world : Type := mk_world {
  environment : environ;
  jira : server;
  draws : rng;
  yesterday : date;
  office : post_office
}.

(** [main] (l. 396-432), the tracker being asked at most [fuel] times. *)
Definition main (fuel : nat) (w : world) : proc unit :=
  cfg <~ load_settings (environment w) ;;
  let jql := build_jql_relative (JIRA_PROJECT_KEYS cfg) in
  _ <~ emit (Print (newline ++ "[INFO] Ejecutando JQL: " ++ jql)) ;;
  issues <~ fetch_all_issues fuel (jira w) (JIRA_BASE_URL cfg)
              (JIRA_EMAIL cfg, JIRA_API_TOKEN cfg) jql ;;
  let total := Z.of_nat (List.length issues) in
  _ <~ emit (Print ("[INFO] Issues recuperados: " ++ int_to_str total)) ;;
  _ <~ of_io (summarize_assignee_stats issues) ;;
  groups <~ of_result (group_by_assignee issues) ;;
  selection <~ of_result
                 (fst (pick_random_per_analyst groups (PER_ANALYST cfg)
                         (draws w))) ;;
  _ <~ (if DRY_RUN cfg then
          of_io (print_console_summary str_lower py_repr (JIRA_BASE_URL cfg)
                   selection total)
        else ret tt) ;;
  let yesterday_bog := yesterday w in
  html <~ of_result
            (build_email_html str_lower (JIRA_BASE_URL cfg) yesterday_bog
               selection total) ;;
  let subject :=
    "[Auditoría] Issues resueltos el " ++ isoformat yesterday_bog in
  send_email (office w) cfg subject html.

(** The subject of the message (l. 429). *)
Definition subject_of (w : world) : string :=
  "[Auditoría] Issues resueltos el " ++ isoformat (yesterday w).

(** What a run has got when it reaches [send_email]: the settings, the
    issues fetched, their groups, the selection and its document. *)
Definition reported (fuel : nat) (w : world) (cfg : settings)
  (issues : list json) (groups selection : mapping) (html : string) : Prop :=
  load_settings (environment w) = ([], Returns cfg)
  /\ snd (fetch_all_issues fuel (jira w) (JIRA_BASE_URL cfg)
            (JIRA_EMAIL cfg, JIRA_API_TOKEN cfg)
            (build_jql_relative (JIRA_PROJECT_KEYS cfg))) = Returns issues
  /\ group_by_assignee issues = Ok groups
  /\ fst (pick_random_per_analyst groups (PER_ANALYST cfg) (draws w))
     = Ok selection
  /\ build_email_html str_lower (JIRA_BASE_URL cfg) (yesterday w) selection
       (Z.of_nat (List.length issues)) = Ok html.

End Program.

(* ----------------------------------------------------------------- *)
(** *** Vocabulary of the properties of a run *)

(** The request for the [i]-th page of a hundred results. *)
Definition page_request (base_url : string) (auth : string * string)
  (jql : string) (i : nat) : request :=
  mk_request (rstrip_char "/"%char (strip base_url) ++ "/rest/api/3/search/jql")
    jql (i * max_results) max_results search_fields auth.

Definition page_requests (base_url : string) (auth : string * string)
  (jql : string) (first n : nat) : list event :=
  map (fun i => Get (page_request base_url auth jql i)) (seq first n).

(** A tracker that answers every page request with status 200, the
    issues [page i] and the same [total]. *)
Definition paged (jira : server) (base_url : string) (auth : string * string)
  (jql : string) (page : nat -> list json) (total : Z) : Prop :=
  forall i, exists body data,
    jira (page_request base_url auth jql i) = Answer 200 body (Some data)
    /\ get data "issues" (JList []) = Ok (JList (page i))
    /\ get data "total" (JNum 0) = Ok (JNum total).

(** The hundreds in [total], rounded up, and at least one. *)
Definition page_count (total : Z) : nat :=
  Z.to_nat (Z.max 1 ((total + 99) / 100)).

Definition exits {A : Type} (x : ending A) : bool :=
  match x with
  | Exits _ => true
  | _ => false
  end.

Definition is_smtp (e : event) : bool :=
  match e with
  | Smtp _ => true
  | _ => false
  end.

Definition is_write (e : event) : bool :=
  match e with
  | WriteFile _ _ => true
  | _ => false
  end.

(** The events that hand the report over: the preview and the calls on
    the mail server. *)
Definition delivers (e : event) : bool := is_smtp e || is_write e.

(** The calls that carry the password or the report. *)
Definition confidential (c : smtp_call) : bool :=
  match c with
  | Login _ _ => true
  | Sendmail _ _ _ => true
  | _ => false
  end.

(** The calls of a session, up to the first that does not return. *)
Fixpoint attempted (mail : smtp_call -> bool) (calls : list smtp_call)
  : list smtp_call :=
  match calls with
  | [] => []
  | c :: rest => c :: (if mail c then attempted mail rest else [])
  end.

(** The session [send_email] holds with the mail server. *)
Definition smtp_session (cfg : settings) (recipients : list string)
  (msg : message) : list smtp_call :=
  [Connect (SMTP_SERVER cfg) (SMTP_PORT cfg); Ehlo; StartTls; Ehlo]
    ++ (if String.eqb (SMTP_PASSWORD cfg) EmptyString then []
        else [Login (SMTP_USERNAME cfg) (SMTP_PASSWORD cfg)])
    ++ [Sendmail (SENDER_EMAIL cfg) recipients msg].

(* ----------------------------------------------------------------- *)
(** *** A sample run *)

(** [int] on a plain decimal numeral with an optional minus sign, for
    running the program on examples. *)
Fixpoint digits_value (s : string) (acc : Z) : option Z :=
  match s with
  | EmptyString => Some acc
  | String c rest =>
      let n := nat_of_ascii c in
      if (48 <=? n)%nat && (n <=? 57)%nat
      then digits_value rest (10 * acc + Z.of_nat (n - 48))
      else None
  end.

Definition ascii_int (s : string) : option Z :=
  match s with
  | EmptyString => None
  | String c rest =>
      if Ascii.eqb c "-"%char then
        match rest with
        | EmptyString => None
        | _ => option_map Z.opp (digits_value rest 0)
        end
      else digits_value s 0
  end.

(** The environment that holds the given variables and no other. *)
Fixpoint env_of (vars : list (string * string)) : environ :=
  fun var =>
    match vars with
    | [] => None
    | (name, val) :: rest =>
        if String.eqb name var then Some val else env_of rest var
    end.

Definition sample_vars (per_analyst : string) : list (string * string) :=
  [("JIRA_BASE_URL", "https://jira.example/");
   ("JIRA_EMAIL", "auditoria@example.org");
   ("JIRA_API_TOKEN", "secreto");
   ("JIRA_PROJECT_KEYS", "OPS, RED ,");
   ("PER_ANALYST", per_analyst);
   ("RECIPIENT_EMAIL", "jefe@example.org, calidad@example.org");
   ("SENDER_EMAIL", "auditoria@example.org");
   ("SMTP_SERVER", "smtp.example.org");
   ("SMTP_PORT", "587")].

Definition sample_settings (per_analyst : Z) (dry_run : bool) : settings :=
  mk_settings "https://jira.example/" "auditoria@example.org" "secreto"
    "OPS, RED ," per_analyst "jefe@example.org, calidad@example.org"
    "auditoria@example.org" "smtp.example.org" 587
    "auditoria@example.org" EmptyString dry_run.

(** A tracker with three resolved issues, on one page. *)
Definition sample_page : list json := [issue1; issue2; issue3].

Definition sample_jira : server :=
  fun _ => Answer 200 EmptyString
             (Some (JObj [("issues", JList sample_page); ("total", JNum 3)])).

Definition sample_office : post_office :=
  mk_post_office "20240308_060000" (fun _ _ => true) (fun _ => true).


(** A tracker with twenty-three resolved issues, twenty-two of them
    Ana's, and the world of it, in which the draws are [3], [3] again
    and [21]. *)
Definition large_page : list json := (large_group ++ [issue3])%list.

Definition large_jira : server :=
  fun _ => Answer 200 EmptyString
             (Some (JObj [("issues", JList large_page); ("total", JNum 23)])).

Definition large_world : world :=
  mk_world (env_of (sample_vars "2")) large_jira [3; 3; 21] sample_date
    sample_office.

(** What the sampler picks from the large groups under the bound [2],
    the draws being [3], [3] again and [21]. *)
Definition large_picked : mapping :=
  [(ana_key, [make_issue "B-3" "Incidente" ana;
              make_issue "B-21" "Incidente" ana]);
   (UNASSIGNED, [issue3])].

(** A selection whose lower-cased names differ, and the same in another
    order. *)
Definition sample_distinct : mapping :=
  [((JStr "B7", JStr "Bob <ops>"), [issue6]);
   (ana_key, [issue2; issue1]);
   (UNASSIGNED, [issue3])].

Definition sample_distinct_reversed : mapping :=
  [(UNASSIGNED, [issue3]);
   (ana_key, [issue2; issue1]);
   ((JStr "B7", JStr "Bob <ops>"), [issue6])].

(** The settings of the sample environment with only its first and
    third variables. *)
Definition sample_vars_short : list (string * string) :=
  [("JIRA_BASE_URL", "https://jira.example/");
   ("JIRA_API_TOKEN", "secreto")].

(* ================================================================= *)
(** * Properties *)

(** ** Equality of keys *)

Lemma py_eqb_refl (v : json) : hashable v = true -> py_eqb v v = true.
Proof.
  destruct v; simpl; intros H; try discriminate; auto.
  - apply Bool.eqb_reflx.
  - apply Z.eqb_refl.
  - apply String.eqb_refl.
Qed.

Lemma py_eqb_sym (a b : json) : py_eqb a b = py_eqb b a.
Proof.
  destruct a, b; simpl; auto.
  - destruct b0, b; reflexivity.
  - apply Z.eqb_sym.
  - apply Z.eqb_sym.
  - apply Z.eqb_sym.
  - apply String.eqb_sym.
Qed.

Lemma py_eqb_trans (a b c : json) :
  py_eqb a b = true -> py_eqb b c = true -> py_eqb a c = true.
Proof.
  destruct a, b, c; simpl; try discriminate; auto;
    rewrite ?Bool.eqb_true_iff, ?Z.eqb_eq, ?String.eqb_eq;
    try congruence;
    repeat match goal with x : bool |- _ => destruct x end;
    simpl; try congruence; try lia.
Qed.

Lemma owner_eqb_refl (k : owner) :
  owner_hashable k = true -> owner_eqb k k = true.
Proof.
  unfold owner_hashable, owner_eqb. rewrite !andb_true_iff.
  intros [H1 H2]. split; apply py_eqb_refl; assumption.
Qed.

Lemma owner_eqb_sym (a b : owner) : owner_eqb a b = owner_eqb b a.
Proof.
  unfold owner_eqb. rewrite (py_eqb_sym (fst a)), (py_eqb_sym (snd a)).
  reflexivity.
Qed.

Lemma owner_eqb_trans (a b c : owner) :
  owner_eqb a b = true -> owner_eqb b c = true -> owner_eqb a c = true.
Proof.
  unfold owner_eqb. rewrite !andb_true_iff. intros [H1 H2] [H3 H4].
  split; eapply py_eqb_trans; eassumption.
Qed.

(** Equal keys compare alike with every third key. *)
Lemma owner_eqb_congr (a b c : owner) :
  owner_eqb a b = true -> owner_eqb a c = owner_eqb b c.
Proof.
  intros Hab.
  destruct (owner_eqb b c) eqn:Hbc.
  - eapply owner_eqb_trans; eassumption.
  - destruct (owner_eqb a c) eqn:Hac; auto.
    rewrite owner_eqb_sym in Hab.
    rewrite <- Hbc. symmetry. eapply owner_eqb_trans; eassumption.
Qed.

(** ** Mappings *)

Lemma mapping_get_setdefault_append (m : mapping) (k : owner) (x : json)
  (q : owner) :
  mapping_get (setdefault_append m k x) q =
  if owner_eqb k q then Some (bucket m q ++ [x])%list else mapping_get m q.
Proof.
  unfold bucket.
  induction m as [|[k' v'] rest IH]; simpl.
  - destruct (owner_eqb k q); reflexivity.
  - destruct (owner_eqb k' k) eqn:Hk; simpl.
    + rewrite (owner_eqb_congr k' k q Hk).
      destruct (owner_eqb k q); reflexivity.
    + destruct (owner_eqb k' q) eqn:Hq.
      * destruct (owner_eqb k q) eqn:Hkq; auto.
        rewrite owner_eqb_sym in Hkq.
        rewrite (owner_eqb_trans k' q k Hq Hkq) in Hk. discriminate.
      * exact IH.
Qed.

Lemma setdefault_append_keys (Q : owner -> Prop) (m : mapping) (k : owner)
  (x : json) :
  Forall (fun e => Q (fst e)) m -> Q k ->
  Forall (fun e => Q (fst e)) (setdefault_append m k x).
Proof.
  intros Hm Hk. induction Hm as [|[k' v'] rest Hh Ht IH]; simpl.
  - constructor; auto.
  - destruct (owner_eqb k' k); constructor; auto.
Qed.

Lemma keys_distinct_setdefault_append (m : mapping) (k : owner) (x : json) :
  keys_distinct m -> owner_hashable k = true ->
  keys_distinct (setdefault_append m k x).
Proof.
  intros Hm Hk. induction m as [|[k' v'] rest IH]; simpl in *.
  - repeat split; auto.
  - destruct Hm as (Hh & Hf & Hd).
    destruct (owner_eqb k' k) eqn:Hkk; simpl.
    + repeat split; auto.
    + repeat split; auto.
      apply (setdefault_append_keys (fun q => owner_eqb k' q = false));
        assumption.
Qed.

Lemma setdefault_append_concat (m : mapping) (k : owner) (x : json) :
  Permutation (List.concat (map snd (setdefault_append m k x)))
              (List.concat (map snd m) ++ [x])%list.
Proof.
  induction m as [|[k' v'] rest IH]; simpl.
  - constructor. constructor.
  - destruct (owner_eqb k' k); simpl.
    + rewrite <- !app_assoc. apply Permutation_app_head.
      apply Permutation_app_comm.
    + rewrite <- app_assoc. apply Permutation_app_head. exact IH.
Qed.

Lemma setdefault_append_nonempty (m : mapping) (k : owner) (x : json) :
  Forall (fun e => snd e <> []) m ->
  Forall (fun e => snd e <> []) (setdefault_append m k x).
Proof.
  intros Hm. induction Hm as [|[k' v'] rest Hh Ht IH]; simpl.
  - constructor; auto. simpl. discriminate.
  - destruct (owner_eqb k' k); constructor; auto.
    simpl. destruct v'; discriminate.
Qed.

(** In a well-formed mapping an item is what its key looks up. *)
Lemma mapping_get_In (m : mapping) (k : owner) (v : list json) :
  keys_distinct m -> In (k, v) m -> mapping_get m k = Some v.
Proof.
  induction m as [|[k' v'] rest IH]; simpl; intros Hd Hin.
  - contradiction.
  - destruct Hd as (Hh & Hf & Hd). destruct Hin as [Heq|Hin].
    + inversion Heq; subst. rewrite owner_eqb_refl; auto.
    + rewrite Forall_forall in Hf. pose proof (Hf _ Hin) as Hne.
      simpl in Hne. rewrite Hne. auto.
Qed.

Lemma mapping_get_Some_In (m : mapping) (k : owner) (v : list json) :
  mapping_get m k = Some v ->
  exists k', In (k', v) m /\ owner_eqb k' k = true.
Proof.
  induction m as [|[k' v'] rest IH]; simpl; intros H.
  - discriminate.
  - destruct (owner_eqb k' k) eqn:Hk.
    + inversion H; subst. exists k'. auto.
    + destruct (IH H) as (k'' & Hin & He). exists k''. auto.
Qed.

(** ** The Owner Grouper *)

Lemma bucket_key_ok (issue : json) (k : owner) :
  bucket_key issue = Ok k <->
  owner_key issue = Ok k /\ owner_hashable k = true.
Proof.
  unfold bucket_key. destruct (owner_key issue) as [k'|e]; simpl.
  - destruct (owner_hashable k') eqn:Hh; split.
    + intros H; inversion H; subst; auto.
    + intros [H _]; exact H.
    + discriminate.
    + intros [H H']; inversion H; subst. congruence.
  - split; [discriminate | intros [H _]; discriminate].
Qed.

Lemma group_loop_step (issue : json) (rest : list json) (groups : mapping) :
  group_loop (issue :: rest) groups =
  match bucket_key issue with
  | Ok k => group_loop rest (setdefault_append groups k issue)
  | Raise e => Raise e
  end.
Proof.
  simpl. unfold bucket_key. destruct (owner_key issue) as [k|e]; simpl; auto.
  destruct (owner_hashable k); reflexivity.
Qed.

(** The loop invariant: what the loop adds to each bucket is the run of the
    remaining issues with that key, in their order. *)
Lemma group_loop_inv (issues : list json) :
  forall (g0 g : mapping),
    keys_distinct g0 ->
    Forall (fun e => snd e <> []) g0 ->
    group_loop issues g0 = Ok g ->
    keys_distinct g /\
    Forall (fun e => snd e <> []) g /\
    (forall q, bucket g q = bucket g0 q ++ filter (belongs q) issues)%list /\
    Permutation (List.concat (map snd g)) (List.concat (map snd g0) ++ issues)%list /\
    Forall (fun i => is_ok (bucket_key i) = true) issues.
Proof.
  induction issues as [|issue rest IH]; intros g0 g Hd Hn Hrun.
  - simpl in Hrun. inversion Hrun; subst. repeat split; auto.
    + intros q. simpl. rewrite app_nil_r. reflexivity.
    + rewrite app_nil_r. apply Permutation_refl.
  - rewrite group_loop_step in Hrun.
    destruct (bucket_key issue) as [k|e] eqn:Hk; [|discriminate].
    apply bucket_key_ok in Hk as Hk'. destruct Hk' as [Hkey Hh].
    destruct (IH _ _ (keys_distinct_setdefault_append _ _ issue Hd Hh)
                (setdefault_append_nonempty _ k issue Hn) Hrun)
      as (Hd' & Hn' & Hb & Hp & Hok).
    repeat split; auto.
    + intros q. rewrite Hb. unfold bucket at 1.
      rewrite mapping_get_setdefault_append.
      simpl. unfold belongs at 2. rewrite Hkey.
      destruct (owner_eqb k q).
      * rewrite <- app_assoc. reflexivity.
      * reflexivity.
    + eapply Permutation_trans; [exact Hp|].
      eapply Permutation_trans;
        [apply Permutation_app_tail, setdefault_append_concat|].
      rewrite <- app_assoc. reflexivity.
    + constructor; auto. rewrite Hk. reflexivity.
Qed.

Lemma group_loop_raise (issues : list json) :
  forall (g0 : mapping) (e : exn),
    group_loop issues g0 = Raise e ->
    Exists (fun i => bucket_key i = Raise e) issues.
Proof.
  induction issues as [|issue rest IH]; intros g0 e Hrun.
  - discriminate.
  - rewrite group_loop_step in Hrun.
    destruct (bucket_key issue) as [k|e'] eqn:Hk.
    + apply Exists_cons_tl. eapply IH; eassumption.
    + inversion Hrun; subst. apply Exists_cons_hd. assumption.
Qed.

Lemma group_loop_total (issues : list json) :
  forall (g0 : mapping),
    Forall (fun i => is_ok (bucket_key i) = true) issues ->
    exists g, group_loop issues g0 = Ok g.
Proof.
  induction issues as [|issue rest IH]; intros g0 Hok.
  - exists g0. reflexivity.
  - inversion Hok as [|? ? Hi Hrest]; subst.
    rewrite group_loop_step.
    destruct (bucket_key issue) as [k|e]; [|discriminate].
    apply IH. assumption.
Qed.

Lemma keys_distinct_entry_eq (m : mapping) (k1 k2 : owner)
  (v1 v2 : list json) :
  keys_distinct m -> In (k1, v1) m -> In (k2, v2) m ->
  owner_eqb k1 k2 = true -> (k1, v1) = (k2, v2).
Proof.
  induction m as [|[k v] rest IH]; simpl; intros Hd H1 H2 He.
  - contradiction.
  - destruct Hd as (Hh & Hf & Hd). rewrite Forall_forall in Hf.
    destruct H1 as [H1|H1], H2 as [H2|H2].
    + congruence.
    + inversion H1; subst. pose proof (Hf _ H2) as Hne. simpl in Hne.
      congruence.
    + inversion H2; subst. pose proof (Hf _ H1) as Hne. simpl in Hne.
      rewrite owner_eqb_sym in Hne. congruence.
    + auto.
Qed.

Lemma belongs_same_key (k1 k2 : owner) (issue : json) :
  belongs k1 issue = true -> belongs k2 issue = true ->
  owner_eqb k1 k2 = true.
Proof.
  unfold belongs. destruct (owner_key issue) as [k|e]; [|discriminate].
  intros H1 H2. rewrite owner_eqb_sym in H1.
  eapply owner_eqb_trans; eassumption.
Qed.

(** The buckets of a returned mapping. *)
Lemma group_by_assignee_buckets (issues : list json) (groups : mapping) :
  group_by_assignee issues = Ok groups ->
  Permutation (List.concat (map snd groups)) issues /\
  keys_distinct groups /\
  (forall k items, In (k, items) groups ->
     items <> [] /\ items = filter (belongs k) issues).
Proof.
  unfold group_by_assignee. intros Hrun.
  destruct (group_loop_inv issues [] groups I (Forall_nil _) Hrun)
    as (Hd & Hn & Hb & Hp & _).
  split; [exact Hp|]. split; [exact Hd|].
  intros k items Hin. split.
  - rewrite Forall_forall in Hn. exact (Hn _ Hin).
  - pose proof (Hb k) as Hk. unfold bucket in Hk.
    rewrite (mapping_get_In _ _ _ Hd Hin) in Hk. exact Hk.
Qed.

(** C10.  Buckets are keyed by the pair of the account id and the resolved
    display name: two issues of the list whose assignees carry the same
    account id and resolve to different display names lie in two buckets,
    each under its own pair, and neither issue lies in the other's bucket. *)
Theorem group_by_assignee_keys_by_pair (issues : list json)
  (groups : mapping) (i1 i2 account_id name1 name2 : json) :
  group_by_assignee issues = Ok groups ->
  In i1 issues -> In i2 issues ->
  owner_key i1 = Ok (account_id, name1) ->
  owner_key i2 = Ok (account_id, name2) ->
  py_eqb name1 name2 = false ->
  exists items1 items2,
    mapping_get groups (account_id, name1) = Some items1 /\
    mapping_get groups (account_id, name2) = Some items2 /\
    In i1 items1 /\ In i2 items2 /\ ~ In i1 items2 /\ ~ In i2 items1.
Proof.
  unfold group_by_assignee. intros Hrun Hin1 Hin2 Hk1 Hk2 Hne.
  destruct (group_loop_inv issues [] groups I (Forall_nil _) Hrun)
    as (Hd & Hn & Hb & Hp & Hok).
  rewrite Forall_forall in Hok.
  assert (Hh : forall i k, In i issues -> owner_key i = Ok k ->
                           owner_hashable k = true).
  { intros i k Hin Hk. pose proof (Hok _ Hin) as H. unfold bucket_key in H.
    rewrite Hk in H. simpl in H. destruct (owner_hashable k); auto. }
  assert (Hmem : forall i k, In i issues -> owner_key i = Ok k ->
            exists items, mapping_get groups k = Some items /\ In i items /\
                          items = filter (belongs k) issues).
  { intros i k Hin Hk. pose proof (Hb k) as Hbk. simpl in Hbk.
    assert (Hi : In i (filter (belongs k) issues)).
    { apply filter_In. split; auto. unfold belongs. rewrite Hk.
      apply owner_eqb_refl. eapply Hh; eassumption. }
    unfold bucket in Hbk. destruct (mapping_get groups k) as [items|].
    - exists items. subst items. auto.
    - rewrite <- Hbk in Hi. contradiction. }
  destruct (Hmem _ _ Hin1 Hk1) as (items1 & Hg1 & Hi1 & E1).
  destruct (Hmem _ _ Hin2 Hk2) as (items2 & Hg2 & Hi2 & E2).
  exists items1, items2. repeat split; auto.
  - rewrite E2. intros H. apply filter_In in H. destruct H as [_ H].
    unfold belongs in H. rewrite Hk1 in H. unfold owner_eqb in H. simpl in H.
    rewrite Hne in H.
    destruct (py_eqb account_id account_id); discriminate.
  - rewrite E1. intros H. apply filter_In in H. destruct H as [_ H].
    unfold belongs in H. rewrite Hk2 in H. unfold owner_eqb in H. simpl in H.
    rewrite (py_eqb_sym name2), Hne in H.
    destruct (py_eqb account_id account_id); discriminate.
Qed.

(** ** The Bounded Sampler *)

Lemma randbelow_lt (n : nat) (g : rng) : 0 < n -> fst (randbelow n g) < n.
Proof.
  intros Hn. destruct g as [|d g']; simpl.
  - exact Hn.
  - apply Nat.mod_upper_bound. lia.
Qed.

Lemma set_nth_length (j : nat) (x : json) (l : list json) :
  List.length (set_nth j x l) = List.length l.
Proof.
  revert j. induction l as [|h t IH]; intros [|j]; simpl; auto.
Qed.

(** Moving the last element to the front and dropping the last place
    rearranges the list. *)
Lemma rotate_last (t : list json) (h : json) :
  Permutation (firstn (List.length t) (last (h :: t) h :: t)) t.
Proof.
  destruct t as [|a t'] using rev_ind.
  - simpl. constructor.
  - clear IHt'.
    change (last (h :: t' ++ [a]) h) with (last ((h :: t') ++ [a]) h).
    rewrite last_last.
    rewrite length_app. simpl. rewrite Nat.add_1_r. simpl.
    rewrite firstn_app, firstn_all, Nat.sub_diag. simpl.
    rewrite app_nil_r. apply Permutation_cons_append.
Qed.

(** One draw: the element taken and the shortened pool are the pool. *)
Lemma pool_take_perm (pool : list json) :
  forall (j : nat) (x : json),
    nth_error pool j = Some x ->
    Permutation
      (x :: firstn (List.length pool - 1) (set_nth j (last pool x) pool))
      pool.
Proof.
  induction pool as [|h t IH]; intros j x Hj.
  - destruct j; discriminate.
  - destruct j as [|j'].
    + simpl in Hj. inversion Hj; subst.
      cbn [List.length set_nth]. rewrite Nat.sub_succ, Nat.sub_0_r.
      apply perm_skip. apply rotate_last.
    + simpl in Hj.
      assert (Hlast : last (h :: t) x = last t x).
      { destruct t; [destruct j'; discriminate | reflexivity]. }
      rewrite Hlast. cbn [List.length set_nth].
      rewrite Nat.sub_succ, Nat.sub_0_r.
      destruct t as [|a t'] eqn:Et; [destruct j'; discriminate|].
      rewrite <- Et in *. 
      assert (Hlen : List.length t = S (List.length t - 1)).
      { rewrite Et. simpl. lia. }
      rewrite Hlen. cbn [firstn].
      eapply Permutation_trans; [apply perm_swap|].
      apply perm_skip. apply IH. exact Hj.
Qed.

Lemma sample_loop_spec (k : nat) :
  forall (pool : list json) (g : rng),
    k <= List.length pool ->
    exists r rest g',
      sample_loop pool k g = (r, g') /\
      List.length r = k /\
      Permutation (r ++ rest)%list pool.
Proof.
  induction k as [|k' IH]; intros pool g Hk.
  - exists [], pool, g. simpl. auto.
  - cbn [sample_loop].
    pose proof (randbelow_lt (List.length pool) g ltac:(lia)) as Hj.
    destruct (randbelow (List.length pool) g) as [j g1]. simpl in Hj.
    destruct (nth_error pool j) as [x|] eqn:Hx.
    2:{ apply nth_error_None in Hx. lia. }
    set (pool' := firstn (List.length pool - 1)
                    (set_nth j (last pool x) pool)).
    assert (Hlen : k' <= List.length pool').
    { unfold pool'. rewrite length_firstn, set_nth_length. lia. }
    destruct (IH pool' g1 Hlen) as (r & rest & g2 & Hrun & Hr & Hp).
    rewrite Hrun. exists (x :: r), rest, g2. repeat split.
    + simpl. congruence.
    + simpl. eapply Permutation_trans; [apply perm_skip, Hp|].
      apply pool_take_perm. exact Hx.
Qed.

(** Conversely, every arrangement of a part of the pool is what the loop
    returns for some sequence of draws: quantifying over the generator
    covers every outcome of sampling without replacement. *)
Lemma sample_loop_reaches (r : list json) :
  forall pool : list json,
    (exists rest, Permutation (r ++ rest)%list pool) ->
    exists g g', sample_loop pool (List.length r) g = (r, g').
Proof.
  induction r as [|x r IH]; intros pool (rest & Hp).
  - exists [], []. reflexivity.
  - assert (Hin : In x pool).
    { eapply Permutation_in; [exact Hp | left; reflexivity]. }
    destruct (In_nth_error _ _ Hin) as (j & Hj).
    assert (Hlt : j < List.length pool).
    { apply nth_error_Some. rewrite Hj. discriminate. }
    pose proof (pool_take_perm pool j x Hj) as Htake.
    destruct (IH (firstn (List.length pool - 1)
                    (set_nth j (last pool x) pool))) as (g1 & g' & Hrun).
    { exists rest. eapply Permutation_cons_inv.
      eapply Permutation_trans; [exact Hp|].
      apply Permutation_sym. exact Htake. }
    exists (j :: g1), g'. cbn [List.length sample_loop randbelow].
    rewrite Nat.mod_small by exact Hlt. rewrite Hj, Hrun. reflexivity.
Qed.

(** *** The size up to which the pool is used *)

(** For [k > 5] the table size is the least power of four that is not
    below [3k]. *)
Lemma setsize_spec (k : Z) :
  (5 < k)%Z ->
  exists m,
    (0 < m)%Z /\ setsize k = (21 + 4 ^ m)%Z /\
    (3 * k <= 4 ^ m)%Z /\ (4 ^ (m - 1) < 3 * k)%Z.
Proof.
  intros Hk. unfold setsize.
  destruct (Z.ltb_spec 5 k) as [_|]; [|lia].
  set (x := (3 * k)%Z). set (e := Z.log2_up x).
  assert (Hx : (1 < x)%Z) by (unfold x; lia).
  destruct (Z.log2_up_spec x Hx) as [Hlow Hup]. fold e in Hlow, Hup.
  assert (He : (0 < e)%Z) by (apply Z.log2_up_pos; exact Hx).
  exists ((e + 1) / 2)%Z.
  assert (Hm : (e <= 2 * ((e + 1) / 2) <= e + 1)%Z).
  { pose proof (Z.div_mod (e + 1) 2 ltac:(lia)).
    pose proof (Z.mod_pos_bound (e + 1) 2 ltac:(lia)). lia. }
  set (m := ((e + 1) / 2)%Z) in *.
  assert (Hmpos : (0 < m)%Z) by lia.
  assert (H4 : forall n, (0 <= n)%Z -> (4 ^ n = 2 ^ (2 * n))%Z).
  { intros n Hn. rewrite Z.pow_mul_r by lia. reflexivity. }
  split; [exact Hmpos|]. split; [reflexivity|]. split.
  - rewrite H4 by lia.
    apply Z.le_trans with (2 ^ e)%Z; [exact Hup|].
    apply Z.pow_le_mono_r; lia.
  - rewrite H4 by lia.
    apply Z.le_lt_trans with (2 ^ Z.pred e)%Z; [|exact Hlow].
    apply Z.pow_le_mono_r; lia.
Qed.

(** *** Sampling by positions *)

Lemma taken_In (selected : list nat) (j : nat) :
  taken selected j = true <-> In j selected.
Proof.
  unfold taken. rewrite existsb_exists. split.
  - intros (x & Hx & He). apply Nat.eqb_eq in He. subst x. exact Hx.
  - intros H. exists j. split; [exact H | apply Nat.eqb_refl].
Qed.

Lemma taken_false (selected : list nat) (j : nat) :
  taken selected j = false <-> ~ In j selected.
Proof.
  rewrite <- taken_In. destruct (taken selected j); split;
    congruence || (intros H; exfalso; apply H; reflexivity) || auto.
Qed.

(** With fewer positions taken than there are, one is free. *)
Lemma first_free_spec (n : nat) (selected : list nat) :
  List.length selected < n ->
  first_free n selected < n /\ ~ In (first_free n selected) selected.
Proof.
  intros Hlen. unfold first_free.
  destruct (find (fun j => negb (taken selected j)) (seq 0 n)) as [j|] eqn:Hf.
  - apply find_some in Hf as [Hin Hfree]. apply in_seq in Hin.
    split; [lia|]. apply taken_false. apply negb_true_iff. exact Hfree.
  - exfalso.
    assert (Hincl : incl (seq 0 n) selected).
    { intros j Hj. apply taken_In.
      pose proof (find_none _ _ Hf j Hj) as Hn. cbv beta in Hn.
      apply negb_false_iff. exact Hn. }
    pose proof (NoDup_incl_length (seq_NoDup n 0) Hincl) as Hle.
    rewrite length_seq in Hle. lia.
Qed.

Lemma fresh_index_spec (n : nat) (selected : list nat) (g : rng) :
  List.length selected < n ->
  fst (fresh_index n selected g) < n
  /\ ~ In (fst (fresh_index n selected g)) selected.
Proof.
  intros Hlen. induction g as [|d g' IH]; cbn [fresh_index].
  - cbn [fst]. apply first_free_spec. exact Hlen.
  - destruct (taken selected (d mod n)) eqn:Ht; [exact IH|].
    cbn [fst]. split.
    + apply Nat.mod_upper_bound. lia.
    + apply taken_false. exact Ht.
Qed.

(** While the draws are not used up, the position is the first drawn
    one that is free, and the draws before it are spent. *)
Lemma fresh_index_drawn (n : nat) (selected : list nat)
  (spent : list nat) (d : nat) (g : rng) :
  Forall (fun x => In (x mod n) selected) spent ->
  ~ In (d mod n) selected ->
  fresh_index n selected (spent ++ d :: g)%list = (d mod n, g).
Proof.
  intros Hspent Hd. induction Hspent as [|x spent Hx _ IH]; cbn [app fresh_index].
  - apply taken_false in Hd. rewrite Hd. reflexivity.
  - apply taken_In in Hx. rewrite Hx. exact IH.
Qed.

Lemma sample_set_loop_spec (population : list json) (k : nat) :
  forall (selected : list nat) (g : rng),
    k + List.length selected <= List.length population ->
    exists r js g',
      sample_set_loop population k selected g = (r, g') /\
      List.length r = k /\
      NoDup js /\
      Forall (fun j => ~ In j selected) js /\
      Forall2 (fun j x => nth_error population j = Some x) js r.
Proof.
  induction k as [|k' IH]; intros selected g Hk.
  - exists [], [], g. repeat split; constructor.
  - cbn [sample_set_loop]. cbv zeta.
    destruct (fresh_index_spec (List.length population) selected g ltac:(lia))
      as [Hlt Hfree].
    destruct (fresh_index (List.length population) selected g) as [j g1].
    cbn [fst] in Hlt, Hfree.
    destruct (nth_error population j) as [x|] eqn:Hx.
    2:{ apply nth_error_None in Hx. lia. }
    destruct (IH (j :: selected) g1) as (r & js & g2 & Hrun & Hr & Hnd & Hnot & Hall).
    { cbn [List.length]. lia. }
    rewrite Hrun. exists (x :: r), (j :: js), g2. repeat split.
    + cbn [List.length]. congruence.
    + constructor; [|exact Hnd]. intros Hin.
      rewrite Forall_forall in Hnot. apply (Hnot j Hin). left. reflexivity.
    + constructor; [exact Hfree|].
      eapply Forall_impl; [|exact Hnot]. intros i Hi Hin. apply Hi.
      right. exact Hin.
    + constructor; [exact Hx | exact Hall].
Qed.

Lemma map_nth_seq (l : list json) (d : json) :
  map (fun i => nth i l d) (seq 0 (List.length l)) = l.
Proof.
  induction l as [|h t IH]; [reflexivity|].
  cbn [List.length seq map nth]. f_equal.
  rewrite <- seq_shift, map_map. exact IH.
Qed.

(** The elements at distinct positions are a part of the list. *)
Lemma positions_perm (l : list json) (js : list nat) (r : list json) :
  NoDup js ->
  Forall2 (fun j x => nth_error l j = Some x) js r ->
  exists rest, Permutation (r ++ rest)%list l.
Proof.
  intros Hnd Hall.
  set (others := filter (fun i => negb (taken js i)) (seq 0 (List.length l))).
  assert (Hperm : Permutation (js ++ others)%list (seq 0 (List.length l))).
  { apply NoDup_Permutation.
    - apply NoDup_app; [exact Hnd | |].
      + apply NoDup_filter. apply seq_NoDup.
      + intros i Hi Ho. apply filter_In in Ho as [_ Ho].
        apply negb_true_iff, taken_false in Ho. contradiction.
    - apply seq_NoDup.
    - intros i. rewrite in_app_iff. unfold others. rewrite filter_In.
      split.
      + intros [Hi | [Hi _]]; [|exact Hi].
        apply in_seq. split; [lia|]. cbn.
        clear -Hall Hi. induction Hall as [|j x js' r' Hj _ IH];
          [destruct Hi|].
        destruct Hi as [-> | Hi]; [|apply IH; exact Hi].
        apply nth_error_Some. rewrite Hj. discriminate.
      + intros Hi. destruct (taken js i) eqn:Ht.
        * left. apply taken_In. exact Ht.
        * right. split; [exact Hi | reflexivity]. }
  exists (map (fun i => nth i l JNull) others).
  assert (Hr : r = map (fun i => nth i l JNull) js).
  { clear -Hall. induction Hall as [|j x js' r' Hj _ IH]; [reflexivity|].
    cbn [map]. rewrite <- IH. f_equal. symmetry.
    apply nth_error_nth. exact Hj. }
  rewrite Hr, <- map_app.
  eapply Permutation_trans; [apply Permutation_map; exact Hperm|].
  rewrite map_nth_seq. apply Permutation_refl.
Qed.

Lemma random_sample_ok (population : list json) (k : Z) (g : rng) :
  (0 <= k <= Z.of_nat (List.length population))%Z ->
  exists r rest g',
    random_sample population k g = (Ok r, g') /\
    Z.of_nat (List.length r) = k /\
    Permutation (r ++ rest)%list population.
Proof.
  intros Hk. unfold random_sample. cbv zeta.
  destruct (Z.ltb_spec k 0); [lia|].
  destruct (Z.ltb_spec (Z.of_nat (List.length population)) k); [lia|].
  cbn [orb].
  destruct (Z.of_nat (List.length population) <=? setsize k)%Z.
  - destruct (sample_loop_spec (Z.to_nat k) population g ltac:(lia))
      as (r & rest & g' & Hrun & Hr & Hp).
    rewrite Hrun. exists r, rest, g'. repeat split; auto. lia.
  - destruct (sample_set_loop_spec population (Z.to_nat k) [] g)
      as (r & js & g' & Hrun & Hr & Hnd & _ & Hall).
    { cbn [List.length]. lia. }
    destruct (positions_perm population js r Hnd Hall) as (rest & Hp).
    rewrite Hrun. exists r, rest, g'. repeat split; auto. lia.
Qed.

Lemma random_sample_negative (population : list json) (k : Z) (g : rng) :
  (k < 0)%Z -> random_sample population k g = (Raise ValueError, g).
Proof.
  intros Hk. unfold random_sample. cbv zeta.
  destruct (Z.ltb_spec k 0); [reflexivity | lia].
Qed.

(** The empty sample takes no draw. *)
Lemma random_sample_zero (population : list json) (g : rng) :
  random_sample population 0 g = (Ok [], g).
Proof.
  unfold random_sample. cbv zeta.
  destruct (Z.ltb_spec (Z.of_nat (List.length population)) 0); [lia|].
  cbn [Z.ltb Z.compare orb].
  destruct (Z.of_nat (List.length population) <=? setsize 0)%Z; reflexivity.
Qed.

Lemma mapping_set_fresh (m : mapping) (k : owner) (v : list json) :
  Forall (fun e => owner_eqb (fst e) k = false) m ->
  mapping_set m k v = (m ++ [(k, v)])%list.
Proof.
  induction 1 as [|[k' v'] rest Hh Ht IH]; simpl.
  - reflexivity.
  - simpl in Hh. rewrite Hh, IH. reflexivity.
Qed.

(** The loop of the sampler over a mapping with distinct keys, none of
    them yet in the selection: every owner gets its own new item. *)
Lemma pick_loop_spec (k : Z) (items : mapping) :
  (0 <= k)%Z ->
  forall (selection : mapping) (g : rng),
    keys_distinct items ->
    Forall (fun s =>
              Forall (fun e => owner_eqb (fst s) (fst e) = false) items)
           selection ->
    exists chosen g',
      pick_loop items k selection g = (Ok (selection ++ chosen)%list, g') /\
      Forall2 (sampled_from k) items chosen.
Proof.
  intros Hk. induction items as [|[[a n] its] rest IH];
    intros selection g Hd Hfresh.
  - exists [], g. simpl. rewrite app_nil_r. auto.
  - destruct Hd as (Hh & Hf & Hd). cbn [pick_loop].
    destruct (random_sample_ok its
                (Z.min k (Z.of_nat (List.length its))) g ltac:(lia))
      as (c & left & g1 & Hrun & Hc & Hp).
    cbv zeta. rewrite Hrun. cbv beta iota.
    rewrite mapping_set_fresh.
    2:{ eapply Forall_impl; [|exact Hfresh]. intros s Hs.
        inversion Hs; subst. assumption. }
    destruct (IH (selection ++ [((a, n), c)])%list g1 Hd) as
      (chosen & g' & Hrest & Hall).
    { apply Forall_app. split.
      - eapply Forall_impl; [|exact Hfresh]. intros s Hs.
        inversion Hs; subst. assumption.
      - constructor; [exact Hf | constructor]. }
    exists (((a, n), c) :: chosen), g'. split.
    + rewrite <- app_assoc in Hrest. exact Hrest.
    + constructor; auto. unfold sampled_from. simpl.
      split; auto. split; auto. exists left. exact Hp.
Qed.

Lemma Forall2_sampled_keys (k : Z) (groups selection : mapping) :
  Forall2 (sampled_from k) groups selection ->
  map fst selection = map fst groups.
Proof.
  induction 1 as [|g s gs ss (Hk & _) Hrest IH]; simpl; congruence.
Qed.

Lemma pick_random_spec (groups : mapping) (k : Z) (g : rng) :
  keys_distinct groups ->
  (0 <= k)%Z ->
  exists selection g',
    pick_random_per_analyst groups k g = (Ok selection, g') /\
    map fst selection = map fst groups /\
    Forall2 (sampled_from k) groups selection.
Proof.
  intros Hd Hk. unfold pick_random_per_analyst.
  destruct (pick_loop_spec k groups Hk [] g Hd (Forall_nil _))
    as (chosen & g' & Hrun & Hall).
  exists chosen, g'. simpl in Hrun. split; [exact Hrun|].
  split; [|exact Hall]. eapply Forall2_sampled_keys. exact Hall.
Qed.

(** C1.  For a bound [k >= 0] the sampler returns a selection with exactly
    the owners of the group mapping, in the mapping's order, and gives each
    owner [min(k, len(group))] issues that are a part of the owner's
    group. *)
Theorem pick_random_per_analyst_bounded (groups : mapping) (k : Z)
  (g : rng) :
  keys_distinct groups ->
  (0 <= k)%Z ->
  exists selection g',
    pick_random_per_analyst groups k g = (Ok selection, g') /\
    map fst selection = map fst groups /\
    Forall2 (sampled_from k) groups selection.
Proof. apply pick_random_spec. Qed.

Lemma pick_loop_zero_rng (items : mapping) :
  forall (selection : mapping) (g : rng),
    snd (pick_loop items 0 selection g) = g.
Proof.
  induction items as [|[[a n] its] rest IH]; intros selection g.
  - reflexivity.
  - cbn [pick_loop]. cbv zeta.
    replace (Z.min 0 (Z.of_nat (List.length its))) with 0%Z by lia.
    rewrite random_sample_zero. apply IH.
Qed.

Lemma pick_loop_negative (k : Z) (items : mapping) (selection : mapping)
  (g : rng) :
  (k < 0)%Z -> items <> [] ->
  pick_loop items k selection g = (Raise ValueError, g).
Proof.
  intros Hk Hne. destruct items as [|[[a n] its] rest]; [congruence|].
  cbn [pick_loop]. cbv zeta.
  rewrite random_sample_negative by lia. reflexivity.
Qed.

Lemma sampled_from_zero (group sel : owner * list json) :
  sampled_from 0 group sel -> snd sel = [].
Proof.
  intros (_ & Hlen & _). destruct (snd sel); [reflexivity|].
  simpl in Hlen. lia.
Qed.

(** C3, as the code has it.  With the bound [0] the sampler returns, for
    exactly the owners of the mapping, an empty selection each, and draws
    nothing from the random source; the empty mapping gives the empty
    selection under every bound.  A negative bound is handed to
    [random.sample] as it is: with at least one owner in the mapping the
    sampler raises [ValueError]. *)
Theorem pick_random_per_analyst_nonpositive (groups : mapping) (k : Z)
  (g : rng) :
  keys_distinct groups ->
  (k <= 0)%Z ->
  (k = 0%Z \/ groups = [] ->
   exists selection,
     pick_random_per_analyst groups k g = (Ok selection, g) /\
     map fst selection = map fst groups /\
     Forall (fun e => snd e = []) selection) /\
  ((k < 0)%Z -> groups <> [] ->
   pick_random_per_analyst groups k g = (Raise ValueError, g)).
Proof.
  intros Hd Hk. split.
  - intros [Hz|Hempty].
    + subst k.
      destruct (pick_random_spec groups 0 g Hd ltac:(lia))
        as (selection & g' & Hrun & Hkeys & Hall).
      exists selection. split; [|split; [exact Hkeys|]].
      * pose proof (pick_loop_zero_rng groups [] g) as Hg.
        unfold pick_random_per_analyst in Hrun. rewrite Hrun in Hg.
        simpl in Hg. subst g'. exact Hrun.
      * clear Hrun Hkeys Hd. induction Hall as [|x y xs ys Hxy _ IH].
        -- constructor.
        -- constructor; [eapply sampled_from_zero; exact Hxy | exact IH].
    + subst groups. exists []. repeat split. constructor.
  - intros Hneg Hne. apply pick_loop_negative; assumption.
Qed.

Lemma keys_distinct_same_keys (m1 : mapping) :
  forall m2 : mapping,
    map fst m1 = map fst m2 -> keys_distinct m1 -> keys_distinct m2.
Proof.
  induction m1 as [|[k1 v1] r1 IH]; intros [|[k2 v2] r2] Hk Hd;
    simpl in *; try discriminate; auto.
  inversion Hk; subst. destruct Hd as (Hh & Hf & Hd).
  split; [exact Hh|]. split; [|apply IH; assumption].
  apply (Forall_map fst (fun q => owner_eqb k2 q = false)).
  rewrite <- H1.
  apply (Forall_map fst (fun q => owner_eqb k2 q = false)). exact Hf.
Qed.

Lemma Forall2_In_left {A B : Type} (R : A -> B -> Prop) (l1 : list A)
  (l2 : list B) (x : A) :
  Forall2 R l1 l2 -> In x l1 -> exists y, In y l2 /\ R x y.
Proof.
  induction 1 as [|a b l1' l2' Hab _ IH]; simpl; intros Hin.
  - contradiction.
  - destruct Hin as [Hx|Hin].
    + subst. exists b. auto.
    + destruct (IH Hin) as (y & Hy & Hr). exists y. auto.
Qed.

(** C5, as the code has it.  An owner whose group has at most [k] issues
    is selected in full: the selection for that owner holds every issue of
    the group exactly once.  It is a rearrangement of the group, in the
    order in which the random source drew the issues. *)
Theorem pick_random_per_analyst_small_group (groups : mapping) (k : Z)
  (g : rng) (key : owner) (items : list json) :
  keys_distinct groups ->
  (0 <= k)%Z ->
  In (key, items) groups ->
  (Z.of_nat (List.length items) <= k)%Z ->
  exists selection g' chosen,
    pick_random_per_analyst groups k g = (Ok selection, g') /\
    mapping_get selection key = Some chosen /\
    Permutation chosen items.
Proof.
  intros Hd Hk Hin Hsmall.
  destruct (pick_random_spec groups k g Hd Hk)
    as (selection & g' & Hrun & Hkeys & Hall).
  destruct (Forall2_In_left _ _ _ _ Hall Hin)
    as ([key' chosen] & Hsel & Hkey & Hlen & rest & Hp).
  simpl in Hkey, Hlen, Hp. subst key'.
  exists selection, g', chosen. split; [exact Hrun|]. split.
  - apply mapping_get_In; [|exact Hsel].
    eapply keys_distinct_same_keys; [symmetry; exact Hkeys | exact Hd].
  - pose proof (Permutation_length Hp) as Hl. rewrite length_app in Hl.
    assert (Hrest : rest = []).
    { destruct rest; [reflexivity|]. simpl in Hl. lia. }
    subst rest. rewrite app_nil_r in Hp. exact Hp.
Qed.

(** ** The Statistics Collector *)

Lemma count_with_assignee_spec (issues : list json) :
  match count_with_assignee issues with
  | Ok n =>
      n = List.length (filter assigned issues) /\ n <= List.length issues
  | Raise e => Exists (fun i => has_assignee i = Raise e) issues
  end.
Proof.
  induction issues as [|i rest IH]; simpl.
  - auto.
  - unfold assigned at 1.
    destruct (has_assignee i) as [b|e] eqn:Hi; simpl.
    + destruct (count_with_assignee rest) as [n|e]; simpl.
      * destruct IH as [Hn Hle]. destruct b; simpl; split; lia.
      * apply Exists_cons_tl. exact IH.
    + apply Exists_cons_hd. exact Hi.
Qed.

(** C6, as the code has it.  [summarize_assignee_stats] computes the
    number [N] of issues with an assignee and the number [M] of the others,
    [N + M] being the length of the list, prints them on one line and
    returns [None].  It raises, printing nothing, when reading the
    assignee of some issue raises. *)
Theorem summarize_assignee_stats_counts (issues : list json) :
  match summarize_assignee_stats issues with
  | (out, Ok v) =>
      v = JNull /\
      exists N M,
        out = [stats_line N M] /\
        N = List.length (filter assigned issues) /\
        N + M = List.length issues
  | (out, Raise e) =>
      out = [] /\ Exists (fun i => has_assignee i = Raise e) issues
  end.
Proof.
  unfold summarize_assignee_stats.
  pose proof (count_with_assignee_spec issues) as H.
  destruct (count_with_assignee issues) as [n|e].
  - destruct H as [Hn Hle]. split; [reflexivity|].
    exists n, (List.length issues - n). repeat split; auto. lia.
  - split; [reflexivity | exact H].
Qed.

(** ** Text and sequencing *)

Lemma append_nil_r (s : string) : s ++ "" = s.
Proof. induction s as [|c s IH]; simpl; congruence. Qed.

Lemma append_assoc (a b c : string) : (a ++ b) ++ c = a ++ b ++ c.
Proof. induction a as [|x a IH]; simpl; congruence. Qed.

Lemma join_app (l1 l2 : list string) :
  join (l1 ++ l2)%list = join l1 ++ join l2.
Proof.
  induction l1 as [|x l1 IH]; simpl.
  - reflexivity.
  - rewrite IH, append_assoc. reflexivity.
Qed.

Lemma bind_ok {A B : Type} (r : result A) (k : A -> result B) (b : B) :
  bind r k = Ok b <-> exists a, r = Ok a /\ k a = Ok b.
Proof.
  destruct r as [a|e]; simpl; split.
  - intros H. exists a. auto.
  - intros (a' & Ha & Hk). inversion Ha; subst. exact Hk.
  - discriminate.
  - intros (a' & Ha & _). discriminate.
Qed.

Lemma Ok_inj {A : Type} (a b : A) : Ok a = Ok b -> a = b.
Proof. intros H. inversion H. reflexivity. Qed.

Lemma bind_assoc {A B C : Type} (r : result A) (k : A -> result B)
  (h : B -> result C) :
  bind (bind r k) h = bind r (fun a => bind (k a) h).
Proof. destruct r; reflexivity. Qed.

Lemma bind_ext {A B : Type} (r : result A) (k1 k2 : A -> result B) :
  (forall a, k1 a = k2 a) -> bind r k1 = bind r k2.
Proof. intros H. destruct r; simpl; auto. Qed.

Lemma map_result_ok {A B : Type} (f : A -> result B) (l : list A)
  (ys : list B) :
  map_result f l = Ok ys <-> Forall2 (fun x y => f x = Ok y) l ys.
Proof.
  revert ys. induction l as [|x rest IH]; intros ys; simpl; split.
  - intros H. inversion H. constructor.
  - intros H. inversion H. reflexivity.
  - intros H. apply bind_ok in H as (y & Hy & H).
    apply bind_ok in H as (ys' & Hys & H). inversion H; subst.
    constructor; [exact Hy | apply IH; exact Hys].
  - intros H. inversion H as [|? y ? ys' Hy Hrest]; subst.
    rewrite Hy. simpl. apply IH in Hrest. rewrite Hrest. reflexivity.
Qed.

(** ** The HTML renderer, loop by loop *)

Ltac step_result :=
  cbn [bind map_result join fold_right render_issues_html
         render_blocks_html fst snd].

Lemma render_issues_html_acc (base_url : string) (items : list json) :
  forall acc : string,
    render_issues_html base_url items acc =
    (lis <- map_result (render_issue_html base_url) items ;;
     Ok (acc ++ join lis)).
Proof.
  induction items as [|issue rest IH]; intros acc; step_result.
  - rewrite append_nil_r. reflexivity.
  - destruct (render_issue_html base_url issue) as [li|e]; step_result; auto.
    rewrite IH.
    destruct (map_result (render_issue_html base_url) rest) as [lis|e];
      step_result; auto.
    rewrite append_assoc. reflexivity.
Qed.

Lemma render_block_html_acc (base_url : string) (entry : owner * list json)
  (acc : string) :
  render_block_html base_url entry acc =
  (safe_name <- escape_value (py_or (snd (fst entry)) (JStr "(Sin asignar)")) ;;
   lis <- map_result (render_issue_html base_url) (snd entry) ;;
   Ok (acc ++ html_block_open safe_name (List.length (snd entry))
         ++ join lis ++ html_block_close)).
Proof.
  destruct entry as [[a n] items]. unfold render_block_html. step_result.
  apply bind_ext. intros safe_name. rewrite render_issues_html_acc.
  destruct (map_result (render_issue_html base_url) items) as [lis|e];
    step_result; auto.
  rewrite (append_assoc (acc ++ _)), (append_assoc acc). reflexivity.
Qed.

Lemma html_block_eq (base_url : string) (entry : owner * list json) :
  html_block base_url entry =
  (safe_name <- escape_value (py_or (snd (fst entry)) (JStr "(Sin asignar)")) ;;
   lis <- map_result (render_issue_html base_url) (snd entry) ;;
   Ok (html_block_open safe_name (List.length (snd entry))
         ++ join lis ++ html_block_close)).
Proof. unfold html_block. rewrite render_block_html_acc. reflexivity. Qed.

Lemma render_blocks_html_acc (base_url : string) (entries : mapping) :
  forall acc : string,
    render_blocks_html base_url entries acc =
    (blocks <- map_result (html_block base_url) entries ;;
     Ok (acc ++ join blocks)).
Proof.
  induction entries as [|entry rest IH]; intros acc; step_result.
  - rewrite append_nil_r. reflexivity.
  - rewrite html_block_eq, render_block_html_acc.
    destruct (escape_value (py_or (snd (fst entry)) (JStr "(Sin asignar)")))
      as [safe_name|e]; step_result; auto.
    destruct (map_result (render_issue_html base_url) (snd entry))
      as [lis|e]; step_result; auto.
    rewrite IH.
    destruct (map_result (html_block base_url) rest) as [blocks|e];
      step_result; auto.
    rewrite (append_assoc acc). reflexivity.
Qed.

Section Rendering.

Variable str_lower : string -> string.
Variable py_repr : json -> string.

(** The document is the header, the notice, the blocks of the sorted
    entries in their order, and the footer. *)
Lemma build_email_html_eq (base_url : string) (target_date : date)
  (selection : mapping) (total_issues : Z) :
  build_email_html str_lower base_url target_date selection total_issues =
  (entries <- sorted_by_name str_lower selection ;;
   blocks <- map_result (html_block base_url) entries ;;
   Ok (html_header target_date total_issues ++ html_notice selection
         ++ join blocks ++ html_tail)).
Proof.
  unfold build_email_html. cbv zeta. apply bind_ext. intros entries.
  rewrite render_blocks_html_acc.
  destruct (map_result (html_block base_url) entries) as [blocks|e];
    step_result; auto.
  unfold html_header, html_notice.
  destruct selection; cbv beta iota zeta.
  - rewrite (append_assoc (html_head _ _ _ ++ _)),
      (append_assoc (html_head _ _ _)). reflexivity.
  - rewrite (append_assoc (html_head _ _ _)). reflexivity.
Qed.

(** *** [sorted] *)

Lemma decorate_ok (selection : mapping) :
  forall d, decorate str_lower selection = Ok d ->
            map snd d = selection /\ Forall (keyed str_lower) d.
Proof.
  induction selection as [|kv rest IH]; intros d H; simpl in H.
  - inversion H. auto.
  - apply bind_ok in H as (k & Hk & H).
    apply bind_ok in H as (d' & Hd & H). inversion H; subst.
    destruct (IH d' Hd) as [Hm Hf]. split.
    + simpl. congruence.
    + constructor; [|exact Hf]. destruct kv as [[a n] items].
      unfold keyed, name_key in *. simpl in *.
      destruct n; try discriminate.
      inversion Hk. eauto.
Qed.

Lemma decorate_total (selection : mapping) :
  Forall (fun e => exists n, snd (fst e) = JStr n) selection ->
  exists d, decorate str_lower selection = Ok d.
Proof.
  induction 1 as [|kv rest (n & Hn) _ (d & Hd)]; cbn [decorate].
  - eauto.
  - unfold name_key. rewrite Hn, Hd. cbn [bind]. eauto.
Qed.

Lemma decorate_raise (selection : mapping) (e : exn) :
  decorate str_lower selection = Raise e ->
  e = AttributeError /\
  Exists (fun kv => forall n, snd (fst kv) <> JStr n) selection.
Proof.
  induction selection as [|kv rest IH]; cbn [decorate]; intros H.
  - discriminate.
  - destruct (name_key str_lower kv) as [k|e'] eqn:Hk; cbn [bind] in H.
    + destruct (decorate str_lower rest) as [d|e'']; cbn [bind] in H;
        [discriminate|].
      destruct (IH H) as [He Hex]. split; [exact He|].
      apply Exists_cons_tl. exact Hex.
    + unfold name_key in Hk.
      destruct (snd (fst kv)) eqn:Hn; inversion Hk; subst;
        inversion H; subst; (split; [reflexivity|]);
        apply Exists_cons_hd; intros n; rewrite Hn; discriminate.
Qed.

End Rendering.

(** The order of strings. *)

Lemma ltb_leb (a b : string) : String.ltb a b = true -> String.leb a b = true.
Proof.
  unfold String.ltb, String.leb. destruct (String.compare a b); auto.
Qed.

Lemma ltb_false_leb (a b : string) :
  String.ltb b a = false -> String.leb a b = true.
Proof.
  unfold String.ltb, String.leb. rewrite (String.compare_antisym a b).
  destruct (String.compare b a); simpl; auto.
Qed.

Lemma ltb_irrefl (a : string) : String.ltb a a = false.
Proof.
  unfold String.ltb. destruct (String.compare a a) eqn:H; auto.
  pose proof (String.compare_antisym a a) as Ha. rewrite H in Ha.
  discriminate.
Qed.

Lemma leb_trans (a b c : string) :
  String.leb a b = true -> String.leb b c = true -> String.leb a c = true.
Proof.
  unfold String.leb. intros Hab Hbc.
  destruct (String.compare a b) eqn:Eab; try discriminate.
  - apply String.compare_eq_iff in Eab. subst. exact Hbc.
  - destruct (String.compare b c) eqn:Ebc; try discriminate.
    + apply String.compare_eq_iff in Ebc. subst. rewrite Eab. reflexivity.
    + apply OrderedTypeEx.String_as_OT.cmp_lt in Eab, Ebc.
      pose proof (OrderedTypeEx.String_as_OT.lt_trans _ _ _ Eab Ebc) as H.
      apply OrderedTypeEx.String_as_OT.cmp_lt in H.
      unfold OrderedTypeEx.String_as_OT.cmp in H. rewrite H. reflexivity.
Qed.

Section Sorting.

Local Abbreviation item := (string * (owner * list json))%type.

Lemma insert_by_key_perm (x : item) (l : list item) :
  Permutation (insert_by_key x l) (x :: l).
Proof.
  induction l as [|y rest IH]; simpl.
  - apply Permutation_refl.
  - destruct (String.ltb (fst y) (fst x)).
    + eapply Permutation_trans; [apply perm_skip, IH | apply perm_swap].
    + apply Permutation_refl.
Qed.

Lemma sort_by_key_perm (l : list item) : Permutation (sort_by_key l) l.
Proof.
  induction l as [|x rest IH]; simpl.
  - constructor.
  - eapply Permutation_trans; [apply insert_by_key_perm|].
    apply perm_skip. exact IH.
Qed.

Lemma insert_by_key_sorted (x : item) (l : list item) :
  StronglySorted key_le l -> StronglySorted key_le (insert_by_key x l).
Proof.
  induction 1 as [|y rest Hs IH Hy]; simpl.
  - constructor; constructor.
  - destruct (String.ltb (fst y) (fst x)) eqn:Hlt.
    + constructor; [exact IH|].
      eapply Permutation_Forall;
        [apply Permutation_sym, insert_by_key_perm|].
      constructor; [apply ltb_leb; exact Hlt | exact Hy].
    + assert (Hxy : key_le x y) by (apply ltb_false_leb; exact Hlt).
      constructor; [constructor; assumption|].
      constructor; [exact Hxy|].
      eapply Forall_impl; [|exact Hy].
      intros z Hz. unfold key_le in *. eapply leb_trans; eassumption.
Qed.

Lemma sort_by_key_sorted (l : list item) :
  StronglySorted key_le (sort_by_key l).
Proof.
  induction l as [|x rest IH]; simpl.
  - constructor.
  - apply insert_by_key_sorted. exact IH.
Qed.

(** Stability: the items of one key keep their order. *)
Lemma insert_by_key_filter (c : string) (x : item) (l : list item) :
  filter (fun y => String.eqb (fst y) c) (insert_by_key x l) =
  filter (fun y => String.eqb (fst y) c) (x :: l).
Proof.
  induction l as [|y rest IH]; [reflexivity|].
  cbn [insert_by_key].
  destruct (String.ltb (fst y) (fst x)) eqn:Hlt; [|reflexivity].
  cbn [filter] in *. rewrite IH.
  destruct (String.eqb (fst x) c) eqn:Hx; [|reflexivity].
  destruct (String.eqb (fst y) c) eqn:Hy; [|reflexivity].
  apply String.eqb_eq in Hx, Hy. rewrite Hx, Hy, ltb_irrefl in Hlt.
  discriminate.
Qed.

Lemma sort_by_key_filter (c : string) (l : list item) :
  filter (fun y => String.eqb (fst y) c) (sort_by_key l) =
  filter (fun y => String.eqb (fst y) c) l.
Proof.
  induction l as [|x rest IH]; [reflexivity|].
  cbn [sort_by_key]. rewrite insert_by_key_filter.
  cbn [filter]. rewrite IH. reflexivity.
Qed.

(** Items of one and the same key are left as they stand. *)
Lemma sort_by_key_constant (c : string) (l : list item) :
  Forall (fun y => fst y = c) l -> sort_by_key l = l.
Proof.
  induction 1 as [|x rest Hx Hrest IH]; [reflexivity|].
  cbn [sort_by_key]. rewrite IH.
  destruct Hrest as [|y rest' Hy _]; [reflexivity|].
  cbn [insert_by_key]. rewrite Hx, Hy, ltb_irrefl. reflexivity.
Qed.

End Sorting.

Section Order.

Variable str_lower : string -> string.

Lemma keyed_sorted (l : list (string * (owner * list json))) :
  Forall (keyed str_lower) l ->
  StronglySorted key_le l ->
  StronglySorted (name_le str_lower) (map snd l).
Proof.
  intros Hk Hs. induction Hs as [|x rest Hs IH Hx]; simpl.
  - constructor.
  - inversion Hk as [|? ? Hkx Hkrest]; subst.
    constructor; [apply IH; exact Hkrest|].
    apply Forall_map. rewrite Forall_forall in *.
    intros y Hy. destruct Hkx as (n1 & Hn1 & Hf1).
    destruct (Hkrest y Hy) as (n2 & Hn2 & Hf2).
    exists n1, n2. repeat split; auto.
    pose proof (Hx y Hy) as Hle. unfold key_le in Hle.
    rewrite Hf1, Hf2 in Hle. exact Hle.
Qed.

Lemma keyed_has_lower_name (c : string)
  (x : string * (owner * list json)) :
  keyed str_lower x ->
  has_lower_name str_lower c (snd x) = String.eqb (fst x) c.
Proof.
  intros (n & Hn & Hf). unfold has_lower_name. rewrite Hn, Hf. reflexivity.
Qed.

Lemma keyed_filter (c : string) (l : list (string * (owner * list json))) :
  Forall (keyed str_lower) l ->
  filter (has_lower_name str_lower c) (map snd l) =
  map snd (filter (fun y => String.eqb (fst y) c) l).
Proof.
  intros Hk. rewrite filter_map_swap. f_equal.
  apply filter_ext_in. intros x Hx. rewrite Forall_forall in Hk.
  apply keyed_has_lower_name. auto.
Qed.

(** What [sorted] returns: the entries of the selection, in the order of
    their lower-cased display names, those of equal names in the order
    of the selection. *)
Lemma sorted_by_name_spec (selection entries : mapping) :
  sorted_by_name str_lower selection = Ok entries ->
  Permutation entries selection /\
  StronglySorted (name_le str_lower) entries /\
  (forall c, filter (has_lower_name str_lower c) entries
             = filter (has_lower_name str_lower c) selection) /\
  Forall (fun e => exists n, snd (fst e) = JStr n) entries.
Proof.
  unfold sorted_by_name. intros H. apply bind_ok in H as (d & Hd & H).
  inversion H; subst. clear H.
  destruct (decorate_ok str_lower selection d Hd) as [Hm Hk].
  assert (Hks : Forall (keyed str_lower) (sort_by_key d)).
  { eapply Permutation_Forall;
      [apply Permutation_sym, sort_by_key_perm | exact Hk]. }
  split; [|split; [|split]].
  - rewrite <- Hm. apply Permutation_map, sort_by_key_perm.
  - apply keyed_sorted; [exact Hks | apply sort_by_key_sorted].
  - intros c. rewrite <- Hm, !keyed_filter by assumption.
    rewrite sort_by_key_filter. reflexivity.
  - apply Forall_map. eapply Forall_impl; [|exact Hks].
    intros x (n & Hn & _). eauto.
Qed.

Lemma sorted_by_name_total (selection : mapping) :
  Forall (fun e => exists n, snd (fst e) = JStr n) selection ->
  exists entries, sorted_by_name str_lower selection = Ok entries.
Proof.
  intros H. destruct (decorate_total str_lower selection H) as (d & Hd).
  unfold sorted_by_name. rewrite Hd. simpl. eauto.
Qed.

End Order.

(** ** The console summary, loop by loop *)


Section Console.

Variable py_repr : json -> string.




End Console.

(** ** The order of the blocks *)

Lemma py_or_name (n : string) :
  py_or (JStr n) (JStr "(Sin asignar)") = JStr (shown_name n).
Proof.
  unfold py_or, shown_name. simpl. destruct (String.eqb n ""); reflexivity.
Qed.


Section Blocks.

Variable str_lower : string -> string.
Variable py_repr : json -> string.



End Blocks.

(** ** Escaping *)

Lemma replace_char_app (c : ascii) (r a b : string) :
  replace_char c r (a ++ b) = replace_char c r a ++ replace_char c r b.
Proof.
  induction a as [|x a IH]; simpl.
  - reflexivity.
  - destruct (Ascii.eqb x c); rewrite IH.
    + rewrite append_assoc. reflexivity.
    + reflexivity.
Qed.

Lemma escape_app (a b : string) : escape (a ++ b) = escape a ++ escape b.
Proof. unfold escape. rewrite !replace_char_app. reflexivity. Qed.

Lemma escape_one (c : ascii) : escape (String c "") = escape_char c.
Proof.
  unfold escape_char.
  destruct (Ascii.eqb c "&") eqn:E1;
    [apply Ascii.eqb_eq in E1; subst; reflexivity|].
  destruct (Ascii.eqb c "<") eqn:E2;
    [apply Ascii.eqb_eq in E2; subst; reflexivity|].
  destruct (Ascii.eqb c ">") eqn:E3;
    [apply Ascii.eqb_eq in E3; subst; reflexivity|].
  destruct (Ascii.eqb c dquote) eqn:E4;
    [apply Ascii.eqb_eq in E4; subst; reflexivity|].
  destruct (Ascii.eqb c "'") eqn:E5;
    [apply Ascii.eqb_eq in E5; subst; reflexivity|].
  unfold escape. cbn [replace_char]. rewrite E1. cbn [replace_char].
  rewrite E2. cbn [replace_char]. rewrite E3. cbn [replace_char].
  rewrite E4. cbn [replace_char]. rewrite E5. reflexivity.
Qed.

(** [html.escape] replaces character by character. *)
Lemma escape_eq_chars (s : string) : escape s = escape_chars s.
Proof.
  induction s as [|c s IH]; [reflexivity|].
  change (String c s) with (String c "" ++ s).
  rewrite escape_app, escape_one, IH. reflexivity.
Qed.

Lemma markup_chars_app (a b : string) :
  markup_chars (a ++ b) = markup_chars a ++ markup_chars b.
Proof.
  induction a as [|x a IH]; simpl.
  - reflexivity.
  - destruct (is_markup_char x); simpl; rewrite IH; reflexivity.
Qed.

Lemma markup_chars_escape_char (c : ascii) :
  markup_chars (escape_char c) = "".
Proof.
  unfold escape_char.
  destruct (Ascii.eqb c "&") eqn:E1; [reflexivity|].
  destruct (Ascii.eqb c "<") eqn:E2; [reflexivity|].
  destruct (Ascii.eqb c ">") eqn:E3; [reflexivity|].
  destruct (Ascii.eqb c dquote) eqn:E4; [reflexivity|].
  destruct (Ascii.eqb c "'") eqn:E5; [reflexivity|].
  cbn [markup_chars]. unfold is_markup_char. rewrite E2, E3, E4, E5.
  reflexivity.
Qed.

(** An escaped text holds no markup character. *)
Lemma markup_chars_escape (s : string) : markup_chars (escape s) = "".
Proof.
  rewrite escape_eq_chars. induction s as [|c s IH]; [reflexivity|].
  cbn [escape_chars]. rewrite markup_chars_app, markup_chars_escape_char, IH.
  reflexivity.
Qed.

Lemma markup_chars_join (ls : list string) :
  markup_chars (join ls) = join (map markup_chars ls).
Proof.
  induction ls as [|x ls IH]; [reflexivity|].
  cbn [join fold_right map]. rewrite markup_chars_app.
  fold (join ls). fold (join (map markup_chars ls)).
  rewrite IH. reflexivity.
Qed.

Lemma escape_value_as_str (v : json) :
  escape_value v = (s <- as_str v ;; Ok (escape s)).
Proof. destruct v; reflexivity. Qed.

(** A line of the document is read raw and escaped text by text. *)
Lemma render_issue_html_texts (base_url : string) (issue : json) :
  render_issue_html base_url issue =
  (t <- issue_texts issue ;; Ok (escaped_line base_url t)).
Proof.
  unfold render_issue_html, issue_texts.
  destruct (get issue "key" (JStr "(sin clave)")) as [k|e];
    cbn [bind]; [|reflexivity].
  rewrite escape_value_as_str.
  destruct (as_str k) as [key|e]; cbn [bind]; [|reflexivity].
  destruct (get issue "fields" (JObj [])) as [f|e]; cbn [bind]; [|reflexivity].
  cbv zeta.
  destruct (get (py_or f (JObj [])) "summary" (JStr "(sin resumen)"))
    as [s|e]; cbn [bind]; [|reflexivity].
  rewrite escape_value_as_str.
  destruct (as_str s) as [summary|e]; cbn [bind]; [|reflexivity].
  destruct (get (py_or f (JObj [])) "assignee" JNull) as [assignee|e];
    cbn [bind]; [|reflexivity].
  destruct (get (py_or assignee (JObj [])) "displayName" JNull) as [d|e];
    cbn [bind]; [|reflexivity].
  rewrite escape_value_as_str.
  destruct (as_str (py_or d (JStr "(Sin asignar)"))) as [a|e];
    cbn [bind]; reflexivity.
Qed.

Lemma html_block_texts (base_url : string) (e : owner * list json)
  (b n : string) :
  html_block base_url e = Ok b ->
  snd (fst e) = JStr n ->
  escaped_block base_url e b.
Proof.
  intros Hb Hn.
  rewrite html_block_eq, Hn, py_or_name in Hb. cbn [escape_value bind] in Hb.
  apply bind_ok in Hb as (lis & Hlis & Hb). apply Ok_inj in Hb. subst b.
  apply map_result_ok in Hlis.
  assert (Ht : exists texts,
             Forall2 (fun i t => issue_texts i = Ok t) (snd e) texts /\
             lis = map (escaped_line base_url) texts).
  { clear Hn. induction Hlis as [|i li rest ls Hi _ (texts & Hall & ->)].
    - exists []. split; [constructor | reflexivity].
    - rewrite render_issue_html_texts in Hi.
      apply bind_ok in Hi as (t & Ht & Hi). apply Ok_inj in Hi. subst li.
      exists (t :: texts). split; [constructor; assumption | reflexivity]. }
  destruct Ht as (texts & Hall & ->). exists n, texts. auto.
Qed.

Lemma map_result_blank (base_url : string) (items : list json) :
  map_result (render_issue_html base_url) (map (fun _ => JObj []) items)
  = Ok (map (fun _ => escaped_line base_url blank_texts) items).
Proof.
  induction items as [|i rest IH]; [reflexivity|].
  cbn [map map_result]. rewrite IH, render_issue_html_texts. reflexivity.
Qed.

Lemma html_block_blank (base_url : string) (e : owner * list json) :
  html_block base_url (blank_entry e) =
  Ok (html_block_open (escape (shown_name "")) (List.length (snd e))
        ++ join (map (fun _ => escaped_line base_url blank_texts) (snd e))
        ++ html_block_close).
Proof.
  rewrite html_block_eq. unfold blank_entry. cbn [fst snd].
  rewrite py_or_name, map_result_blank, length_map. reflexivity.
Qed.

Lemma markup_chars_block_open (x y : string) (count : nat) :
  markup_chars (html_block_open (escape x) count)
  = markup_chars (html_block_open (escape y) count).
Proof.
  unfold html_block_open.
  rewrite !markup_chars_app, !markup_chars_escape. reflexivity.
Qed.

Lemma markup_chars_escaped_line (base_url : string)
  (t u : string * string * string) :
  markup_chars (escaped_line base_url t)
  = markup_chars (escaped_line base_url u).
Proof.
  destruct t as [[k s] a], u as [[k' s'] a']. unfold escaped_line, html_li.
  rewrite !markup_chars_app, !markup_chars_escape. reflexivity.
Qed.

(** The markup characters of a block do not depend on its texts. *)
Lemma markup_chars_block (base_url : string) (e : owner * list json)
  (b b0 : string) :
  escaped_block base_url e b ->
  html_block base_url (blank_entry e) = Ok b0 ->
  markup_chars b = markup_chars b0.
Proof.
  intros (n & texts & Hn & Hall & ->) Hb0.
  rewrite html_block_blank in Hb0. apply Ok_inj in Hb0. subst b0.
  assert (Hlines :
            map markup_chars (map (escaped_line base_url) texts)
            = map markup_chars
                (map (fun _ => escaped_line base_url blank_texts) (snd e))).
  { induction Hall as [|i t rest ts _ _ IH]; [reflexivity|].
    cbn [map]. rewrite IH.
    rewrite (markup_chars_escaped_line base_url t blank_texts).
    reflexivity. }
  rewrite !markup_chars_app, !markup_chars_join, Hlines.
  rewrite (markup_chars_block_open (shown_name n) (shown_name "")).
  reflexivity.
Qed.

Section Escaping.

Variable str_lower : string -> string.

Lemma decorate_blank (entries : mapping) :
  decorate str_lower (map blank_entry entries)
  = Ok (map (fun e => (str_lower "", blank_entry e)) entries).
Proof.
  induction entries as [|e rest IH]; [reflexivity|].
  cbn [map decorate]. rewrite IH. reflexivity.
Qed.

(** Entries without names are left in their order. *)
Lemma sorted_by_name_blank (entries : mapping) :
  sorted_by_name str_lower (map blank_entry entries)
  = Ok (map blank_entry entries).
Proof.
  unfold sorted_by_name. rewrite decorate_blank. cbn [bind].
  rewrite (sort_by_key_constant (str_lower "")).
  - rewrite map_map. reflexivity.
  - apply Forall_map. apply Forall_forall. reflexivity.
Qed.

Lemma map_result_blank_blocks (base_url : string) (entries : mapping) :
  exists blocks0,
    map_result (html_block base_url) (map blank_entry entries) = Ok blocks0 /\
    Forall2 (fun e b0 => html_block base_url (blank_entry e) = Ok b0)
            entries blocks0.
Proof.
  induction entries as [|e rest (blocks0 & Hrun & Hall)].
  - exists []. split; [reflexivity | constructor].
  - cbn [map map_result]. rewrite Hrun, html_block_blank. cbn [bind].
    eexists. split; [reflexivity|].
    constructor; [apply html_block_blank | exact Hall].
Qed.

(** C8.  In every document the renderer returns, the texts supplied by
    the selection stand in escaped form and nowhere else: each block is
    the heading template around the escaped display name and, per issue,
    the line template around the issue's escaped key, summary and
    assignee name, the templates themselves being written as they are.
    An escaped text is the text with each ampersand, angle bracket and
    quote replaced by its character reference, and holds no markup
    character.  Hence the
    markup characters of the document are those of the document rendered
    for the same entries with all their texts taken away. *)
Theorem build_email_html_escapes (base_url : string) (target_date : date)
  (selection : mapping) (total_issues : Z) (html : string) :
  build_email_html str_lower base_url target_date selection total_issues
    = Ok html ->
  exists entries blocks,
    sorted_by_name str_lower selection = Ok entries /\
    Forall2 (escaped_block base_url) entries blocks /\
    html = html_header target_date total_issues ++ html_notice selection
             ++ join blocks ++ html_tail /\
    (forall v, escape v = escape_chars v /\ markup_chars (escape v) = "") /\
    exists blank,
      build_email_html str_lower base_url target_date
        (map blank_entry entries) total_issues = Ok blank /\
      markup_chars html = markup_chars blank.
Proof.
  intros Hhtml. rewrite build_email_html_eq in Hhtml.
  apply bind_ok in Hhtml as (entries & Hsorted & Hhtml).
  apply bind_ok in Hhtml as (blocks & Hblocks & Hhtml).
  apply Ok_inj in Hhtml. subst html.
  destruct (sorted_by_name_spec str_lower _ _ Hsorted)
    as (Hperm & _ & _ & Hnames).
  apply map_result_ok in Hblocks.
  assert (Hesc : Forall2 (escaped_block base_url) entries blocks).
  { clear Hsorted Hperm.
    induction Hblocks as [|e b es bs Hb _ IH]; constructor.
    - inversion Hnames as [|? ? (n & Hn) _]; subst.
      eapply html_block_texts; eassumption.
    - apply IH. inversion Hnames; assumption. }
  exists entries, blocks. split; [exact Hsorted|]. split; [exact Hesc|].
  split; [reflexivity|]. split.
  { intros v. split; [apply escape_eq_chars | apply markup_chars_escape]. }
  destruct (map_result_blank_blocks base_url entries)
    as (blocks0 & Hrun0 & Hall0).
  eexists. split.
  { rewrite build_email_html_eq, sorted_by_name_blank. cbn [bind].
    rewrite Hrun0. cbn [bind]. reflexivity. }
  rewrite !markup_chars_app, !markup_chars_join.
  assert (Hnotice : html_notice (map blank_entry entries)
                    = html_notice selection).
  { destruct selection as [|s0 srest].
    - apply Permutation_sym, Permutation_nil in Hperm. subst. reflexivity.
    - destruct entries as [|e0 erest]; [|reflexivity].
      apply Permutation_nil in Hperm. discriminate. }
  assert (Hsame : map markup_chars blocks = map markup_chars blocks0).
  { clear Hsorted Hperm Hnames Hblocks Hrun0 Hnotice.
    revert blocks0 Hall0.
    induction Hesc as [|e b es bs Hb _ IH]; intros blocks0 Hall0;
      inversion Hall0 as [|? b0 ? bs0 Hb0 Hrest0]; subst; [reflexivity|].
    cbn [map]. rewrite (IH _ Hrest0).
    rewrite (markup_chars_block base_url e b b0 Hb Hb0). reflexivity. }
  rewrite Hnotice, Hsame. reflexivity.
Qed.

End Escaping.

(** ** Records with missing fields *)

Lemma absent_or_is_str (o : option json) :
  absent_or is_str o = true -> o = None \/ exists s, o = Some (JStr s).
Proof.
  destruct o as [v|]; [|auto]. destruct v; try discriminate. eauto.
Qed.

Lemma tolerated_assignee_inv (a : json) :
  tolerated_assignee a = true ->
  truthy a = false \/
  exists items account_id,
    a = JObj items /\ truthy a = true /\
    lookup items "accountId" = Some account_id /\
    hashable account_id = true /\
    absent_or is_str (lookup items "displayName") = true.
Proof.
  unfold tolerated_assignee. destruct (truthy a) eqn:Ht; [|auto].
  cbn [negb orb]. intros H. right.
  destruct a as [| | | | |items]; try discriminate.
  apply andb_true_iff in H as [Hid Hname].
  destruct (lookup items "accountId") as [account_id|] eqn:Eid;
    [|discriminate].
  exists items, account_id. auto.
Qed.

(** A tolerated issue is an object whose fields, there or not, read as an
    object. *)
Lemma tolerated_view (issue : json) :
  tolerated issue = true ->
  exists items fitems,
    issue = JObj items /\
    issue_fields issue = JObj fitems /\
    absent_or is_str (lookup items "key") = true /\
    absent_or is_str (lookup fitems "summary") = true /\
    absent_or tolerated_assignee (lookup fitems "assignee") = true.
Proof.
  destruct issue as [| | | | |items]; try discriminate.
  cbn [tolerated]. intros H. apply andb_true_iff in H as [Hkey Hfields].
  unfold issue_fields, field.
  destruct (lookup items "fields") as [f|] eqn:Ef.
  - cbn [absent_or] in Hfields.
    destruct f as [| | | | |fitems]; try discriminate.
    cbn [tolerated_fields] in Hfields.
    apply andb_true_iff in Hfields as [Hs Ha].
    exists items, fitems. auto.
  - exists items, []. auto.
Qed.

Lemma get_fields (issue : json) (items : list (string * json)) :
  issue = JObj items ->
  get issue "fields" (JObj []) = Ok (issue_fields issue).
Proof.
  intros ->. unfold get, issue_fields, field.
  destruct (lookup items "fields"); reflexivity.
Qed.

Lemma py_or_obj (fitems : list (string * json)) (k : string) (d : json) :
  get (py_or (JObj fitems) (JObj [])) k d = get (JObj fitems) k d.
Proof. destruct fitems; reflexivity. Qed.

Lemma tolerated_owner_key (issue : json) :
  tolerated issue = true ->
  owner_key issue = Ok (expected_owner issue) /\
  owner_hashable (expected_owner issue) = true /\
  exists n, snd (expected_owner issue) = JStr n.
Proof.
  intros H.
  destruct (tolerated_view issue H)
    as (items & fitems & Hi & Hf & _ & _ & Ha).
  unfold owner_key, expected_owner, issue_assignee.
  rewrite (get_fields issue items Hi), Hf. cbn [bind get field].
  destruct (lookup fitems "assignee") as [a|] eqn:Ea.
  - cbn [absent_or] in Ha. cbn [bind].
    destruct (tolerated_assignee_inv a Ha)
      as [Hfalse | (aitems & id & -> & Htrue & Hid & Hh & Hname)].
    + rewrite Hfalse. cbn. eauto.
    + rewrite Htrue. cbn [negb subscript get field bind fst snd].
      rewrite Hid. cbn [bind].
      destruct (absent_or_is_str _ Hname) as [Hn | (d & Hn)]; rewrite Hn;
        cbn [bind text_or fst snd]; unfold owner_hashable; cbn [fst snd];
        rewrite Hh; cbn; eauto.
  - cbn. eauto.
Qed.

Lemma tolerated_issue_texts (issue : json) :
  tolerated issue = true ->
  issue_texts issue = Ok (expected_texts issue).
Proof.
  intros H.
  destruct (tolerated_view issue H)
    as (items & fitems & Hi & Hf & Hk & Hs & Ha).
  unfold issue_texts, expected_texts, issue_assignee.
  rewrite (get_fields issue items Hi), Hf. subst issue.
  cbn [bind get field]. cbv zeta. rewrite !py_or_obj. cbn [get].
  destruct (absent_or_is_str _ Hk) as [Ek | (k & Ek)]; rewrite Ek;
    cbn [bind as_str text_or];
  (destruct (absent_or_is_str _ Hs) as [Es | (s & Es)]; rewrite Es;
    cbn [bind as_str text_or]);
  (destruct (lookup fitems "assignee") as [a|] eqn:Ea;
   [cbn [absent_or] in Ha; cbn [bind];
    destruct (tolerated_assignee_inv a Ha)
      as [Hfalse | (aitems & id & -> & Htrue & Hid & Hh & Hname)]
   | ]).
  all: try (unfold py_or at 1; rewrite Hfalse; reflexivity).
  all: try reflexivity.
  all: unfold py_or at 1; rewrite Htrue; cbn [get field].
  all: destruct (absent_or_is_str _ Hname) as [Hn | (d & Hn)]; rewrite Hn;
    cbn [bind text_or]; rewrite ?py_or_name; reflexivity.
Qed.

Section Tolerance.

Variable str_lower : string -> string.
Variable py_repr : json -> string.

Lemma short_placeholder : short "(sin resumen)" = "(sin resumen)".
Proof. reflexivity. Qed.

Lemma tolerated_console_line (base_url : string) (issue : json) :
  tolerated issue = true ->
  console_issue_line py_repr base_url issue
  = Ok (console_line base_url (expected_texts issue)).
Proof.
  intros H.
  destruct (tolerated_view issue H)
    as (items & fitems & Hi & Hf & Hk & Hs & Ha).
  unfold console_issue_line, expected_texts, issue_assignee, console_line.
  rewrite (get_fields issue items Hi), Hf. subst issue.
  cbn [bind get field]. cbv zeta. rewrite !py_or_obj. cbn [get].
  destruct (absent_or_is_str _ Hk) as [Ek | (k & Ek)]; rewrite Ek;
    cbn [bind text_or py_str];
  (destruct (absent_or_is_str _ Hs) as [Es | (s & Es)]; rewrite Es;
    cbn [bind text_or short_summary py_str]; rewrite ?short_placeholder);
  (destruct (lookup fitems "assignee") as [a|] eqn:Ea;
   [cbn [absent_or] in Ha; cbn [bind];
    destruct (tolerated_assignee_inv a Ha)
      as [Hfalse | (aitems & id & -> & Htrue & Hid & Hh & Hname)]
   | ]).
  all: try (unfold py_or at 1; rewrite Hfalse; reflexivity).
  all: try reflexivity.
  all: unfold py_or at 1; rewrite Htrue; cbn [get field].
  all: destruct (absent_or_is_str _ Hname) as [Hn | (d & Hn)]; rewrite Hn;
    cbn [bind text_or]; rewrite ?py_or_name; reflexivity.
Qed.

Lemma tolerated_render_issue (base_url : string) (issue : json) :
  tolerated issue = true ->
  render_issue_html base_url issue
  = Ok (escaped_line base_url (expected_texts issue)).
Proof.
  intros H. rewrite render_issue_html_texts, (tolerated_issue_texts _ H).
  reflexivity.
Qed.

Lemma map_result_total {A B : Type} (f : A -> result B) (l : list A) :
  Forall (fun x => exists y, f x = Ok y) l ->
  exists ys, map_result f l = Ok ys.
Proof.
  induction 1 as [|x rest (y & Hy) _ (ys & Hys)]; cbn [map_result].
  - eauto.
  - rewrite Hy, Hys. cbn [bind]. eauto.
Qed.

Lemma html_block_total (base_url : string) (e : owner * list json) :
  renderable e -> exists b, html_block base_url e = Ok b.
Proof.
  intros ((n & Hn) & Hitems). rewrite html_block_eq, Hn, py_or_name.
  cbn [escape_value bind].
  destruct (map_result_total (render_issue_html base_url) (snd e))
    as (lis & Hlis).
  { eapply Forall_impl; [|exact Hitems]. intros i Hi.
    rewrite (tolerated_render_issue _ _ Hi). eauto. }
  rewrite Hlis. cbn [bind]. eauto.
Qed.

Lemma build_email_html_total (base_url : string) (target_date : date)
  (selection : mapping) (total_issues : Z) :
  Forall renderable selection ->
  exists html,
    build_email_html str_lower base_url target_date selection total_issues
    = Ok html.
Proof.
  intros Hsel. rewrite build_email_html_eq.
  destruct (sorted_by_name_total str_lower selection) as (entries & Hsorted).
  { eapply Forall_impl; [|exact Hsel]. intros e [Hn _]. exact Hn. }
  rewrite Hsorted. cbn [bind].
  destruct (sorted_by_name_spec str_lower _ _ Hsorted) as (Hperm & _).
  destruct (map_result_total (html_block base_url) entries)
    as (blocks & Hblocks).
  { eapply Forall_impl; [intros e He; apply html_block_total; exact He|].
    eapply Permutation_Forall; [apply Permutation_sym, Hperm | exact Hsel]. }
  rewrite Hblocks. cbn [bind]. eauto.
Qed.

Lemma console_issues_total (base_url : string) (issues : list json) :
  Forall (fun i => tolerated i = true) issues ->
  exists out, console_issues py_repr base_url issues = (out, Ok tt).
Proof.
  induction 1 as [|i rest Hi _ (out & Hout)]; cbn [console_issues].
  - unfold lift. eauto.
  - rewrite (tolerated_console_line base_url i Hi).
    unfold lift, print. cbn [io_bind]. rewrite Hout. cbn [io_bind]. eauto.
Qed.

Lemma console_blocks_total (base_url : string) (entries : mapping) :
  Forall renderable entries ->
  exists out, console_blocks py_repr base_url entries = (out, Ok tt).
Proof.
  induction 1 as [|[[a n] items] rest [_ Hitems] _ (out & Hout)];
    cbn [console_blocks].
  - unfold lift. eauto.
  - unfold console_block, print. cbn [io_bind].
    destruct (console_issues_total base_url items Hitems) as (o & Ho).
    cbn [snd] in *. rewrite Ho, Hout. cbn [io_bind]. eauto.
Qed.

Lemma print_console_summary_total (base_url : string) (selection : mapping)
  (total_issues : Z) :
  Forall renderable selection ->
  exists out,
    print_console_summary str_lower py_repr base_url selection total_issues
    = (out, Ok tt).
Proof.
  intros Hsel. unfold print_console_summary, print.
  destruct selection as [|s0 srest]; [cbn [io_bind]; eauto|].
  destruct (sorted_by_name_total str_lower (s0 :: srest))
    as (entries & Hsorted).
  { eapply Forall_impl; [|exact Hsel]. intros e [Hn _]. exact Hn. }
  rewrite Hsorted. unfold lift.
  destruct (sorted_by_name_spec str_lower _ _ Hsorted) as (Hperm & _).
  destruct (console_blocks_total base_url entries) as (out & Hout).
  { eapply Permutation_Forall; [apply Permutation_sym, Hperm | exact Hsel]. }
  cbn [io_bind]. rewrite Hout. cbn [io_bind]. eauto.
Qed.

End Tolerance.

Lemma py_eqb_str (n : string) (v : json) :
  py_eqb (JStr n) v = true -> v = JStr n.
Proof.
  destruct v; simpl; try discriminate.
  intros H. apply String.eqb_eq in H. congruence.
Qed.

(** The groups of tolerated issues are entries the renderers take. *)
Lemma group_by_assignee_tolerated (issues : list json) :
  Forall (fun i => tolerated i = true) issues ->
  exists groups,
    group_by_assignee issues = Ok groups /\
    keys_distinct groups /\
    Forall renderable groups.
Proof.
  intros Htol.
  destruct (group_loop_total issues []) as (groups & Hrun).
  { eapply Forall_impl; [|exact Htol]. intros i Hi.
    destruct (tolerated_owner_key i Hi) as (Hk & Hh & _).
    unfold bucket_key. rewrite Hk. cbn [bind]. rewrite Hh. reflexivity. }
  exists groups. split; [exact Hrun|].
  destruct (group_by_assignee_buckets issues groups Hrun)
    as (_ & Hd & Hitems).
  split; [exact Hd|].
  apply Forall_forall. intros [k items] Hin.
  destruct (Hitems k items Hin) as [Hne Heq].
  rewrite Forall_forall in Htol.
  split; cbn [fst snd].
  - destruct items as [|i rest]; [congruence|].
    assert (Hi : In i (filter (belongs k) issues))
      by (rewrite <- Heq; left; reflexivity).
    apply filter_In in Hi as [Hi Hb].
    destruct (tolerated_owner_key i (Htol i Hi)) as (Hk & _ & n & Hn).
    unfold belongs in Hb. rewrite Hk in Hb.
    unfold owner_eqb in Hb. apply andb_true_iff in Hb as [_ Hb].
    rewrite Hn in Hb. exists n. apply py_eqb_str. exact Hb.
  - apply Forall_forall. intros i Hi. rewrite Heq in Hi.
    apply filter_In in Hi as [Hi _]. auto.
Qed.

(** The sampler keeps entries the renderers take. *)
Lemma sampled_renderable (k : Z) (groups selection : mapping) :
  Forall2 (sampled_from k) groups selection ->
  Forall renderable groups ->
  Forall renderable selection.
Proof.
  induction 1 as [|grp sel gs ss (Hkey & _ & rest & Hp) _ IH];
    intros Hg; [constructor|].
  inversion Hg as [|? ? [Hn Hitems] Hgs]; subst.
  constructor; [|apply IH; exact Hgs]. split.
  - rewrite Hkey. exact Hn.
  - apply Forall_forall. intros i Hi. rewrite Forall_forall in Hitems.
    apply Hitems. eapply Permutation_in; [exact Hp|].
    apply in_or_app. left. exact Hi.
Qed.

(** C2, as the code has it.  On a list of tolerated issue records the
    grouper returns, and whenever it returns its buckets partition the
    input: their concatenation is a permutation of the issue list
    (nothing lost, nothing repeated), no issue lies in two buckets, and
    every bucket is the non-empty run of the issues with its key, in the
    order of the input.  On other lists it may raise, with the exception
    of one of the issues, and then there is no bucket at all. *)
Theorem group_by_assignee_partition (issues : list json) :
  (Forall (fun i => tolerated i = true) issues ->
   exists groups, group_by_assignee issues = Ok groups)
  /\ (forall groups,
        group_by_assignee issues = Ok groups ->
        Permutation (List.concat (map snd groups)) issues /\
        keys_distinct groups /\
        (forall k items, In (k, items) groups ->
           items <> [] /\ items = filter (belongs k) issues) /\
        (forall k1 items1 k2 items2 issue,
           In (k1, items1) groups -> In (k2, items2) groups ->
           In issue items1 -> In issue items2 ->
           (k1, items1) = (k2, items2)))
  /\ (forall e,
        group_by_assignee issues = Raise e ->
        Exists (fun i => bucket_key i = Raise e) issues).
Proof.
  split; [|split].
  - intros Htol.
    destruct (group_by_assignee_tolerated issues Htol) as (groups & Hrun & _).
    exists groups. exact Hrun.
  - intros groups Hrun.
    destruct (group_by_assignee_buckets issues groups Hrun)
      as (Hp & Hd & Hitems).
    split; [exact Hp|]. split; [exact Hd|]. split; [exact Hitems|].
    intros k1 items1 k2 items2 issue H1 H2 Hi1 Hi2.
    apply (keys_distinct_entry_eq groups); auto.
    destruct (Hitems _ _ H1) as [_ E1]. destruct (Hitems _ _ H2) as [_ E2].
    rewrite E1 in Hi1. rewrite E2 in Hi2.
    apply filter_In in Hi1. apply filter_In in Hi2.
    eapply belongs_same_key; [apply Hi1 | apply Hi2].
  - intros e Hrun. eapply group_loop_raise. eassumption.
Qed.

Section Pipeline.

Variable str_lower : string -> string.
Variable py_repr : json -> string.

(** C4, as the code has it.  Over issue records any of whose fields is
    missing (the key, the fields object, the summary, the assignee, the
    assignee's display name), with an account id in every assignee
    object, the whole pipeline completes for every bound [k >= 0]: the
    grouper, the sampler and both renderers return.  Every missing field
    shows as its placeholder: the owner key of an issue is the sentinel
    pair or the account id with the display name or its placeholder, and
    the issue's line in the document and on the console is the line of
    its key, summary and display name, or of their placeholders. *)
Theorem tolerated_issues_never_raise (base_url : string)
  (target_date : date) (total_issues k : Z) (g : rng)
  (issues : list json) :
  Forall (fun i => tolerated i = true) issues ->
  (0 <= k)%Z ->
  (forall i, In i issues ->
     owner_key i = Ok (expected_owner i) /\
     render_issue_html base_url i
       = Ok (escaped_line base_url (expected_texts i)) /\
     console_issue_line py_repr base_url i
       = Ok (console_line base_url (expected_texts i))) /\
  exists groups selection g' html out,
    group_by_assignee issues = Ok groups /\
    pick_random_per_analyst groups k g = (Ok selection, g') /\
    build_email_html str_lower base_url target_date selection total_issues
      = Ok html /\
    print_console_summary str_lower py_repr base_url selection total_issues
      = (out, Ok tt).
Proof.
  intros Htol Hk. split.
  - intros i Hi. rewrite Forall_forall in Htol. pose proof (Htol i Hi) as Ht.
    split; [apply tolerated_owner_key; exact Ht|].
    split; [apply tolerated_render_issue; exact Ht|].
    apply tolerated_console_line; exact Ht.
  - destruct (group_by_assignee_tolerated issues Htol)
      as (groups & Hgroups & Hd & Hrend).
    destruct (pick_random_spec groups k g Hd Hk)
      as (selection & g' & Hpick & _ & Hall).
    pose proof (sampled_renderable k groups selection Hall Hrend) as Hsel.
    destruct (build_email_html_total str_lower base_url target_date
                selection total_issues Hsel) as (html & Hhtml).
    destruct (print_console_summary_total str_lower py_repr base_url
                selection total_issues Hsel) as (out & Hout).
    exists groups, selection, g', html, out. auto.
Qed.


End Pipeline.

(** ** The properties at the sample data *)

(** The scenario of three issues, two of Ana and one without owner, under
    the bound 1. *)
Example scenario_statistics :
  summarize_assignee_stats [issue1; issue2; issue3]
  = (["[INFO] Con assignee: 2 | Sin assignee: 1"], Ok JNull).
Proof. reflexivity. Qed.

Example scenario_groups :
  group_by_assignee [issue1; issue2; issue3] = Ok sample_groups.
Proof. reflexivity. Qed.

Example scenario_selection :
  pick_random_per_analyst sample_groups 1 [1]
  = (Ok [(ana_key, [issue2]); (UNASSIGNED, [issue3])], []).
Proof. reflexivity. Qed.

(** The unassigned block comes first: a parenthesis is below the letters. *)
Example scenario_order :
  sorted_by_name ascii_lower sample_groups
  = Ok [(UNASSIGNED, [issue3]); (ana_key, [issue1; issue2])].
Proof. reflexivity. Qed.

(** A summary with markup characters, in its line of the document. *)
Example scenario_escaped_line :
  render_issue_html "https://jira.example" issue1
  = Ok (html_li "https://jira.example/browse/OPS-1" "OPS-1"
          "Reinicio de &lt;router&gt; &amp; switch" "Ana").
Proof. reflexivity. Qed.

Example scenario_console_line :
  console_issue_line no_repr "https://jira.example" issue3
  = Ok ("  - OPS-3 — Sin responsable — Resp.: (Sin asignar) — "
          ++ "https://jira.example/browse/OPS-3").
Proof. reflexivity. Qed.

Ltac keys_distinct_by_computation :=
  simpl; repeat (split || constructor).

(** A group of twenty-two under the bound [2]: the sample is taken by
    positions, and the second draw, the position taken already, is drawn
    again. *)
Example scenario_large_group :
  pick_random_per_analyst large_groups 2 [3; 3; 21]
  = (Ok [(ana_key, [make_issue "B-3" "Incidente" ana;
                    make_issue "B-21" "Incidente" ana]);
         (UNASSIGNED, [issue3])], []).
Proof. reflexivity. Qed.

(** A group of twenty-one and the same draws: the sample is taken from a
    pool, from which the second draw takes what the first moved into the
    hole. *)
Example scenario_pool :
  random_sample (firstn 21 large_group) 2 [3; 3; 21]
  = (Ok [make_issue "B-3" "Incidente" ana; make_issue "B-20" "Incidente" ana],
     [21]).
Proof. reflexivity. Qed.

Lemma pick_random_per_analyst_bounded_witness :
  exists selection g',
    pick_random_per_analyst large_groups 2 [3; 3; 21] = (Ok selection, g') /\
    map fst selection = map fst large_groups /\
    Forall2 (sampled_from 2) large_groups selection.
Proof.
  apply (pick_random_per_analyst_bounded large_groups 2 [3; 3; 21]).
  - keys_distinct_by_computation.
  - lia.
Defined.

Lemma pick_random_per_analyst_nonpositive_witness :
  exists selection,
    pick_random_per_analyst sample_groups 0 [5; 7] = (Ok selection, [5; 7]) /\
    map fst selection = map fst sample_groups /\
    Forall (fun e => snd e = []) selection.
Proof.
  apply (pick_random_per_analyst_nonpositive sample_groups 0 [5; 7]).
  - keys_distinct_by_computation.
  - lia.
  - left. reflexivity.
Defined.

(** The bound [-1] on a mapping with owners: [ValueError]. *)
Lemma pick_random_per_analyst_negative_bound :
  (-1 <= 0)%Z /\
  keys_distinct sample_groups /\
  pick_random_per_analyst sample_groups (-1) [5; 7]
    = (Raise ValueError, [5; 7]).
Proof.
  split; [lia|]. split; [keys_distinct_by_computation | reflexivity].
Qed.

Lemma pick_random_per_analyst_small_group_witness :
  exists selection g' chosen,
    pick_random_per_analyst sample_groups 2 [1] = (Ok selection, g') /\
    mapping_get selection ana_key = Some chosen /\
    Permutation chosen [issue1; issue2].
Proof.
  apply (pick_random_per_analyst_small_group sample_groups 2 [1] ana_key
           [issue1; issue2]).
  - keys_distinct_by_computation.
  - lia.
  - simpl. left. reflexivity.
  - simpl. lia.
Defined.

(** Ana's group of two under the bound [2], the first draw being [1]: the
    selection holds her two issues in the other order. *)
Lemma pick_random_per_analyst_reorders :
  (Z.of_nat (List.length [issue1; issue2]) <= 2)%Z /\
  mapping_get sample_groups ana_key = Some [issue1; issue2] /\
  pick_random_per_analyst sample_groups 2 [1]
    = (Ok [(ana_key, [issue2; issue1]); (UNASSIGNED, [issue3])], []) /\
  [issue2; issue1] <> [issue1; issue2].
Proof.
  split; [simpl; lia|]. split; [reflexivity|]. split; [reflexivity|].
  discriminate.
Qed.

(** The collector prints the counts and returns [None]. *)
Lemma summarize_assignee_stats_returns_none :
  summarize_assignee_stats [issue1; issue2; issue3]
    = (["[INFO] Con assignee: 2 | Sin assignee: 1"], Ok JNull) /\
  JNull <> JObj [("with_owner", JNum 2); ("without_owner", JNum 1)].
Proof.
  split; [reflexivity | discriminate].
Qed.

Lemma group_by_assignee_keys_by_pair_witness :
  exists items1 items2,
    mapping_get
      [((JStr "A1", JStr "Desconocido"), [issue4]); (ana_key, [issue1])]
      (JStr "A1", JStr "Desconocido") = Some items1 /\
    mapping_get
      [((JStr "A1", JStr "Desconocido"), [issue4]); (ana_key, [issue1])]
      (JStr "A1", JStr "Ana") = Some items2 /\
    In issue4 items1 /\ In issue1 items2 /\
    ~ In issue4 items2 /\ ~ In issue1 items1.
Proof.
  apply (group_by_assignee_keys_by_pair [issue4; issue1]
           [((JStr "A1", JStr "Desconocido"), [issue4]); (ana_key, [issue1])]
           issue4 issue1 (JStr "A1") (JStr "Desconocido") (JStr "Ana")).
  - reflexivity.
  - simpl. auto.
  - simpl. auto.
  - reflexivity.
  - reflexivity.
  - reflexivity.
Defined.



Lemma group_by_assignee_partition_witness :
  exists groups,
    group_by_assignee [issue1; issue2; issue3] = Ok groups /\
    Permutation (List.concat (map snd groups)) [issue1; issue2; issue3] /\
    keys_distinct groups /\
    (forall k items, In (k, items) groups ->
       items <> [] /\
       items = filter (belongs k) [issue1; issue2; issue3]).
Proof.
  destruct (group_by_assignee_partition [issue1; issue2; issue3])
    as (Htotal & Hparts & _).
  destruct Htotal as (groups & Hrun); [repeat constructor|].
  exists groups. destruct (Hparts groups Hrun) as (Hp & Hd & Hitems & _).
  auto.
Defined.

(** One record with an assignee that has no account id: the grouper
    raises, and the two records beside it are in no bucket either. *)
Lemma group_by_assignee_no_bucket :
  group_by_assignee [issue1; issue5; issue2] = Raise KeyError.
Proof. reflexivity. Qed.

Lemma build_email_html_escapes_witness :
  exists entries blocks,
    sorted_by_name ascii_lower sample_selection = Ok entries /\
    Forall2 (escaped_block "https://jira.example") entries blocks /\
    sample_html = html_header sample_date 5 ++ html_notice sample_selection
                    ++ join blocks ++ html_tail /\
    (forall v, escape v = escape_chars v /\ markup_chars (escape v) = "") /\
    exists blank,
      build_email_html ascii_lower "https://jira.example" sample_date
        (map blank_entry entries) 5 = Ok blank /\
      markup_chars sample_html = markup_chars blank.
Proof.
  apply (build_email_html_escapes ascii_lower "https://jira.example"
           sample_date sample_selection 5 sample_html).
  vm_compute. reflexivity.
Defined.

(** An assignee object without an account id: the grouper raises. *)
Lemma group_by_assignee_partial_assignee :
  group_by_assignee [issue5] = Raise KeyError.
Proof. reflexivity. Qed.

Lemma tolerated_issues_never_raise_witness :
  exists groups selection g' html out,
    group_by_assignee partial_issues = Ok groups /\
    pick_random_per_analyst groups 1 [3; 1] = (Ok selection, g') /\
    build_email_html ascii_lower "https://jira.example" sample_date
      selection 4 = Ok html /\
    print_console_summary ascii_lower no_repr "https://jira.example"
      selection 4 = (out, Ok tt).
Proof.
  apply (tolerated_issues_never_raise ascii_lower no_repr
           "https://jira.example" sample_date 4 1 [3; 1] partial_issues).
  - repeat constructor.
  - lia.
Defined.

(* ================================================================= *)
(** * Further properties of the pipeline *)

(** ** Statistics and groups *)

Lemma has_assignee_of_owner_key (issue : json) (k : owner) :
  owner_key issue = Ok k ->
  exists b, has_assignee issue = Ok b /\
            (b = false -> k = UNASSIGNED).
Proof.
  unfold owner_key, has_assignee.
  destruct (get issue "fields" (JObj [])) as [fields|e]; cbn [bind];
    [|discriminate].
  destruct (get fields "assignee" JNull) as [assignee|e]; cbn [bind];
    [|discriminate].
  intros H. exists (truthy assignee). split; [reflexivity|].
  intros Hf. rewrite Hf in H. cbn in H. inversion H. reflexivity.
Qed.

(** Under which key an issue is filed, read off the record: under the
    sentinel exactly when it has no assignee or its assignee carries the
    sentinel's pair. *)
Lemma belongs_sentinel (issue : json) :
  is_ok (bucket_key issue) = true ->
  belongs UNASSIGNED issue = unowned issue.
Proof.
  unfold bucket_key, belongs, unowned, assigned, has_assignee,
    sentinel_named, issue_assignee, issue_fields, owner_key, field.
  destruct issue as [| | | | |items]; try discriminate.
  cbn [get bind].
  destruct (lookup items "fields") as [fields|]; cbn [bind].
  - destruct fields as [| | | | |fitems]; try discriminate.
    cbn [get bind].
    destruct (lookup fitems "assignee") as [assignee|]; cbn [bind];
      [|reflexivity].
    destruct (truthy assignee) eqn:Ht; cbn [negb bind orb]; [|reflexivity].
    destruct assignee as [| | | | |aitems]; try discriminate.
    cbn [subscript get].
    destruct (lookup aitems "accountId") as [account_id|]; cbn [bind];
      [|discriminate].
    destruct (lookup aitems "displayName") as [display|]; cbn [bind fst snd].
    + intros _. unfold owner_eqb, UNASSIGNED. cbn [fst snd].
      destruct account_id, display; cbn [py_eqb andb];
        try reflexivity; apply andb_false_r.
    + intros _. unfold owner_eqb, UNASSIGNED. cbn [fst snd].
      destruct account_id; cbn [py_eqb]; try reflexivity.
      apply andb_false_r.
  - cbn [get lookup bind truthy negb orb]. reflexivity.
Qed.

Lemma stats_of_grouped (issues : list json) (groups : mapping) :
  group_by_assignee issues = Ok groups ->
  exists N M,
    summarize_assignee_stats issues = ([stats_line N M], Ok JNull) /\
    N + M = List.length issues /\
    N = List.length (filter assigned issues) /\
    M = List.length (filter (fun i => negb (assigned i)) issues) /\
    bucket groups UNASSIGNED = filter unowned issues.
Proof.
  intros Hrun. unfold group_by_assignee in Hrun.
  destruct (group_loop_inv issues [] groups I (Forall_nil _) Hrun)
    as (_ & _ & Hb & _ & Hok).
  pose proof (count_with_assignee_spec issues) as Hc.
  pose proof (filter_length assigned issues) as Hlen.
  unfold summarize_assignee_stats.
  destruct (count_with_assignee issues) as [n|e].
  - destruct Hc as [Hn Hle].
    exists n, (List.length issues - n). split; [reflexivity|].
    split; [lia|]. split; [exact Hn|]. split; [lia|].
    rewrite (Hb UNASSIGNED). cbn [bucket mapping_get app].
    apply filter_ext_in. intros i Hi. apply belongs_sentinel.
    rewrite Forall_forall in Hok. apply Hok. exact Hi.
  - exfalso. rewrite Forall_forall in Hok.
    apply Exists_exists in Hc as (i & Hin & Hi).
    pose proof (Hok i Hin) as Hk. unfold bucket_key in Hk.
    destruct (owner_key i) as [k|e'] eqn:Hkey; [|discriminate].
    destruct (has_assignee_of_owner_key i k Hkey) as (b & Hb' & _).
    congruence.
Qed.

(** X1.  When the grouper returns for an issue list, the collector
    returns for it too, and the two agree.  The collector prints the
    number of issues with an assignee and the number of those without,
    which add up to the number of issues; the sentinel bucket holds, in
    the order of the list, the issues without assignee and besides them
    exactly the issues whose assignee carries the sentinel's own account
    id and display name. *)
Theorem stats_agree_with_groups (issues : list json) (groups : mapping) :
  group_by_assignee issues = Ok groups ->
  exists N M,
    summarize_assignee_stats issues = ([stats_line N M], Ok JNull) /\
    N + M = List.length issues /\
    N = List.length (filter assigned issues) /\
    M = List.length (filter (fun i => negb (assigned i)) issues) /\
    bucket groups UNASSIGNED = filter unowned issues.
Proof. exact (stats_of_grouped issues groups). Qed.

(** ** The two renderings of an issue *)

Section TwoRenderings.

Variable py_repr : json -> string.

Lemma get_same_object (v : json) (k : string) (d1 d2 x : json) :
  get v k d1 = Ok x ->
  exists y, get v k d2 = Ok y /\
            (x = y \/ (field v k = None /\ x = d1 /\ y = d2)).
Proof.
  destruct v as [| | | | |items]; try discriminate. cbn [get field].
  destruct (lookup items k) as [z|]; intros H; apply Ok_inj in H; subst;
    eexists; (split; [reflexivity | auto]).
Qed.

(** X2.  Whenever the document has a line for an issue, the console summary
    has one too, and it shows the same three texts: the key, the summary
    (cut to its first characters when long) and the assignee's name. *)
Theorem console_follows_document (base_url : string) (issue : json)
  (li : string) :
  render_issue_html base_url issue = Ok li ->
  exists t,
    li = escaped_line base_url t /\
    console_issue_line py_repr base_url issue
    = Ok (console_line base_url t).
Proof.
  rewrite render_issue_html_texts. intros H.
  apply bind_ok in H as ([[key summary] name] & Ht & H).
  apply Ok_inj in H. subst li.
  exists (key, summary, name). split; [reflexivity|].
  unfold issue_texts in Ht. unfold console_issue_line.
  apply bind_ok in Ht as (k & Hk & Ht). rewrite Hk. cbn [bind].
  apply bind_ok in Ht as (key' & Hkey & Ht).
  destruct k; try discriminate Hkey. apply Ok_inj in Hkey. subst key'.
  apply bind_ok in Ht as (f & Hf & Ht). rewrite Hf. cbn [bind].
  cbv zeta in Ht. cbv zeta.
  apply bind_ok in Ht as (sv & Hs & Ht).
  apply bind_ok in Ht as (summary' & Hsum & Ht).
  destruct sv; try discriminate Hsum. apply Ok_inj in Hsum. subst summary'.
  destruct (get_same_object _ _ _ JNull _ Hs) as (y & Hy & Hcase).
  rewrite Hy. cbn [bind].
  apply bind_ok in Ht as (assignee & Ha & Ht). rewrite Ha. cbn [bind].
  apply bind_ok in Ht as (d & Hd & Ht). rewrite Hd. cbn [bind].
  apply bind_ok in Ht as (name' & Hname & Ht).
  destruct (py_or d (JStr "(Sin asignar)")); try discriminate Hname.
  apply Ok_inj in Hname. subst name'.
  apply Ok_inj in Ht. inversion Ht; subst. clear Ht.
  unfold console_line. cbn [py_str].
  destruct Hcase as [<- | (_ & Hdef & ->)].
  - reflexivity.
  - inversion Hdef; subst. reflexivity.
Qed.

End TwoRenderings.

(** ** Long summaries on the console *)

Lemma str_len_app (a b : string) : str_len (a ++ b) = str_len a + str_len b.
Proof.
  induction a as [|c a IH]; [reflexivity|].
  cbn [append str_len]. destruct (is_continuation c); rewrite IH; reflexivity.
Qed.

Lemma str_take_prefix (n : nat) (s : string) : prefix_of (str_take n s) s.
Proof.
  revert n. induction s as [|c s IH]; intros n.
  - exists "". reflexivity.
  - cbn [str_take]. destruct (is_continuation c).
    + destruct (IH n) as (rest & Hr). exists rest. cbn [append]. congruence.
    + destruct n as [|n'].
      * exists (String c s). reflexivity.
      * destruct (IH n') as (rest & Hr). exists rest. cbn [append].
        congruence.
Qed.

Lemma str_len_take (n : nat) (s : string) :
  str_len (str_take n s) = Nat.min n (str_len s).
Proof.
  revert n. induction s as [|c s IH]; intros n.
  - cbn. rewrite Nat.min_0_r. reflexivity.
  - cbn [str_take str_len]. destruct (is_continuation c) eqn:Hc.
    + cbn [str_len]. rewrite Hc. apply IH.
    + destruct n as [|n']; [reflexivity|].
      cbn [str_len]. rewrite Hc, IH. reflexivity.
Qed.

(** X3.  [_short] never yields more than a hundred characters: a text of at
    most a hundred characters is left as it is, and a longer one is cut
    to its first 97 characters followed by three dots, a hundred
    characters in all. *)
Theorem short_bounded (s : string) :
  str_len (short s) <= 100 /\
  (str_len s <= 100 -> short s = s) /\
  (100 < str_len s ->
   short s = str_take 97 s ++ "..." /\
   prefix_of (str_take 97 s) s /\
   str_len (short s) = 100).
Proof.
  unfold short, maxlen. cbn [Nat.sub].
  destruct (Nat.leb_spec (str_len s) 100) as [Hle|Hgt]; cbv beta iota.
  - split; [exact Hle|]. split; [reflexivity | lia].
  - assert (Hlen : str_len (str_take 97 s ++ "...") = 100).
    { rewrite str_len_app, str_len_take. change (str_len "...") with 3.
      lia. }
    split; [lia|]. split; [lia|]. intros _.
    split; [reflexivity|]. split; [apply str_take_prefix | exact Hlen].
Qed.

(** ** The order of the owners and the order of the selection *)

Lemma key_sorted_unique (l1 : list (string * (owner * list json))) :
  forall l2,
    StronglySorted key_le l1 -> StronglySorted key_le l2 ->
    Permutation l1 l2 -> NoDup (map fst l1) -> l1 = l2.
Proof.
  induction l1 as [|x t1 IH]; intros l2 Hs1 Hs2 Hp Hnd.
  - apply Permutation_nil in Hp. congruence.
  - destruct l2 as [|y t2].
    { apply Permutation_sym, Permutation_nil in Hp. discriminate. }
    apply StronglySorted_inv in Hs1 as [Hs1 Hx].
    apply StronglySorted_inv in Hs2 as [Hs2 Hy].
    cbn [map] in Hnd. apply NoDup_cons_iff in Hnd as [Hnot Hnd].
    assert (Hxy : x = y).
    { assert (Hyin : In y (x :: t1)).
      { eapply Permutation_in; [apply Permutation_sym, Hp | left; reflexivity]. }
      destruct Hyin as [Heq|Hyin]; [exact Heq|].
      assert (Hxin : In x (y :: t2)).
      { eapply Permutation_in; [exact Hp | left; reflexivity]. }
      destruct Hxin as [Heq|Hxin]; [congruence|].
      rewrite Forall_forall in Hx, Hy.
      pose proof (String.leb_antisym _ _ (Hx y Hyin) (Hy x Hxin)) as Hk.
      exfalso. apply Hnot. rewrite Hk. apply in_map. exact Hyin. }
    subst y. f_equal. apply IH; auto.
    eapply Permutation_cons_inv. exact Hp.
Qed.

Section OrderOfSelection.

Variable str_lower : string -> string.
Variable py_repr : json -> string.

Lemma decorate_lower_names (selection : mapping) :
  forall ks,
    lower_names str_lower selection = Ok ks <->
    exists d, decorate str_lower selection = Ok d /\ map fst d = ks /\
              map snd d = selection.
Proof.
  unfold lower_names.
  induction selection as [|e rest IH]; intros ks; cbn [map_result decorate].
  - split.
    + intros H. apply Ok_inj in H. subst. exists []. auto.
    + intros (d & Hd & Hk & _). apply Ok_inj in Hd. subst. reflexivity.
  - destruct (name_key str_lower e) as [k|x]; cbn [bind].
    2:{ split; [discriminate | intros (d & Hd & _); discriminate]. }
    split.
    + intros H. apply bind_ok in H as (ks' & Hks & H). apply Ok_inj in H.
      apply IH in Hks as (d & Hd & Hk & Hs). rewrite Hd. cbn [bind].
      exists ((k, e) :: d). subst. cbn [map fst snd]. auto.
    + intros (d & Hd & Hk & Hs).
      apply bind_ok in Hd as (d' & Hd' & Hd). apply Ok_inj in Hd. subst d.
      cbn [map fst snd] in Hk, Hs.
      assert (Hrest : map_result (name_key str_lower) rest
                      = Ok (map fst d')).
      { apply IH. exists d'. split; [exact Hd'|].
        split; [reflexivity | congruence]. }
      rewrite Hrest. cbn [bind]. congruence.
Qed.

Lemma decorate_permutation (sel1 : mapping) :
  forall sel2 d1,
    Permutation sel1 sel2 ->
    decorate str_lower sel1 = Ok d1 ->
    exists d2, decorate str_lower sel2 = Ok d2 /\ Permutation d1 d2.
Proof.
  intros sel2 d1 Hp. revert d1.
  induction Hp as [|e l l' Hp IH|a b l|l l' l'' Hp1 IH1 Hp2 IH2];
    intros d1 Hd; cbn [decorate] in *.
  - exists []. apply Ok_inj in Hd. subst. auto.
  - apply bind_ok in Hd as (k & Hk & Hd).
    apply bind_ok in Hd as (d & Hd' & Hd). apply Ok_inj in Hd. subst d1.
    destruct (IH d Hd') as (d2 & Hd2 & Hperm).
    rewrite Hk, Hd2. cbn [bind]. eexists. split; [reflexivity|].
    apply perm_skip. exact Hperm.
  - apply bind_ok in Hd as (kb & Hkb & Hd).
    apply bind_ok in Hd as (d & Hd' & Hd). apply Ok_inj in Hd. subst d1.
    apply bind_ok in Hd' as (ka & Hka & Hd').
    apply bind_ok in Hd' as (d0 & Hd0 & Hd'). apply Ok_inj in Hd'. subst d.
    rewrite Hka, Hkb, Hd0. cbn [bind]. eexists. split; [reflexivity|].
    apply perm_swap.
  - destruct (IH1 d1 Hd) as (d' & Hd' & Hp').
    destruct (IH2 d' Hd') as (d'' & Hd'' & Hp'').
    exists d''. split; [exact Hd''|]. eapply Permutation_trans; eassumption.
Qed.

(** X4.  When no two owners of a selection have the same lower-cased display
    name, neither report depends on the order in which the owners stand
    in the selection: the same owners in another order give the same
    document and the same console summary. *)
Theorem reports_independent_of_order (base_url : string)
  (target_date : date) (total_issues : Z) (sel1 sel2 : mapping)
  (ks : list string) :
  Permutation sel1 sel2 ->
  lower_names str_lower sel1 = Ok ks ->
  NoDup ks ->
  build_email_html str_lower base_url target_date sel1 total_issues
  = build_email_html str_lower base_url target_date sel2 total_issues /\
  print_console_summary str_lower py_repr base_url sel1 total_issues
  = print_console_summary str_lower py_repr base_url sel2 total_issues.
Proof.
  intros Hp Hks Hnd.
  apply decorate_lower_names in Hks as (d1 & Hd1 & Hk1 & _).
  destruct (decorate_permutation sel1 sel2 d1 Hp Hd1) as (d2 & Hd2 & Hpd).
  assert (Hsorted : sorted_by_name str_lower sel1
                    = sorted_by_name str_lower sel2).
  { unfold sorted_by_name. rewrite Hd1, Hd2. cbn [bind]. do 2 f_equal.
    apply key_sorted_unique.
    - apply sort_by_key_sorted.
    - apply sort_by_key_sorted.
    - eapply Permutation_trans; [apply sort_by_key_perm|].
      eapply Permutation_trans; [exact Hpd|].
      apply Permutation_sym, sort_by_key_perm.
    - eapply Permutation_NoDup;
        [apply Permutation_map, Permutation_sym, sort_by_key_perm|].
      rewrite Hk1. exact Hnd. }
  assert (Hnotice : html_notice sel1 = html_notice sel2).
  { destruct sel1 as [|a r1], sel2 as [|b r2]; try reflexivity.
    - apply Permutation_nil in Hp. discriminate.
    - apply Permutation_sym, Permutation_nil in Hp. discriminate. }
  split.
  - rewrite !build_email_html_eq, Hsorted, Hnotice. reflexivity.
  - unfold print_console_summary.
    destruct sel1 as [|a r1], sel2 as [|b r2].
    + reflexivity.
    + apply Permutation_nil in Hp. discriminate.
    + apply Permutation_sym, Permutation_nil in Hp. discriminate.
    + rewrite Hsorted. reflexivity.
Qed.

End OrderOfSelection.

(** ** The name over a block and the name in its lines *)

Lemma tolerated_issue_assignee (issue a : json) :
  tolerated issue = true ->
  issue_assignee issue = Some a ->
  exists items account_id,
    a = JObj items /\
    lookup items "accountId" = Some account_id /\
    absent_or is_str (lookup items "displayName") = true.
Proof.
  intros Ht Ha.
  destruct (tolerated_view issue Ht) as (items & fitems & _ & Hf & _ & _ & Hasg).
  unfold issue_assignee in Ha. rewrite Hf in Ha. cbn [field] in Ha.
  destruct (lookup fitems "assignee") as [a'|]; [|discriminate].
  destruct (truthy a') eqn:Htrue; [|discriminate].
  inversion Ha; subst a'. cbn [absent_or] in Hasg.
  destruct (tolerated_assignee_inv a Hasg)
    as [Hfalse | (aitems & id & -> & _ & Hid & _ & Hname)]; [congruence|].
  exists aitems, id. auto.
Qed.

(** X5.  In the groups of tolerated issues, the display name over a block is
    the name shown in each line of the block, with one exception: for an
    assignee without a display name the block is headed by [Desconocido]
    and its lines say [(Sin asignar)]. *)
Theorem heading_and_line_names (base_url : string) (issues : list json)
  (groups : mapping) (k : owner) (items : list json) (issue : json) :
  Forall (fun i => tolerated i = true) issues ->
  group_by_assignee issues = Ok groups ->
  In (k, items) groups ->
  In issue items ->
  exists n key summary name,
    snd k = JStr n /\
    render_issue_html base_url issue
    = Ok (escaped_line base_url (key, summary, name)) /\
    match issue_assignee issue with
    | Some a =>
        match field a "displayName" with
        | None => n = "Desconocido" /\ name = "(Sin asignar)"
        | Some _ => shown_name n = name
        end
    | None => shown_name n = name
    end.
Proof.
  intros Htol Hrun Hin Hi.
  destruct (group_by_assignee_buckets issues groups Hrun) as (_ & _ & Hitems).
  destruct (Hitems k items Hin) as [_ Heq]. rewrite Heq in Hi.
  apply filter_In in Hi as [Hi Hb]. rewrite Forall_forall in Htol.
  pose proof (Htol issue Hi) as Ht.
  destruct (tolerated_owner_key issue Ht) as (Hk & _ & n & Hn).
  unfold belongs in Hb. rewrite Hk in Hb. unfold owner_eqb in Hb.
  apply andb_true_iff in Hb as [_ Hb]. rewrite Hn in Hb.
  apply py_eqb_str in Hb.
  destruct (expected_texts issue) as [[key summary] name] eqn:Htexts.
  exists n, key, summary, name. split; [exact Hb|].
  split; [rewrite <- Htexts; apply tolerated_render_issue; exact Ht|].
  unfold expected_owner in Hn. unfold expected_texts in Htexts.
  destruct (issue_assignee issue) as [a|] eqn:Ha.
  - destruct (tolerated_issue_assignee issue a Ht Ha)
      as (aitems & id & -> & Hid & Hname).
    cbn [field snd] in *. inversion Htexts as [[Hkey Hsum Hnm]].
    destruct (absent_or_is_str _ Hname) as [Hd | (d & Hd)]; rewrite Hd in *;
      cbn [text_or] in *; inversion Hn; subst.
    + split; reflexivity.
    + reflexivity.
  - cbn [snd] in Hn. inversion Hn; subst. inversion Htexts. reflexivity.
Qed.

(** ** What the report shows of the input *)

Lemma sampled_sublist (k : Z) (groups selection : mapping) :
  Forall2 (sampled_from k) groups selection ->
  exists rest,
    Permutation (List.concat (map snd selection) ++ rest)%list
                (List.concat (map snd groups)) /\
    (Forall (fun e => (Z.of_nat (List.length (snd e)) <= k)%Z) groups ->
     rest = []).
Proof.
  induction 1 as [|grp sel gs ss (_ & Hlen & r & Hp) _ (rest & Hperm & Hfull)].
  - exists []. split; [constructor | reflexivity].
  - exists (r ++ rest)%list. cbn [map List.concat]. split.
    + rewrite <- app_assoc.
      eapply Permutation_trans;
        [apply Permutation_app_head; rewrite app_assoc;
         apply Permutation_app_tail, Permutation_app_comm|].
      rewrite <- app_assoc, app_assoc.
      apply Permutation_app; assumption.
    + intros Hall. inversion Hall as [|? ? Hsmall Hrest]; subst.
      rewrite (Hfull Hrest), app_nil_r.
      pose proof (Permutation_length Hp) as Hl. rewrite length_app in Hl.
      destruct r; [reflexivity|]. cbn [List.length] in Hl. lia.
Qed.

(** X6.  Every issue of the selection is an issue of the input, filed under
    its own owner, and no issue is selected more often than the input
    holds it: the selected issues and some others are the input,
    rearranged.  With a bound that is at least the number of issues there
    are no others: the report shows every issue of the input. *)
Theorem selection_is_part_of_input (issues : list json)
  (groups selection : mapping) (k : Z) (g g' : rng) :
  group_by_assignee issues = Ok groups ->
  (0 <= k)%Z ->
  pick_random_per_analyst groups k g = (Ok selection, g') ->
  (forall key chosen issue,
     In (key, chosen) selection -> In issue chosen ->
     belongs key issue = true) /\
  exists rest,
    Permutation (List.concat (map snd selection) ++ rest)%list issues /\
    ((Z.of_nat (List.length issues) <= k)%Z -> rest = []).
Proof.
  intros Hrun Hk Hpick.
  destruct (group_by_assignee_buckets issues groups Hrun)
    as (Hperm & Hd & Hitems).
  destruct (pick_random_spec groups k g Hd Hk)
    as (selection' & g'' & Hpick' & _ & Hall).
  rewrite Hpick in Hpick'. inversion Hpick'; subst selection' g''.
  clear Hpick'. split.
  - intros key chosen issue Hin Hi.
    destruct (Forall2_In_left (fun s grp => sampled_from k grp s)
                selection groups (key, chosen)) as ([key' its] & Hg & Hs).
    { clear -Hall. induction Hall; constructor; auto. }
    { exact Hin. }
    destruct Hs as (Hkey & _ & r & Hp). cbn [fst snd] in *. subst key'.
    destruct (Hitems key its Hg) as [_ Heq].
    assert (Hin' : In issue its).
    { eapply Permutation_in; [exact Hp|]. apply in_or_app. left. exact Hi. }
    rewrite Heq in Hin'. apply filter_In in Hin'. apply Hin'.
  - destruct (sampled_sublist k groups selection Hall) as (rest & Hp & Hfull).
    exists rest. split.
    + eapply Permutation_trans; eassumption.
    + intros Hbig. apply Hfull. apply Forall_forall. intros [key its] Hin.
      cbn [snd]. destruct (Hitems key its Hin) as [_ Heq].
      assert (List.length its <= List.length issues).
      { rewrite Heq. apply filter_length_le. }
      lia.
Qed.

(** ** What makes the grouper raise *)

(** The key of an issue once its assignee is read and found true. *)
Lemma assignee_errors (a : json) :
  let r :=
    (k <- (account_id <- subscript a "accountId" ;;
           display <- get a "displayName" (JStr "Desconocido") ;;
           name <- get a "displayName" (JStr "Desconocido") ;;
           Ok (fst (account_id, display), name)) ;;
     if owner_hashable k then Ok k else Raise TypeError) in
  r <> Raise AttributeError /\
  (r = Raise KeyError <->
     is_object a = true /\ field a "accountId" = None) /\
  (r = Raise TypeError <->
     is_object a = false \/
     exists account_id,
       field a "accountId" = Some account_id /\
       (hashable account_id = false \/
        exists d, field a "displayName" = Some d /\ hashable d = false)) /\
  r <> Raise ValueError.
Proof.
  destruct a as [| | | | |items]; cbn zeta;
    try (cbn; repeat split; try discriminate; auto;
         intros [H _]; discriminate).
  cbn [subscript get field is_object bind fst].
  destruct (lookup items "accountId") as [id|] eqn:Eid; cbn [bind].
  2:{ repeat split; try discriminate; auto.
      intros [H|(x & H & _)]; discriminate. }
  destruct (lookup items "displayName") as [d|] eqn:Ed; cbn [bind];
    unfold owner_hashable; cbn [fst snd];
    destruct (hashable id) eqn:Hid; cbn [andb].
  - destruct (hashable d) eqn:Hd.
    + repeat split; try discriminate; try (intros [_ H]; discriminate).
      intros [H|(x & Hx & [H|(y & Hy & H)])]; congruence.
    + repeat split; try discriminate; try (intros [_ H]; discriminate).
      intros _. right. exists id. split; [reflexivity|]. right. eauto.
  - repeat split; try discriminate; try (intros [_ H]; discriminate).
    intros _. right. exists id. auto.
  - cbn [hashable]. repeat split; try discriminate;
      try (intros [_ H]; discriminate).
    intros [H|(x & Hx & [H|(y & Hy & H)])]; congruence.
  - repeat split; try discriminate; try (intros [_ H]; discriminate).
    intros _. right. exists id. auto.
Qed.

(** X7.  Which exception the grouper raises at an issue: [AttributeError]
    when the issue, or the fields value it has, is not an object;
    [KeyError] when its assignee is an object without an account id;
    [TypeError] when its assignee is a true value that is no object, or
    when the account id or the display name is a list or an object;
    never [ValueError]. *)
Theorem grouping_errors (issue : json) :
  (bucket_key issue = Raise AttributeError <->
     is_object issue = false \/
     exists f, field issue "fields" = Some f /\ is_object f = false) /\
  (bucket_key issue = Raise KeyError <->
     exists a, issue_assignee issue = Some a /\ is_object a = true /\
               field a "accountId" = None) /\
  (bucket_key issue = Raise TypeError <->
     exists a, issue_assignee issue = Some a /\
       (is_object a = false \/
        exists account_id,
          field a "accountId" = Some account_id /\
          (hashable account_id = false \/
           exists d, field a "displayName" = Some d /\ hashable d = false))) /\
  bucket_key issue <> Raise ValueError.
Proof.
  assert (Hfields : forall fitems : list (string * json),
    let r := (k <- (assignee <- get (JObj fitems) "assignee" JNull ;;
               if negb (truthy assignee) then
                 let key := UNASSIGNED in
                 let name := JStr "(Sin asignar)" in
                 Ok (fst key, name)
               else
                 account_id <- subscript assignee "accountId" ;;
                 display <- get assignee "displayName" (JStr "Desconocido") ;;
                 let key := (account_id, display) in
                 name <- get assignee "displayName" (JStr "Desconocido") ;;
                 Ok (fst key, name)) ;;
              if owner_hashable k then Ok k else Raise TypeError) in
    let oa := match lookup fitems "assignee" with
              | Some a => if truthy a then Some a else None
              | None => None
              end in
    r <> Raise AttributeError /\
    (r = Raise KeyError <->
     exists a, oa = Some a /\ is_object a = true /\
               field a "accountId" = None) /\
    (r = Raise TypeError <->
     exists a, oa = Some a /\
       (is_object a = false \/
        exists account_id,
          field a "accountId" = Some account_id /\
          (hashable account_id = false \/
           exists d, field a "displayName" = Some d /\ hashable d = false))) /\
    r <> Raise ValueError).
  { intros fitems. cbn zeta. cbn [get bind].
    destruct (lookup fitems "assignee") as [a|] eqn:Ea; cbn [bind].
    - destruct (truthy a) eqn:Ht; cbn [negb].
      + destruct (assignee_errors a) as (H1 & H2 & H3 & H4).
        cbn zeta in H1, H2, H3, H4.
        split; [exact H1|]. split; [|split; [|exact H4]].
        * rewrite H2. split.
          -- intros H. exists a. auto.
          -- intros (a' & Ha' & H). inversion Ha'; subst. exact H.
        * rewrite H3. split.
          -- intros H. exists a. auto.
          -- intros (a' & Ha' & H). inversion Ha'; subst. exact H.
      + cbn. repeat split; try discriminate;
          intros (a' & Ha' & _); discriminate.
    - cbn. repeat split; try discriminate;
        intros (a' & Ha' & _); discriminate. }
  unfold bucket_key, owner_key, issue_assignee, issue_fields.
  destruct issue as [| | | | |items];
    try (cbn; repeat split; try discriminate; auto;
         intros H; exfalso; revert H;
         solve [ intros [H|(f & H1 & H2)]; congruence
               | intros (a & H1 & H2); congruence ]).
  cbn [get field bind is_object].
  destruct (lookup items "fields") as [f|] eqn:Ef; cbn [bind].
  - destruct f as [| | | | |fitems];
      try (cbn; repeat split; try discriminate; eauto;
           intros H; exfalso; revert H;
           solve [ intros (a & H1 & H2); congruence ]).
    destruct (Hfields fitems) as (H1 & H2 & H3 & H4). cbn zeta in *.
    cbn [field]. split; [|split; [exact H2 | split; [exact H3 | exact H4]]].
    split; [intros H; contradiction|].
    intros [H|(f & Hf & H)]; [discriminate|].
    inversion Hf; subst. discriminate.
  - destruct (Hfields []) as (H1 & H2 & H3 & H4). cbn zeta in *.
    cbn [field]. split; [|split; [exact H2 | split; [exact H3 | exact H4]]].
    split; [intros H; contradiction|].
    intros [H|(f & Hf & H)]; discriminate.
Qed.

Lemma group_loop_first_error (issues : list json) :
  forall (g0 : mapping) (e : exn),
    group_loop issues g0 = Raise e <->
    exists good bad rest,
      issues = (good ++ bad :: rest)%list /\
      Forall (fun i => is_ok (bucket_key i) = true) good /\
      bucket_key bad = Raise e.
Proof.
  induction issues as [|i rest IH]; intros g0 e.
  - split; [discriminate|].
    intros (good & bad & r & H & _). destruct good; discriminate.
  - rewrite group_loop_step.
    destruct (bucket_key i) as [k|e'] eqn:Hk.
    + rewrite IH. split.
      * intros (good & bad & r & -> & Hg & Hb).
        exists (i :: good), bad, r. split; [reflexivity|].
        split; [constructor; [rewrite Hk; reflexivity | exact Hg] | exact Hb].
      * intros (good & bad & r & Heq & Hg & Hb).
        destruct good as [|x good]; cbn [app] in Heq; inversion Heq; subst.
        -- congruence.
        -- exists good, bad, r. inversion Hg; subst. auto.
    + split.
      * intros H. inversion H; subst.
        exists [], i, rest. split; [reflexivity|]. split; [constructor|exact Hk].
      * intros (good & bad & r & Heq & Hg & Hb).
        destruct good as [|x good]; cbn [app] in Heq; inversion Heq; subst.
        -- congruence.
        -- inversion Hg as [|? ? Hx _]; subst. rewrite Hk in Hx. discriminate.
Qed.

(** X8.  The grouper gives no partial result: it raises exactly when some
    issue of the list cannot be filed, and then with the exception of the
    first such issue, whatever follows it. *)
Theorem group_by_assignee_first_error (issues : list json) (e : exn) :
  group_by_assignee issues = Raise e <->
  exists good bad rest,
    issues = (good ++ bad :: rest)%list /\
    Forall (fun i => is_ok (bucket_key i) = true) good /\
    bucket_key bad = Raise e.
Proof. apply group_loop_first_error. Qed.

(** ** Splitting and joining *)

Lemma split_on_nonempty (sep : ascii) (s : string) : split_on sep s <> [].
Proof.
  destruct s as [|c rest]; cbn [split_on]; [discriminate|].
  destruct (Ascii.eqb c sep); [discriminate|].
  destruct (split_on sep rest); discriminate.
Qed.

Lemma split_on_no_sep (sep : ascii) (s : string) :
  Forall (fun p => has_char sep p = false) (split_on sep s).
Proof.
  induction s as [|c rest IH]; cbn [split_on].
  - constructor; [reflexivity | constructor].
  - destruct (Ascii.eqb c sep) eqn:Hc.
    + constructor; [reflexivity | exact IH].
    + destruct (split_on sep rest) as [|p ps].
      * constructor; [|constructor]. cbn [has_char]. rewrite Hc. reflexivity.
      * inversion IH; subst. constructor; [|assumption].
        cbn [has_char]. rewrite Hc. assumption.
Qed.

Lemma concat_cons (sep x : string) (ls : list string) :
  ls <> [] ->
  String.concat sep (x :: ls) = x ++ sep ++ String.concat sep ls.
Proof. destruct ls; [congruence | reflexivity]. Qed.

(** Joining the parts with the separator gives the text back. *)
Lemma concat_split_on (sep : ascii) (s : string) :
  String.concat (String sep "") (split_on sep s) = s.
Proof.
  induction s as [|c rest IH]; [reflexivity|].
  cbn [split_on]. pose proof (split_on_nonempty sep rest) as Hne.
  destruct (Ascii.eqb_spec c sep) as [->|Hc].
  - rewrite concat_cons by exact Hne. rewrite IH. reflexivity.
  - destruct (split_on sep rest) as [|p ps]; [congruence|].
    destruct ps as [|q qs].
    + cbn [String.concat] in *. congruence.
    + rewrite concat_cons in * by discriminate. cbn [append] in *.
      congruence.
Qed.

Lemma split_on_app (sep : ascii) (x t : string) :
  has_char sep x = false ->
  split_on sep (x ++ String sep t) = x :: split_on sep t.
Proof.
  induction x as [|c x IH]; cbn [append split_on has_char]; intros H.
  - rewrite Ascii.eqb_refl. reflexivity.
  - apply orb_false_iff in H as [Hc Hx]. rewrite Hc, (IH Hx). reflexivity.
Qed.

Lemma split_on_single (sep : ascii) (x : string) :
  has_char sep x = false -> split_on sep x = [x].
Proof.
  induction x as [|c x IH]; cbn [split_on has_char]; intros H;
    [reflexivity|].
  apply orb_false_iff in H as [Hc Hx]. rewrite Hc, (IH Hx). reflexivity.
Qed.

(** Splitting what was joined gives the parts back, when there is a part
    and no part holds the separator. *)
Lemma split_on_concat (sep : ascii) (ls : list string) :
  ls <> [] ->
  Forall (fun p => has_char sep p = false) ls ->
  split_on sep (String.concat (String sep "") ls) = ls.
Proof.
  intros Hne Hall. induction Hall as [|x rest Hx Hrest IH]; [congruence|].
  destruct rest as [|y rest'].
  - cbn [String.concat]. apply split_on_single. exact Hx.
  - change (String.concat (String sep "") (x :: y :: rest'))
      with (x ++ String sep (String.concat (String sep "") (y :: rest'))).
    rewrite (split_on_app sep x _ Hx), IH; [reflexivity | discriminate].
Qed.

Lemma has_char_app (c : ascii) (a b : string) :
  has_char c (a ++ b) = has_char c a || has_char c b.
Proof.
  induction a as [|x a IH]; cbn [append has_char]; [reflexivity|].
  rewrite IH, orb_assoc. reflexivity.
Qed.

(** ** Trimming *)

Lemma space_len_le (s : string) : space_len s <= String.length s.
Proof.
  destruct s as [|c1 [|c2 [|c3 r]]]; cbn [space_len String.length];
    repeat match goal with |- context [if ?b then _ else _] => destruct b end;
    lia.
Qed.

Lemma drop_length (n : nat) (s : string) :
  String.length (drop n s) = String.length s - n.
Proof.
  revert s. induction n as [|n IH]; intros [|c r]; cbn [drop String.length];
    try lia. apply IH.
Qed.

Lemma drop_app (n : nat) (a b : string) :
  n <= String.length a -> drop n (a ++ b) = drop n a ++ b.
Proof.
  revert a. induction n as [|n IH]; intros a Hn; [reflexivity|].
  destruct a as [|c a]; cbn [String.length] in Hn; [lia|].
  cbn [append drop]. apply IH. lia.
Qed.

Lemma drop_split (n : nat) (s : string) :
  n <= String.length s -> exists w, s = w ++ drop n s /\ String.length w = n.
Proof.
  revert s. induction n as [|n IH]; intros s Hn.
  - exists "". auto.
  - destruct s as [|c r]; cbn [String.length] in Hn; [lia|].
    destruct (IH r ltac:(lia)) as (w & Hw & Hl).
    exists (String c w). cbn [append drop String.length]. split; congruence.
Qed.

(** A whitespace character at the beginning stays one when the text goes
    on. *)
Lemma space_len_app (a b : string) :
  0 < space_len a -> space_len (a ++ b) = space_len a.
Proof.
  destruct a as [|c1 [|c2 [|c3 r]]]; cbn [space_len append]; try lia;
    repeat match goal with |- context [if ?x then _ else _] => destruct x end;
    try lia; destruct b; lia.
Qed.

Lemma lstrip_loop_fuel (f1 : nat) :
  forall f2 s,
    String.length s <= f1 -> String.length s <= f2 ->
    lstrip_loop f1 s = lstrip_loop f2 s.
Proof.
  induction f1 as [|f1 IH]; intros f2 s H1 H2.
  - destruct s; [|cbn [String.length] in H1; lia].
    destruct f2; reflexivity.
  - destruct f2 as [|f2].
    + destruct s; [reflexivity | cbn [String.length] in H2; lia].
    + cbn [lstrip_loop]. destruct (space_len s) as [|n] eqn:Hn; [reflexivity|].
      pose proof (space_len_le s). rewrite Hn in *.
      apply IH; rewrite drop_length; lia.
Qed.

Lemma lstrip_eq (s : string) :
  lstrip s = match space_len s with
             | 0 => s
             | n => lstrip (drop n s)
             end.
Proof.
  unfold lstrip. destruct s as [|c r]; [reflexivity|].
  cbn [String.length lstrip_loop].
  destruct (space_len (String c r)) as [|n] eqn:Hn; [reflexivity|].
  pose proof (space_len_le (String c r)) as Hle. rewrite Hn in Hle.
  cbn [String.length] in Hle.
  apply lstrip_loop_fuel; rewrite drop_length; cbn [String.length]; lia.
Qed.

Lemma lstrip_ind (P : string -> Prop) :
  (forall s, (0 < space_len s -> P (drop (space_len s) s)) -> P s) ->
  forall s, P s.
Proof.
  intros Hstep s.
  remember (String.length s) as n eqn:Hn.
  revert s Hn. induction n as [n IH] using lt_wf_ind. intros s Hn.
  apply Hstep. intros Hpos. eapply IH; [|reflexivity].
  rewrite drop_length. pose proof (space_len_le s). lia.
Qed.

Lemma lstrip_no_space (s : string) : space_len (lstrip s) = 0.
Proof.
  induction s as [s IH] using lstrip_ind. rewrite lstrip_eq.
  destruct (space_len s) as [|n] eqn:Hn; [exact Hn|]. apply IH. lia.
Qed.

Lemma lstrip_fixed (s : string) : space_len s = 0 -> lstrip s = s.
Proof. intros H. rewrite lstrip_eq, H. reflexivity. Qed.

Lemma lstrip_suffix (s : string) : exists w, s = w ++ lstrip s.
Proof.
  induction s as [s IH] using lstrip_ind. rewrite lstrip_eq.
  destruct (space_len s) as [|n] eqn:Hn.
  - exists "". reflexivity.
  - destruct (IH ltac:(lia)) as (w & Hw).
    pose proof (space_len_le s) as Hle. rewrite Hn in Hle.
    destruct (drop_split (S n) s Hle) as (w0 & Hs & _).
    exists (w0 ++ w). rewrite append_assoc, <- Hw. exact Hs.
Qed.

(** Whitespace at the beginning does not count. *)
Lemma lstrip_app_space (a b : string) :
  lstrip a = "" -> lstrip (a ++ b) = lstrip b.
Proof.
  induction a as [a IH] using lstrip_ind. intros Ha.
  rewrite lstrip_eq in Ha.
  destruct (space_len a) as [|n] eqn:Hn.
  - subst a. reflexivity.
  - pose proof (space_len_le a) as Hle. rewrite Hn in Hle.
    rewrite (lstrip_eq (a ++ b)), space_len_app, Hn by lia.
    rewrite drop_app by exact Hle. apply IH; [lia | exact Ha].
Qed.

Lemma rstrip_prefix (s : string) :
  exists w, s = rstrip s ++ w /\ lstrip w = "".
Proof.
  induction s as [|c r (w & Hw & Hsp)].
  - exists "". split; reflexivity.
  - cbn [rstrip]. destruct (String.eqb_spec (lstrip (String c r)) "") as [He|Hne].
    + exists (String c r). split; [reflexivity | exact He].
    + exists w. cbn [append]. split; [congruence | exact Hsp].
Qed.

Lemma rstrip_idempotent (s : string) : rstrip (rstrip s) = rstrip s.
Proof.
  induction s as [|c r IH]; [reflexivity|].
  cbn [rstrip]. destruct (String.eqb_spec (lstrip (String c r)) "") as [He|Hne];
    [reflexivity|].
  cbn [rstrip].
  destruct (String.eqb_spec (lstrip (String c (rstrip r))) "") as [He'|_].
  - exfalso. apply Hne. destruct (rstrip_prefix r) as (w & Hw & Hsp).
    rewrite Hw. change (String c (rstrip r ++ w)) with (String c (rstrip r) ++ w).
    rewrite (lstrip_app_space _ _ He'). exact Hsp.
  - rewrite IH. reflexivity.
Qed.

(** A text that begins with no whitespace keeps doing so when cut
    short. *)
Lemma space_len_prefix (u w : string) :
  space_len (u ++ w) = 0 -> space_len u = 0.
Proof.
  intros H. destruct (space_len u) as [|n] eqn:Hn; [reflexivity|].
  rewrite space_len_app in H by lia. congruence.
Qed.

Lemma strip_idempotent (s : string) : strip (strip s) = strip s.
Proof.
  unfold strip.
  destruct (rstrip_prefix (lstrip s)) as (w & Hw & _).
  assert (Hns : space_len (rstrip (lstrip s)) = 0).
  { apply (space_len_prefix _ w). rewrite <- Hw. apply lstrip_no_space. }
  rewrite (lstrip_fixed _ Hns). apply rstrip_idempotent.
Qed.

(** The trimmed text lies within the text. *)
Lemma strip_within (s : string) : exists a b, s = a ++ strip s ++ b.
Proof.
  unfold strip. destruct (lstrip_suffix s) as (a & Ha).
  destruct (rstrip_prefix (lstrip s)) as (b & Hb & _).
  exists a, b. rewrite <- Hb. exact Ha.
Qed.

Lemma strip_has_char (c : ascii) (s : string) :
  has_char c s = false -> has_char c (strip s) = false.
Proof.
  intros H. destruct (strip_within s) as (a & b & Hs).
  rewrite Hs, !has_char_app in H.
  apply orb_false_iff in H as [_ H]. apply orb_false_iff in H as [H _].
  exact H.
Qed.

(** ** The comprehension of the settings lists *)

(** Every part the comprehension keeps is not empty, has no whitespace
    at either end and no comma. *)
Lemma stripped_parts_trimmed (s : string) :
  Forall trimmed (stripped_parts s).
Proof.
  unfold stripped_parts. apply Forall_map. apply Forall_forall.
  intros p Hp. apply filter_In in Hp as [Hin Hne].
  pose proof (split_on_no_sep "," s) as Hsep. rewrite Forall_forall in Hsep.
  split; [|split].
  - apply negb_true_iff, String.eqb_neq in Hne. exact Hne.
  - apply strip_idempotent.
  - apply strip_has_char. apply Hsep. exact Hin.
Qed.

Lemma stripped_parts_of_trimmed (ps : list string) :
  Forall trimmed ps -> stripped_parts (String.concat "," ps) = ps.
Proof.
  intros Hall. destruct ps as [|p ps']; [reflexivity|].
  unfold stripped_parts. rewrite split_on_concat.
  - induction Hall as [|x rest (Hne & Hs & _) _ IH]; [reflexivity|].
    cbn [filter map]. rewrite Hs.
    apply String.eqb_neq in Hne. rewrite Hne. cbn [negb map].
    rewrite Hs, IH. reflexivity.
  - discriminate.
  - eapply Forall_impl; [|exact Hall]. intros x (_ & _ & H). exact H.
Qed.

(** ** Entries and blanks *)

Lemma space_len_blank_tail (s y : string) :
  s <> EmptyString -> space_len (s ++ String " " y) = space_len s.
Proof.
  intros Hs. destruct s as [|c1 [|c2 [|c3 r]]]; [congruence| | |];
    cbn [append space_len]; try reflexivity.
  - destruct (ascii_space c1); [reflexivity|].
    assert (H2 : two_byte_space c1 " " = false).
    { unfold two_byte_space. cbn. apply andb_false_r. }
    rewrite H2.
    destruct y as [|c3 y'].
    + reflexivity.
    + assert (H3 : three_byte_space c1 " " c3 = false).
      { unfold three_byte_space. cbn. rewrite !andb_false_r. reflexivity. }
      rewrite H3. reflexivity.
  - destruct (ascii_space c1); [reflexivity|].
    destruct (two_byte_space c1 c2); [reflexivity|].
    assert (H3 : three_byte_space c1 c2 " " = false).
    { unfold three_byte_space. cbn. rewrite !andb_false_r. reflexivity. }
    rewrite H3. reflexivity.
Qed.

Lemma lstrip_blanks (n : nat) (x : string) : lstrip (blanks n ++ x) = lstrip x.
Proof.
  induction n as [|n IH]; [reflexivity|].
  cbn [blanks append]. rewrite lstrip_eq. cbn [space_len].
  change (ascii_space " ") with true. cbv iota. cbn [drop]. exact IH.
Qed.

Lemma lstrip_app_blanks (s : string) (m : nat) :
  lstrip s <> EmptyString -> lstrip (s ++ blanks m) = lstrip s ++ blanks m.
Proof.
  destruct m as [|m]; [intros _; cbn [blanks]; rewrite !append_nil_r; reflexivity|].
  induction s as [s IH] using lstrip_ind. intros Hne.
  assert (Hs : s <> EmptyString) by (intros ->; apply Hne; reflexivity).
  rewrite (lstrip_eq (s ++ blanks (S m))). cbn [blanks].
  rewrite space_len_blank_tail by exact Hs.
  rewrite (lstrip_eq s) in Hne |- *.
  destruct (space_len s) as [|n] eqn:Hn; [reflexivity|].
  pose proof (space_len_le s) as Hle. rewrite Hn in Hle.
  rewrite drop_app by exact Hle. apply IH; [lia | exact Hne].
Qed.

Lemma rstrip_blank (s : string) : lstrip s = EmptyString -> rstrip s = EmptyString.
Proof.
  intros H. destruct s as [|c r]; [reflexivity|].
  cbn [rstrip]. rewrite H. reflexivity.
Qed.

Lemma rstrip_app_blanks (x : string) (m : nat) :
  rstrip (x ++ blanks m) = rstrip x.
Proof.
  induction x as [|c r IH].
  - cbn [append rstrip]. apply rstrip_blank.
    rewrite <- (append_nil_r (blanks m)). rewrite lstrip_blanks. reflexivity.
  - cbn [append rstrip].
    change (String c (r ++ blanks m)) with (String c r ++ blanks m) at 1.
    destruct (String.eqb_spec (lstrip (String c r)) EmptyString) as [He|Hne].
    + rewrite (lstrip_app_space _ _ He).
      rewrite <- (append_nil_r (blanks m)), lstrip_blanks. reflexivity.
    + rewrite (lstrip_app_blanks _ m Hne).
      destruct (String.eqb_spec (lstrip (String c r) ++ blanks m) EmptyString)
        as [He|_].
      * destruct (lstrip (String c r)); [congruence | discriminate].
      * rewrite IH. reflexivity.
Qed.

Lemma strip_padded (n m : nat) (p : string) :
  strip (blanks n ++ p ++ blanks m) = strip p.
Proof.
  unfold strip. rewrite lstrip_blanks.
  destruct (String.eqb_spec (lstrip p) EmptyString) as [He|Hne].
  - rewrite (lstrip_app_space _ _ He), He.
    rewrite <- (append_nil_r (blanks m)), lstrip_blanks. reflexivity.
  - rewrite (lstrip_app_blanks _ m Hne). apply rstrip_app_blanks.
Qed.

Lemma stripped_parts_of_entries (entries : list string) :
  Forall (fun e => has_char "," e = false) entries ->
  stripped_parts (String.concat "," entries)
  = filter nonempty (map strip entries).
Proof.
  intros Hall. destruct entries as [|e0 rest]; [reflexivity|].
  unfold stripped_parts. rewrite split_on_concat; [|discriminate | exact Hall].
  generalize (e0 :: rest). clear. intros l.
  induction l as [|x l IH]; [reflexivity|].
  cbn [filter map]. unfold nonempty at 1.
  destruct (negb (strip x =? EmptyString)); cbn [map]; rewrite IH; reflexivity.
Qed.

(** X9.  The query lists the entries of the setting, the texts between
    its commas, in their order, each stripped of the whitespace around it,
    and leaves out those of which nothing remains: no entry is dropped
    for the whitespace around it.  An entry padded with blanks counts as
    its core, and an entry of blanks as empty; what is listed is not
    empty, has no whitespace at either end and no comma. *)
Theorem build_jql_relative_projects (entries : list string) :
  Forall (fun e => has_char "," e = false) entries ->
  let kept := filter nonempty (map strip entries) in
  build_jql_relative (String.concat "," entries)
  = "project in (" ++ String.concat "," kept ++ ") "
      ++ lit "AND status CHANGED TO `Resuelto` DURING (startOfDay(-1), endOfDay(-1))"
  /\ Forall trimmed kept
  /\ (forall n m p, trimmed p -> strip (blanks n ++ p ++ blanks m) = p)
  /\ (forall n, strip (blanks n) = EmptyString).
Proof.
  intros Hall kept.
  pose proof (stripped_parts_of_entries entries Hall) as Hparts.
  fold kept in Hparts. split; [|split; [|split]].
  - unfold build_jql_relative. rewrite Hparts. reflexivity.
  - rewrite <- Hparts. apply stripped_parts_trimmed.
  - intros n m p (_ & Hp & _). rewrite strip_padded. exact Hp.
  - intros n. rewrite <- (append_nil_r (blanks n)).
    change (blanks n ++ EmptyString)
      with (blanks n ++ EmptyString ++ blanks 0).
    rewrite strip_padded. reflexivity.
Qed.

(** ** The run monad *)

Lemma proc_bind_ret {A B : Type} (a : A) (k : A -> proc B) :
  proc_bind (ret a) k = k a.
Proof. unfold proc_bind, ret. destruct (k a) as [tr r]. reflexivity. Qed.

Lemma proc_bind_nil {A B : Type} (a : A) (k : A -> proc B) :
  proc_bind ([], Returns a) k = k a.
Proof. exact (proc_bind_ret a k). Qed.

Lemma proc_bind_emit {B : Type} (e : event) (k : unit -> proc B) :
  proc_bind (emit e) k = (e :: fst (k tt), snd (k tt)).
Proof. unfold proc_bind, emit. destruct (k tt) as [tr r]. reflexivity. Qed.

Lemma proc_bind_split {A B : Type} (m : proc A) (k : A -> proc B) :
  proc_bind m k =
  match snd m with
  | Returns a => ((fst m ++ fst (k a))%list, snd (k a))
  | Exits status => (fst m, Exits status)
  | Fails f => (fst m, Fails f)
  | Unfinished => (fst m, Unfinished)
  end.
Proof.
  destruct m as [tr [a | status | f | ]]; cbn [proc_bind fst snd]; try reflexivity.
  destruct (k a); reflexivity.
Qed.

(** ** Settings *)

Lemma require_spec (env : environ) (var : string) :
  (unset env var = true /\ require env var = missing var)
  \/ (unset env var = false /\ require env var = ret (getenv env var EmptyString)).
Proof.
  unfold unset, require, getenv.
  destruct (env var) as [val | ].
  - destruct (String.eqb val EmptyString); [left | right]; split; reflexivity.
  - left. split; reflexivity.
Qed.

Section Settings.

Variable str_lower : string -> string.
Variable py_int : string -> option Z.

Ltac next_variable env var :=
  let U := fresh "U" in
  let R := fresh "R" in
  destruct (require_spec env var) as [[U R] | [U R]];
  [ rewrite ?U, R | rewrite ?U, R, proc_bind_ret ].

(** X10.  The run of [load_settings] stops at the first of the nine
    names, in the order of the list, that is unset or empty: it prints
    that name alone on the error stream and exits with status 1,
    whatever the other variables hold. *)
Theorem load_settings_first_missing (env : environ) (var : string) :
  find (unset env) required_vars = Some var ->
  load_settings str_lower py_int env =
    ([PrintErr ("[ERROR] Falta variable de entorno: " ++ var)], Exits 1%Z).
Proof.
  unfold required_vars, load_settings. cbn [find].
  next_variable env "JIRA_BASE_URL"; [intros [= <-]; reflexivity|].
  next_variable env "JIRA_EMAIL"; [intros [= <-]; reflexivity|].
  next_variable env "JIRA_API_TOKEN"; [intros [= <-]; reflexivity|].
  next_variable env "JIRA_PROJECT_KEYS"; [intros [= <-]; reflexivity|].
  next_variable env "PER_ANALYST"; [intros [= <-]; reflexivity|].
  next_variable env "RECIPIENT_EMAIL"; [intros [= <-]; reflexivity|].
  next_variable env "SENDER_EMAIL"; [intros [= <-]; reflexivity|].
  next_variable env "SMTP_SERVER"; [intros [= <-]; reflexivity|].
  next_variable env "SMTP_PORT"; [intros [= <-]; reflexivity|].
  discriminate.
Qed.

Lemma require_set (env : environ) (var : string) :
  unset env var = false -> require env var = ret (getenv env var EmptyString).
Proof.
  intros U. destruct (require_spec env var) as [[U' _] | [_ R]]; [congruence | exact R].
Qed.

Lemma load_settings_ends (env : environ) :
  (exists cfg, load_settings str_lower py_int env = ([], Returns cfg))
  \/ (exists line,
        load_settings str_lower py_int env = ([PrintErr line], Exits 1%Z)).
Proof.
  unfold load_settings.
  next_variable env "JIRA_BASE_URL"; [right; eexists; reflexivity|].
  next_variable env "JIRA_EMAIL"; [right; eexists; reflexivity|].
  next_variable env "JIRA_API_TOKEN"; [right; eexists; reflexivity|].
  next_variable env "JIRA_PROJECT_KEYS"; [right; eexists; reflexivity|].
  next_variable env "PER_ANALYST"; [right; eexists; reflexivity|].
  next_variable env "RECIPIENT_EMAIL"; [right; eexists; reflexivity|].
  next_variable env "SENDER_EMAIL"; [right; eexists; reflexivity|].
  next_variable env "SMTP_SERVER"; [right; eexists; reflexivity|].
  next_variable env "SMTP_PORT"; [right; eexists; reflexivity|].
  cbv zeta.
  destruct (py_int (getenv env "PER_ANALYST" EmptyString)) as [per | ];
    [|right; eexists; reflexivity].
  destruct (py_int (getenv env "SMTP_PORT" EmptyString)) as [port | ];
    [|right; eexists; reflexivity].
  left. eexists. reflexivity.
Qed.

Lemma load_settings_dry_run (env : environ) (tr : list event) (cfg : settings) :
  load_settings str_lower py_int env = (tr, Returns cfg) ->
  DRY_RUN cfg
  = String.eqb (str_lower (getenv env "DRY_RUN" "true")) "true".
Proof.
  unfold load_settings.
  next_variable env "JIRA_BASE_URL"; [discriminate|].
  next_variable env "JIRA_EMAIL"; [discriminate|].
  next_variable env "JIRA_API_TOKEN"; [discriminate|].
  next_variable env "JIRA_PROJECT_KEYS"; [discriminate|].
  next_variable env "PER_ANALYST"; [discriminate|].
  next_variable env "RECIPIENT_EMAIL"; [discriminate|].
  next_variable env "SENDER_EMAIL"; [discriminate|].
  next_variable env "SMTP_SERVER"; [discriminate|].
  next_variable env "SMTP_PORT"; [discriminate|].
  cbv zeta.
  destruct (py_int (getenv env "PER_ANALYST" EmptyString)) as [per | ]; [|discriminate].
  destruct (py_int (getenv env "SMTP_PORT" EmptyString)) as [port | ]; [|discriminate].
  unfold ret. intros [= <- <-]. reflexivity.
Qed.

(** X11.  [load_settings] returns exactly when the nine names are set to
    non-empty texts and [int] reads PER_ANALYST and SMTP_PORT; nothing
    is printed then, the seven texts are handed over unchanged (not
    stripped), SMTP_USERNAME falls back on the sender only when it is
    not set at all, SMTP_PASSWORD on the empty text, and DRY_RUN is on
    unless the variable is set to something other than true in any
    letter case.  The sign of the two numbers is not looked at.  Every
    other run prints one line on the error stream and exits with
    status 1. *)
Theorem load_settings_returns (env : environ) :
  (forall tr cfg,
     load_settings str_lower py_int env = (tr, Returns cfg) <->
     tr = [] /\
     Forall (fun var => unset env var = false) required_vars /\
     py_int (getenv env "PER_ANALYST" EmptyString) = Some (PER_ANALYST cfg) /\
     py_int (getenv env "SMTP_PORT" EmptyString) = Some (SMTP_PORT cfg) /\
     JIRA_BASE_URL cfg = getenv env "JIRA_BASE_URL" EmptyString /\
     JIRA_EMAIL cfg = getenv env "JIRA_EMAIL" EmptyString /\
     JIRA_API_TOKEN cfg = getenv env "JIRA_API_TOKEN" EmptyString /\
     JIRA_PROJECT_KEYS cfg = getenv env "JIRA_PROJECT_KEYS" EmptyString /\
     RECIPIENT_EMAIL cfg = getenv env "RECIPIENT_EMAIL" EmptyString /\
     SENDER_EMAIL cfg = getenv env "SENDER_EMAIL" EmptyString /\
     SMTP_SERVER cfg = getenv env "SMTP_SERVER" EmptyString /\
     SMTP_USERNAME cfg = getenv env "SMTP_USERNAME" (SENDER_EMAIL cfg) /\
     SMTP_PASSWORD cfg = getenv env "SMTP_PASSWORD" EmptyString /\
     DRY_RUN cfg = String.eqb (str_lower (getenv env "DRY_RUN" "true")) "true")
  /\ ((exists cfg, load_settings str_lower py_int env = ([], Returns cfg))
      \/ (exists line,
            load_settings str_lower py_int env = ([PrintErr line], Exits 1%Z))).
Proof.
  split.
  - intros tr cfg. split.
    + unfold load_settings, required_vars.
      next_variable env "JIRA_BASE_URL"; [discriminate|].
      next_variable env "JIRA_EMAIL"; [discriminate|].
      next_variable env "JIRA_API_TOKEN"; [discriminate|].
      next_variable env "JIRA_PROJECT_KEYS"; [discriminate|].
      next_variable env "PER_ANALYST"; [discriminate|].
      next_variable env "RECIPIENT_EMAIL"; [discriminate|].
      next_variable env "SENDER_EMAIL"; [discriminate|].
      next_variable env "SMTP_SERVER"; [discriminate|].
      next_variable env "SMTP_PORT"; [discriminate|].
      cbv zeta.
      destruct (py_int (getenv env "PER_ANALYST" EmptyString)) as [per | ]; [|discriminate].
      destruct (py_int (getenv env "SMTP_PORT" EmptyString)) as [port | ]; [|discriminate].
      unfold ret. intros [= <- <-]. cbn.
      repeat (split; [first [reflexivity | assumption | repeat constructor; assumption]|]).
      reflexivity.
    + intros (-> & Hall & Hper & Hport & H1 & H2 & H3 & H4 & H5 & H6 & H7 & H8 & H9 & H10).
      unfold required_vars in Hall.
      repeat match goal with
             | H : Forall _ (_ :: _) |- _ =>
                 let U := fresh "U" in
                 apply Forall_cons_iff in H; destruct H as [U H]
             end.
      unfold load_settings.
      rewrite (require_set _ _ U), proc_bind_ret.
      rewrite (require_set _ _ U0), proc_bind_ret.
      rewrite (require_set _ _ U1), proc_bind_ret.
      rewrite (require_set _ _ U2), proc_bind_ret.
      rewrite (require_set _ _ U3), proc_bind_ret.
      rewrite (require_set _ _ U4), proc_bind_ret.
      rewrite (require_set _ _ U5), proc_bind_ret.
      rewrite (require_set _ _ U6), proc_bind_ret.
      rewrite (require_set _ _ U7), proc_bind_ret.
      cbv zeta. rewrite Hper, Hport.
      destruct cfg; cbn in *. subst. reflexivity.
  - exact (load_settings_ends env).
Qed.

End Settings.

(** ** Fetching *)

Lemma fetch_loop_requests (jira : server) (base_url : string)
  (auth : string * string) (jql : string) (fuel : nat) :
  forall i issues,
    let run := fetch_loop fuel jira (rstrip_char "/"%char (strip base_url))
                 auth jql (i * max_results) issues in
    exists n, n <= fuel
      /\ fst run = page_requests base_url auth jql i n
      /\ (0 < fuel -> 0 < n)
      /\ exits (snd run) = false
      /\ (snd run = Unfinished -> n = fuel).
Proof.
  induction fuel as [|fuel IH]; intros i issues run; subst run.
  - exists 0. cbn. repeat split; auto; lia.
  - cbn [fetch_loop]. rewrite proc_bind_emit. cbn [fst snd].
    fold (page_request base_url auth jql i).
    assert (Hone : forall f : failure,
              exists n, n <= S fuel
                /\ Get (page_request base_url auth jql i) :: []
                   = page_requests base_url auth jql i n
                /\ (0 < S fuel -> 0 < n)
                /\ exits (@Fails (list json) f) = false
                /\ (@Fails (list json) f = Unfinished -> n = S fuel)).
    { intros f. exists 1. repeat split; try lia; try reflexivity. discriminate. }
    destruct (jira (page_request base_url auth jql i))
      as [status body [data | ] | ]; cbn [stop fst snd];
      [ | destruct (negb (status =? 200)%Z); apply Hone | apply Hone].
    destruct (negb (status =? 200)%Z); cbn [stop fst snd]; [apply Hone|].
    destruct (get data "issues" (JList [])) as [page | e];
      cbn [of_result proc_bind stop fst snd]; [|apply Hone].
    rewrite proc_bind_ret.
    destruct (extend issues page) as [issues' | e];
      cbn [of_result proc_bind stop fst snd]; [|apply Hone].
    rewrite proc_bind_ret.
    destruct (get data "total" (JNum 0)) as [total | e];
      cbn [of_result proc_bind stop fst snd]; [|apply Hone].
    rewrite proc_bind_ret.
    destruct (reaches (i * max_results + max_results) total) as [enough | e];
      cbn [of_result proc_bind stop fst snd]; [|apply Hone].
    rewrite proc_bind_ret.
    destruct enough.
    + exists 1. cbn [ret fst snd]. repeat split; try lia; try reflexivity.
      discriminate.
    + rewrite <- Nat.mul_succ_l.
      destruct (IH (S i) issues') as (n & Hn & Htr & _ & Hex & Hun).
      exists (S n). repeat split; try lia.
      * rewrite Htr. reflexivity.
      * exact Hex.
      * intros H. rewrite (Hun H). reflexivity.
Qed.

(** X12.  Whatever the tracker answers, [fetch_all_issues] sends only
    search requests, for the same address, query, credentials and
    fields, a hundred results at a time from the offsets 0, 100, 200
    ... without a gap; it sends at least one, never prints and never
    exits, and is unfinished only when every request allowed was
    sent. *)
Theorem fetch_all_issues_requests (fuel : nat) (jira : server)
  (base_url : string) (auth : string * string) (jql : string) :
  let run := fetch_all_issues fuel jira base_url auth jql in
  exists n, n <= fuel
    /\ fst run = page_requests base_url auth jql 0 n
    /\ (0 < fuel -> 0 < n)
    /\ exits (snd run) = false
    /\ (snd run = Unfinished -> n = fuel).
Proof.
  exact (fetch_loop_requests jira base_url auth jql fuel 0 []).
Qed.

Lemma page_count_stop (total : Z) (i : nat) :
  (total <=? Z.of_nat (i * max_results + max_results))%Z = true <->
  page_count total <= S i.
Proof.
  unfold page_count, max_results. rewrite Z.leb_le.
  split; intros H.
  - assert ((total + 99) / 100 <= Z.of_nat (S i))%Z.
    { apply Z.lt_succ_r. apply Z.div_lt_upper_bound; lia. }
    lia.
  - assert ((total + 99) / 100 <= Z.of_nat (S i))%Z by lia.
    pose proof (Z.mul_div_le (total + 99) 100 ltac:(lia)).
    pose proof (Z.mod_pos_bound (total + 99) 100 ltac:(lia)).
    pose proof (Z.div_mod (total + 99) 100 ltac:(lia)).
    lia.
Qed.

Lemma fetch_loop_paged (jira : server) (base_url : string)
  (auth : string * string) (jql : string) (page : nat -> list json)
  (total : Z) :
  paged jira base_url auth jql page total ->
  forall m i issues fuel,
    S i + m = page_count total \/ (m = 0 /\ page_count total <= S i) ->
    S m <= fuel ->
    fetch_loop fuel jira (rstrip_char "/"%char (strip base_url)) auth jql
      (i * max_results) issues
    = (page_requests base_url auth jql i (S m),
       Returns (issues ++ List.concat (map page (seq i (S m))))%list).
Proof.
  intros Hpaged. induction m as [|m IH]; intros i issues fuel Hm Hfuel;
    (destruct fuel as [|fuel]; [lia|]);
    cbn [fetch_loop]; rewrite proc_bind_emit;
    fold (page_request base_url auth jql i);
    destruct (Hpaged i) as (body & data & -> & -> & ->);
    cbn [negb Z.eqb Pos.eqb of_result]; rewrite !proc_bind_ret;
    cbn [extend of_result]; rewrite !proc_bind_ret;
    cbn [reaches of_result]; rewrite proc_bind_ret.
  - assert (Hstop : (total <=? Z.of_nat (i * max_results + max_results))%Z = true).
    { apply page_count_stop. lia. }
    rewrite Hstop. cbn [ret fst snd seq map List.concat page_requests].
    rewrite app_nil_r. reflexivity.
  - assert (Hgo : (total <=? Z.of_nat (i * max_results + max_results))%Z = false).
    { destruct (total <=? Z.of_nat (i * max_results + max_results))%Z eqn:E; auto.
      apply page_count_stop in E. lia. }
    rewrite Hgo. rewrite <- Nat.mul_succ_l.
    rewrite (IH (S i) (issues ++ page i)%list fuel) by lia.
    cbn [fst snd]. unfold page_requests.
    cbn [seq map List.concat]. rewrite <- app_assoc. reflexivity.
Qed.

Lemma fetch_all_issues_paged (fuel : nat) (jira : server)
  (base_url : string) (auth : string * string) (jql : string)
  (page : nat -> list json) (total : Z) :
  paged jira base_url auth jql page total ->
  page_count total <= fuel ->
  fetch_all_issues fuel jira base_url auth jql
  = (page_requests base_url auth jql 0 (page_count total),
     Returns (List.concat (map page (seq 0 (page_count total))))).
Proof.
  intros Hpaged Hfuel.
  assert (Hpos : 0 < page_count total) by (unfold page_count; lia).
  destruct (page_count total) as [|m] eqn:E; [lia|].
  unfold fetch_all_issues.
  change 0 with (0 * max_results) at 1.
  rewrite (fetch_loop_paged jira base_url auth jql page total Hpaged m 0 [] fuel);
    [reflexivity | lia | lia].
Qed.

(** X13.  When the tracker answers every page request with status 200,
    a list of issues and the same total, [fetch_all_issues] ends after
    as many requests as the total has hundreds, rounded up (one when
    the total is zero or less, as when the answer has none and zero is
    taken), and returns the pages it was
    given one after the other: it moves on by a hundred whatever the
    number of issues a page holds. *)
Theorem fetch_all_issues_pages (fuel : nat) (jira : server)
  (base_url : string) (auth : string * string) (jql : string)
  (page : nat -> list json) (total : Z) :
  paged jira base_url auth jql page total ->
  page_count total <= fuel ->
  fetch_all_issues fuel jira base_url auth jql
  = (page_requests base_url auth jql 0 (page_count total),
     Returns (List.concat (map page (seq 0 (page_count total))))).
Proof. exact (fetch_all_issues_paged fuel jira base_url auth jql page total). Qed.

(** ** Sending *)

Lemma send_email_session (po : post_office) (cfg : settings)
  (subject html_body : string) :
  let recipients := stripped_parts (RECIPIENT_EMAIL cfg) in
  let msg := mk_message subject (SENDER_EMAIL cfg)
               (String.concat ", " recipients) html_body in
  recipients <> [] ->
  DRY_RUN cfg = false ->
  send_email po cfg subject html_body
  = (map Smtp (attempted (mail po) (smtp_session cfg recipients msg)),
     if forallb (mail po) (smtp_session cfg recipients msg)
     then Returns tt else Fails MailError).
Proof.
  intros recipients msg Hne Hdry.
  unfold send_email. fold recipients. fold msg.
  destruct recipients as [|r rs] eqn:E; [congruence|]. rewrite Hdry.
  unfold smtp_session, smtp.
  destruct (String.eqb (SMTP_PASSWORD cfg) EmptyString);
    cbn [app attempted forallb map];
    repeat match goal with
           | |- context [mail po ?c] =>
               destruct (mail po c);
               cbn [proc_bind emit ret stop app andb map attempted]
           end;
    reflexivity.
Qed.

Lemma send_email_preview (po : post_office) (cfg : settings)
  (subject html_body : string) :
  let fname := "auditoria_preview_" ++ stamp po ++ ".html" in
  stripped_parts (RECIPIENT_EMAIL cfg) <> [] ->
  DRY_RUN cfg = true ->
  send_email po cfg subject html_body
  = (Print (newline ++ "[DRY_RUN] No se envió correo. Contenido MIME (recortado).")
       :: WriteFile fname html_body
       :: (if disk po fname html_body
           then [Print ("[DRY_RUN] Vista previa guardada en: " ++ fname)]
           else []),
     if disk po fname html_body then Returns tt else Fails FileError).
Proof.
  intros fname Hne Hdry. unfold send_email.
  destruct (stripped_parts (RECIPIENT_EMAIL cfg)) as [|r rs]; [congruence|].
  rewrite Hdry. cbv zeta. fold fname.
  rewrite !proc_bind_emit. cbn [fst snd].
  destruct (disk po fname html_body); reflexivity.
Qed.

Lemma attempted_split (mail : smtp_call -> bool) (calls : list smtp_call) :
  forall pre c post,
    attempted mail calls = (pre ++ c :: post)%list ->
    Forall (fun x => mail x = true) pre
    /\ exists rest, calls = (pre ++ c :: rest)%list.
Proof.
  induction calls as [|x calls IH]; intros pre c post H.
  - destruct pre; discriminate.
  - cbn [attempted] in H. destruct pre as [|p pre]; cbn [app] in H.
    + injection H as -> _. split; [constructor|]. exists calls. reflexivity.
    + injection H as -> H. destruct (mail p) eqn:Hp.
      * destruct (IH _ _ _ H) as (Hall & rest & ->).
        split; [constructor; assumption|]. exists rest. reflexivity.
      * destruct pre; discriminate.
Qed.

Lemma attempted_in (mail : smtp_call -> bool) (calls : list smtp_call)
  (c : smtp_call) : In c (attempted mail calls) -> In c calls.
Proof.
  induction calls as [|x calls IH]; cbn [attempted]; [auto|].
  intros [-> | H]; [left; reflexivity|].
  right. destruct (mail x); [auto | destruct H].
Qed.

Lemma attempted_all (mail : smtp_call -> bool) (calls : list smtp_call) :
  forallb mail calls = true -> attempted mail calls = calls.
Proof.
  induction calls as [|x calls IH]; cbn [attempted forallb]; [reflexivity|].
  intros H. apply andb_prop in H. destruct H as [-> H]. rewrite IH; auto.
Qed.

Lemma prefix_before (l1 l2 pre : list smtp_call) (c : smtp_call)
  (rest : list smtp_call) :
  (l1 ++ l2 = pre ++ c :: rest)%list ->
  Forall (fun x => confidential x = false) l1 ->
  confidential c = true ->
  exists pre', pre = (l1 ++ pre')%list.
Proof.
  revert pre. induction l1 as [|x l1 IH]; intros pre H Hl1 Hc.
  - exists pre. reflexivity.
  - inversion Hl1 as [|? ? Hx Hl1']; subst.
    destruct pre as [|p pre]; cbn [app] in H.
    + injection H as -> _. congruence.
    + injection H as -> H. destruct (IH pre H Hl1' Hc) as (pre' & ->).
      exists pre'. reflexivity.
Qed.

Lemma session_sendmail (cfg : settings) (recipients : list string)
  (msg : message) (sender : string) (rs : list string) (m : message) :
  In (Sendmail sender rs m) (smtp_session cfg recipients msg) ->
  sender = SENDER_EMAIL cfg /\ rs = recipients /\ m = msg.
Proof.
  unfold smtp_session. intros H.
  apply in_app_or in H. destruct H as [H | H].
  { cbn in H. repeat (destruct H as [H | H]; [discriminate|]). destruct H. }
  apply in_app_or in H. destruct H as [H | H].
  { destruct (String.eqb (SMTP_PASSWORD cfg) EmptyString); cbn in H; [destruct H|].
    destruct H as [H | []]. discriminate. }
  destruct H as [H | []]. injection H as <- <- <-. auto.
Qed.

Lemma session_login (cfg : settings) (recipients : list string)
  (msg : message) (username password : string) :
  In (Login username password) (smtp_session cfg recipients msg) ->
  username = SMTP_USERNAME cfg /\ password = SMTP_PASSWORD cfg
  /\ password <> EmptyString.
Proof.
  unfold smtp_session. intros H.
  apply in_app_or in H. destruct H as [H | H].
  { cbn in H. repeat (destruct H as [H | H]; [discriminate|]). destruct H. }
  apply in_app_or in H. destruct H as [H | H].
  { destruct (String.eqb (SMTP_PASSWORD cfg) EmptyString) eqn:Hp; cbn in H; [destruct H|].
    destruct H as [H | []]. injection H as <- <-. repeat split.
    intros Hempty. rewrite Hempty in Hp. discriminate. }
  destruct H as [H | []]. discriminate.
Qed.

Lemma send_email_spec (po : post_office) (cfg : settings)
  (subject html_body : string) :
  let run := send_email po cfg subject html_body in
  let recipients := stripped_parts (RECIPIENT_EMAIL cfg) in
  let msg := mk_message subject (SENDER_EMAIL cfg)
               (String.concat ", " recipients) html_body in
  let fname := "auditoria_preview_" ++ stamp po ++ ".html" in
  (recipients = [] ->
   run = ([PrintErr "[ERROR] RECIPIENT_EMAIL no tiene destinatarios válidos."],
          Exits 1%Z))
  /\ (DRY_RUN cfg = true -> Forall (fun e => is_smtp e = false) (fst run))
  /\ (DRY_RUN cfg = false -> Forall (fun e => is_write e = false) (fst run))
  /\ (forall pre c post,
        fst run = (pre ++ Smtp c :: post)%list -> confidential c = true ->
        In (Smtp StartTls) pre /\ mail po StartTls = true)
  /\ (forall username password,
        In (Smtp (Login username password)) (fst run) ->
        username = SMTP_USERNAME cfg /\ password = SMTP_PASSWORD cfg
        /\ password <> EmptyString)
  /\ (forall sender rs m,
        In (Smtp (Sendmail sender rs m)) (fst run) ->
        sender = SENDER_EMAIL cfg /\ rs = recipients /\ rs <> []
        /\ Forall trimmed rs /\ m = msg)
  /\ (forall name content,
        In (WriteFile name content) (fst run) ->
        name = fname /\ content = html_body)
  /\ (snd run = Returns tt ->
      if DRY_RUN cfg then In (WriteFile fname html_body) (fst run)
      else In (Smtp (Sendmail (SENDER_EMAIL cfg) recipients msg)) (fst run)).
Proof.
  cbv zeta.
  pose proof (stripped_parts_trimmed (RECIPIENT_EMAIL cfg)) as Htrim.
  set (fname := "auditoria_preview_" ++ stamp po ++ ".html").
  destruct (stripped_parts (RECIPIENT_EMAIL cfg)) as [|r rs] eqn:E.
  - assert (Hrun : send_email po cfg subject html_body
                   = ([PrintErr "[ERROR] RECIPIENT_EMAIL no tiene destinatarios válidos."],
                      Exits 1%Z)).
    { unfold send_email. rewrite E. reflexivity. }
    rewrite Hrun. cbn [fst snd].
    split; [reflexivity|].
    split; [intros _; repeat constructor|].
    split; [intros _; repeat constructor|].
    split.
    { intros pre c post H. destruct pre as [|? [|? ?]]; discriminate. }
    split; [intros ? ? [H | []]; discriminate|].
    split; [intros ? ? ? [H | []]; discriminate|].
    split; [intros ? ? [H | []]; discriminate|].
    discriminate.
  - assert (Hne : stripped_parts (RECIPIENT_EMAIL cfg) <> []).
    { rewrite E. discriminate. }
    split; [discriminate|].
    destruct (DRY_RUN cfg) eqn:Hdry.
    + pose proof (send_email_preview po cfg subject html_body Hne Hdry) as Hrun.
      cbv zeta in Hrun. fold fname in Hrun.
      assert (Htr : exists tail,
                 fst (send_email po cfg subject html_body)
                 = Print (newline ++ "[DRY_RUN] No se envió correo. Contenido MIME (recortado).")
                     :: WriteFile fname html_body :: tail
                 /\ Forall (fun e => exists s, e = Print s) tail).
      { rewrite Hrun. cbn [fst]. eexists. split; [reflexivity|].
        destruct (disk po fname html_body); repeat constructor. eexists; reflexivity. }
      destruct Htr as (tail & Htr & Htail). rewrite Htr.
      assert (Hnot : forall e, In e tail -> exists s, e = Print s).
      { apply Forall_forall. exact Htail. }
      split.
      { intros _. constructor; [reflexivity|]. constructor; [reflexivity|].
        apply Forall_forall. intros e He. destruct (Hnot e He) as (s & ->).
        reflexivity. }
      split; [discriminate|].
      assert (Hin : forall e, In e (Print (newline ++ "[DRY_RUN] No se envió correo. Contenido MIME (recortado).")
                                     :: WriteFile fname html_body :: tail) ->
                              is_smtp e = false
                              /\ (is_write e = true -> e = WriteFile fname html_body)).
      { intros e [<- | [<- | He]]; [split; [reflexivity | discriminate] | split; auto |].
        destruct (Hnot e He) as (s & ->). split; [reflexivity | discriminate]. }
      split.
      { intros pre c post H Hc.
        destruct (Hin (Smtp c)) as [Habs _]; [|discriminate].
        rewrite H. apply in_or_app. right. left. reflexivity. }
      split; [intros u p H; destruct (Hin _ H); discriminate|].
      split; [intros s0 rs0 m H; destruct (Hin _ H); discriminate|].
      split.
      { intros name content H. destruct (Hin _ H) as [_ Hw].
        specialize (Hw eq_refl). injection Hw as -> ->. auto. }
      intros _. right. left. reflexivity.
    + pose proof (send_email_session po cfg subject html_body Hne Hdry) as Hrun.
      cbv zeta in Hrun. rewrite E in Hrun. rewrite Hrun. cbn [fst snd].
      set (recipients := r :: rs) in *.
      set (msg := mk_message subject (SENDER_EMAIL cfg)
                    (String.concat ", " recipients) html_body) in *.
      set (session := smtp_session cfg recipients msg) in *.
      split; [discriminate|].
      split.
      { intros _. apply Forall_forall. intros e He.
        apply in_map_iff in He. destruct He as (c & <- & _). reflexivity. }
      split.
      { intros pre c post H Hc.
        apply map_eq_app in H.
        destruct H as (pre' & tl & Hatt & <- & Htl).
        apply map_eq_cons in Htl.
        destruct Htl as (c' & post' & -> & Hc' & _). injection Hc' as ->.
        destruct (attempted_split _ _ _ _ _ Hatt) as (Hok & rest & Hsess).
        unfold session, smtp_session in Hsess.
        destruct (prefix_before _ _ _ _ _ Hsess) as (pre'' & ->);
          [repeat constructor | exact Hc |].
        split.
        - apply in_map. cbn. auto.
        - rewrite Forall_forall in Hok. apply Hok. cbn. auto. }
      split.
      { intros u p H. apply in_map_iff in H. destruct H as (c & Hc & H).
        injection Hc as ->. apply attempted_in in H.
        exact (session_login _ _ _ _ _ H). }
      split.
      { intros s0 rs0 m H. apply in_map_iff in H. destruct H as (c & Hc & H).
        injection Hc as ->. apply attempted_in in H.
        destruct (session_sendmail _ _ _ _ _ _ H) as (-> & -> & ->).
        repeat split; auto. discriminate. }
      split.
      { intros name content H. apply in_map_iff in H.
        destruct H as (c & Hc & _). discriminate. }
      destruct (forallb (mail po) session) eqn:Hall; [|discriminate].
      intros _. rewrite (attempted_all _ _ Hall). apply in_map.
      unfold session, smtp_session. apply in_or_app. right.
      apply in_or_app. right. left. reflexivity.
Qed.

(** X14.  What [send_email] does with the report.  Without a recipient
    left after splitting it exits with status 1, in a dry run too, and
    nothing has been written or sent.  A dry run makes no call on the
    mail server and a real run writes no file.  The password and the
    message go out only after the server accepted STARTTLS; the login
    is that of the settings and is left out when the password is empty;
    the message goes from the sender of the settings to the recipients
    of RECIPIENT_EMAIL, each stripped and none empty, with the subject
    and the document it was given.  When [send_email] returns, the
    preview was written (dry run) or the message was handed over. *)
Theorem send_email_guards (po : post_office) (cfg : settings)
  (subject html_body : string) :
  let run := send_email po cfg subject html_body in
  let recipients := stripped_parts (RECIPIENT_EMAIL cfg) in
  let msg := mk_message subject (SENDER_EMAIL cfg)
               (String.concat ", " recipients) html_body in
  let fname := "auditoria_preview_" ++ stamp po ++ ".html" in
  (recipients = [] ->
   run = ([PrintErr "[ERROR] RECIPIENT_EMAIL no tiene destinatarios válidos."],
          Exits 1%Z))
  /\ (DRY_RUN cfg = true -> Forall (fun e => is_smtp e = false) (fst run))
  /\ (DRY_RUN cfg = false -> Forall (fun e => is_write e = false) (fst run))
  /\ (forall pre c post,
        fst run = (pre ++ Smtp c :: post)%list -> confidential c = true ->
        In (Smtp StartTls) pre /\ mail po StartTls = true)
  /\ (forall username password,
        In (Smtp (Login username password)) (fst run) ->
        username = SMTP_USERNAME cfg /\ password = SMTP_PASSWORD cfg
        /\ password <> EmptyString)
  /\ (forall sender rs m,
        In (Smtp (Sendmail sender rs m)) (fst run) ->
        sender = SENDER_EMAIL cfg /\ rs = recipients /\ rs <> []
        /\ Forall trimmed rs /\ m = msg)
  /\ (forall name content,
        In (WriteFile name content) (fst run) ->
        name = fname /\ content = html_body)
  /\ (snd run = Returns tt ->
      if DRY_RUN cfg then In (WriteFile fname html_body) (fst run)
      else In (Smtp (Sendmail (SENDER_EMAIL cfg) recipients msg)) (fst run)).
Proof. exact (send_email_spec po cfg subject html_body). Qed.

(** ** The whole run *)

Lemma of_result_quiet {A : Type} (r : result A) :
  Forall (fun e => delivers e = false) (fst (of_result r)).
Proof. destruct r; constructor. Qed.

Lemma of_result_returns {A : Type} (r : result A) (a : A) :
  snd (of_result r) = Returns a -> r = Ok a.
Proof. destruct r; cbn; [intros [= ->]; reflexivity | discriminate]. Qed.

Lemma of_io_quiet {A : Type} (m : io A) :
  Forall (fun e => delivers e = false) (fst (of_io m)).
Proof.
  unfold of_io. cbn [fst]. apply Forall_forall. intros e He.
  apply in_map_iff in He. destruct He as (s & <- & _). reflexivity.
Qed.

Lemma of_io_ok {A : Type} (out : list string) (a : A) :
  of_io (out, Ok a) = (map Print out, Returns a).
Proof. reflexivity. Qed.

Lemma of_io_returns {A : Type} (m : io A) (a : A) :
  snd (of_io m) = Returns a -> snd m = Ok a.
Proof.
  unfold of_io. cbn [snd]. destruct (snd m); [intros [= ->]; reflexivity | discriminate].
Qed.

Lemma page_requests_quiet (base_url : string) (auth : string * string)
  (jql : string) (first n : nat) :
  Forall (fun e => delivers e = false) (page_requests base_url auth jql first n).
Proof.
  unfold page_requests. apply Forall_forall. intros e He.
  apply in_map_iff in He. destruct He as (i & <- & _). reflexivity.
Qed.

Lemma fetch_all_issues_quiet (fuel : nat) (jira : server) (base_url : string)
  (auth : string * string) (jql : string) :
  Forall (fun e => delivers e = false)
    (fst (fetch_all_issues fuel jira base_url auth jql)).
Proof.
  destruct (fetch_loop_requests jira base_url auth jql fuel 0 [])
    as (n & _ & Htr & _).
  unfold fetch_all_issues. cbn [Nat.mul] in Htr. rewrite Htr.
  apply page_requests_quiet.
Qed.

Lemma stage {A : Type} (m : proc A) (k : A -> proc unit)
  (G : proc unit -> Prop) :
  (forall tr run, Forall (fun e => delivers e = false) tr ->
                  G run -> G ((tr ++ fst run)%list, snd run)) ->
  (forall tr x, Forall (fun e => delivers e = false) tr ->
                x <> Returns tt -> G (tr, x)) ->
  Forall (fun e => delivers e = false) (fst m) ->
  (forall a, snd m = Returns a -> G (k a)) ->
  G (proc_bind m k).
Proof.
  intros Hpre Hfail Hq Hk. rewrite proc_bind_split.
  destruct m as [tr [a | status | f | ]]; cbn [fst snd] in *.
  - apply Hpre; [exact Hq | apply Hk; reflexivity].
  - apply Hfail; [exact Hq | discriminate].
  - apply Hfail; [exact Hq | discriminate].
  - apply Hfail; [exact Hq | discriminate].
Qed.

Section WholeRun.

Variable str_lower : string -> string.
Variable py_repr : json -> string.
Variable py_int : string -> option Z.

Lemma main_stages (fuel : nat) (w : world) :
  let run := main str_lower py_repr py_int fuel w in
  (Forall (fun e => delivers e = false) (fst run) /\ snd run <> Returns tt)
  \/ exists cfg issues groups selection html pre,
       reported str_lower py_int fuel w cfg issues groups selection html
       /\ Forall (fun e => delivers e = false) pre
       /\ run = ((pre ++ fst (send_email (office w) cfg (subject_of w) html))%list,
                 snd (send_email (office w) cfg (subject_of w) html)).
Proof.
  cbv zeta.
  set (G := fun run : proc unit =>
    (Forall (fun e => delivers e = false) (fst run) /\ snd run <> Returns tt)
    \/ exists cfg issues groups selection html pre,
         reported str_lower py_int fuel w cfg issues groups selection html
         /\ Forall (fun e => delivers e = false) pre
         /\ run = ((pre ++ fst (send_email (office w) cfg (subject_of w) html))%list,
                   snd (send_email (office w) cfg (subject_of w) html))).
  change (G (main str_lower py_repr py_int fuel w)).
  assert (Hpre : forall tr run, Forall (fun e => delivers e = false) tr ->
                   G run -> G ((tr ++ fst run)%list, snd run)).
  { intros tr run Htr [[Hq Hr] | (cfg & issues & groups & selection & html & pre & Hrep & Hq & ->)].
    - left. cbn [fst snd]. split; [apply Forall_app; auto | exact Hr].
    - right. exists cfg, issues, groups, selection, html, (tr ++ pre)%list.
      split; [exact Hrep|]. split; [apply Forall_app; auto|].
      cbn [fst snd]. rewrite app_assoc. reflexivity. }
  assert (Hfail : forall tr x, Forall (fun e => delivers e = false) tr ->
                    x <> Returns tt -> G (tr, x)).
  { intros tr x Htr Hx. left. split; assumption. }
  unfold main.
  apply stage; [exact Hpre | exact Hfail | |].
  { destruct (load_settings_ends str_lower py_int (environment w)) as [(cfg & ->) | (line & ->)];
      repeat constructor. }
  intros cfg Hcfg.
  assert (Hload : load_settings str_lower py_int (environment w) = ([], Returns cfg)).
  { destruct (load_settings_ends str_lower py_int (environment w)) as [(cfg' & H) | (line & H)];
      rewrite H in Hcfg |- *; cbn in Hcfg; [congruence | discriminate]. }
  cbv zeta.
  apply stage; [exact Hpre | exact Hfail | repeat constructor |]. intros _ _.
  apply stage; [exact Hpre | exact Hfail | apply fetch_all_issues_quiet |].
  intros issues Hissues.
  apply stage; [exact Hpre | exact Hfail | repeat constructor |]. intros _ _.
  apply stage; [exact Hpre | exact Hfail | apply of_io_quiet |]. intros _ _.
  apply stage; [exact Hpre | exact Hfail | apply of_result_quiet |].
  intros groups Hgroups. apply of_result_returns in Hgroups.
  apply stage; [exact Hpre | exact Hfail | apply of_result_quiet |].
  intros selection Hsel. apply of_result_returns in Hsel.
  apply stage; [exact Hpre | exact Hfail | |].
  { destruct (DRY_RUN cfg); [apply of_io_quiet | constructor]. }
  intros _ _.
  apply stage; [exact Hpre | exact Hfail | apply of_result_quiet |].
  intros html Hhtml. apply of_result_returns in Hhtml.
  right. exists cfg, issues, groups, selection, html, [].
  split; [repeat split; assumption|]. split; [constructor|].
  cbn [app]. unfold subject_of. apply surjective_pairing.
Qed.


(** X15.  [main] writes or sends nothing but the report.  Every write of
    the preview and every call on the mail server comes after the
    settings were loaded, every page was fetched, and the grouper, the
    sampler and the renderer returned, with a recipient left in
    RECIPIENT_EMAIL; the preview holds the document of the selection,
    and is written only in a dry run; the mail server is called only
    when the lower-cased DRY_RUN, true when unset, is not true, and the message
    carries that document to the recipients of the settings.  A run
    that returns has written the preview or handed over the message. *)
Theorem main_hands_over_the_report (fuel : nat) (w : world) :
  let run := main str_lower py_repr py_int fuel w in
  (forall e, In e (fst run) -> delivers e = true ->
     exists cfg issues groups selection html,
       reported str_lower py_int fuel w cfg issues groups selection html
       /\ stripped_parts (RECIPIENT_EMAIL cfg) <> []
       /\ match e with
          | WriteFile name content => DRY_RUN cfg = true /\ content = html
          | Smtp c =>
              DRY_RUN cfg = false
              /\ String.eqb
                   (str_lower (getenv (environment w) "DRY_RUN" "true")) "true"
                 = false
              /\ forall sender rs m,
                   c = Sendmail sender rs m ->
                   sender = SENDER_EMAIL cfg
                   /\ rs = stripped_parts (RECIPIENT_EMAIL cfg)
                   /\ m = mk_message (subject_of w) (SENDER_EMAIL cfg)
                            (String.concat ", " rs) html
          | _ => True
          end)
  /\ (snd run = Returns tt ->
      exists e, In e (fst run) /\ delivers e = true).
Proof.
  cbv zeta.
  destruct (main_stages fuel w)
    as [[Hq Hr] | (cfg & issues & groups & selection & html & pre & Hrep & Hq & Hrun)].
  { split; [|intros H; contradiction].
    intros e He Hd. rewrite Forall_forall in Hq. rewrite (Hq e He) in Hd.
    discriminate. }
  rewrite Hrun. cbn [fst snd].
  destruct (send_email_spec (office w) cfg (subject_of w) html)
    as (Hnone & Hdry & Hreal & _ & _ & Hsend & Hwrite & Hret).
  cbv zeta in Hnone, Hsend, Hret.
  split.
  - intros e He Hd. apply in_app_or in He. destruct He as [He | He].
    { rewrite Forall_forall in Hq. rewrite (Hq e He) in Hd. discriminate. }
    exists cfg, issues, groups, selection, html.
    split; [exact Hrep|].
    assert (Hne : stripped_parts (RECIPIENT_EMAIL cfg) <> []).
    { intros Hempty. rewrite (Hnone Hempty) in He. destruct He as [<- | []].
      discriminate. }
    split; [exact Hne|].
    destruct e as [s | s | r | name content | c]; try exact I.
    + destruct (DRY_RUN cfg) eqn:Hd'.
      * split; [reflexivity|]. exact (proj2 (Hwrite name content He)).
      * specialize (Hreal eq_refl). rewrite Forall_forall in Hreal.
        specialize (Hreal _ He). discriminate.
    + destruct (DRY_RUN cfg) eqn:Hd'.
      * specialize (Hdry eq_refl). rewrite Forall_forall in Hdry.
        specialize (Hdry _ He). discriminate.
      * split; [reflexivity|]. split.
        { destruct Hrep as (Hload & _).
          rewrite <- (load_settings_dry_run _ _ _ _ _ Hload). exact Hd'. }
        intros sender rs m ->.
        destruct (Hsend _ _ _ He) as (-> & -> & _ & _ & ->). auto.
  - intros Hret'. specialize (Hret Hret').
    destruct (DRY_RUN cfg); eexists; (split; [apply in_or_app; right; exact Hret | reflexivity]).
Qed.

Lemma main_until_sampling (fuel : nat) (w : world) (cfg : settings)
  (tr : list event) (issues : list json) (groups : mapping) :
  load_settings str_lower py_int (environment w) = ([], Returns cfg) ->
  fetch_all_issues fuel (jira w) (JIRA_BASE_URL cfg)
    (JIRA_EMAIL cfg, JIRA_API_TOKEN cfg)
    (build_jql_relative (JIRA_PROJECT_KEYS cfg)) = (tr, Returns issues) ->
  group_by_assignee issues = Ok groups ->
  exists N M,
    N + M = List.length issues /\
    forall rest : proc unit,
      rest =
        (selection <~ of_result
                        (fst (pick_random_per_analyst groups (PER_ANALYST cfg)
                                (draws w))) ;;
         _ <~ (if DRY_RUN cfg then
                 of_io (print_console_summary str_lower py_repr
                          (JIRA_BASE_URL cfg) selection
                          (Z.of_nat (List.length issues)))
               else ret tt) ;;
         html <~ of_result
                   (build_email_html str_lower (JIRA_BASE_URL cfg) (yesterday w)
                      selection (Z.of_nat (List.length issues))) ;;
         send_email (office w) cfg
           ("[Auditoría] Issues resueltos el " ++ isoformat (yesterday w)) html) ->
      main str_lower py_repr py_int fuel w
      = ((Print (newline ++ "[INFO] Ejecutando JQL: "
                   ++ build_jql_relative (JIRA_PROJECT_KEYS cfg))
            :: tr
            ++ Print ("[INFO] Issues recuperados: "
                        ++ int_to_str (Z.of_nat (List.length issues)))
            :: Print (stats_line N M) :: fst rest)%list,
         snd rest).
Proof.
  intros Hload Hfetch Hgroups.
  destruct (stats_of_grouped issues groups Hgroups) as (N & M & Hstats & Hsum & _).
  exists N, M. split; [exact Hsum|]. intros rest Hrest.
  unfold main. rewrite Hload, proc_bind_nil. cbv zeta.
  rewrite proc_bind_emit. rewrite Hfetch.
  rewrite (proc_bind_split (tr, Returns issues)). cbn [fst snd].
  rewrite proc_bind_emit. cbn [fst snd].
  rewrite Hstats, of_io_ok.
  rewrite (proc_bind_split (map Print [stats_line N M], Returns JNull)).
  cbn [fst snd map app].
  rewrite Hgroups. cbn [of_result]. rewrite proc_bind_ret.
  subst rest. reflexivity.
Qed.



(** X17.  The run completes.  With settings that loaded, a bound that is
    not negative, a recipient in RECIPIENT_EMAIL, a tracker that
    answers every page with tolerated issues and the same total, as
    many requests allowed as the total has pages, and a disk and a
    mail server that do what they are asked, [main] returns: it has
    fetched the pages' issues, grouped and sampled them, rendered the
    selection, and written the document to the preview (dry run) or
    sent it to the recipients. *)
Theorem main_completes (fuel : nat) (w : world) (cfg : settings)
  (page : nat -> list json) (total : Z) :
  let issues := List.concat (map page (seq 0 (page_count total))) in
  let recipients := stripped_parts (RECIPIENT_EMAIL cfg) in
  load_settings str_lower py_int (environment w) = ([], Returns cfg) ->
  (0 <= PER_ANALYST cfg)%Z ->
  recipients <> [] ->
  paged (jira w) (JIRA_BASE_URL cfg) (JIRA_EMAIL cfg, JIRA_API_TOKEN cfg)
    (build_jql_relative (JIRA_PROJECT_KEYS cfg)) page total ->
  page_count total <= fuel ->
  Forall (fun i => tolerated i = true) issues ->
  (forall name content, disk (office w) name content = true) ->
  (forall c, mail (office w) c = true) ->
  exists groups selection html,
    reported str_lower py_int fuel w cfg issues groups selection html
    /\ snd (main str_lower py_repr py_int fuel w) = Returns tt
    /\ In (if DRY_RUN cfg
           then WriteFile ("auditoria_preview_" ++ stamp (office w) ++ ".html")
                  html
           else Smtp (Sendmail (SENDER_EMAIL cfg) recipients
                        (mk_message (subject_of w) (SENDER_EMAIL cfg)
                           (String.concat ", " recipients) html)))
         (fst (main str_lower py_repr py_int fuel w)).
Proof.
  intros issues recipients Hload Hk Hrcpt Hpaged Hfuel Htol Hdisk Hmail.
  pose proof (fetch_all_issues_paged fuel (jira w) _ _ _ page total Hpaged Hfuel)
    as Hfetch. fold issues in Hfetch.
  destruct (group_by_assignee_tolerated issues Htol)
    as (groups & Hgroups & Hd & Hrend).
  destruct (pick_random_spec groups (PER_ANALYST cfg) (draws w) Hd Hk)
    as (selection & g' & Hpick & _ & Hall).
  pose proof (sampled_renderable _ groups selection Hall Hrend) as Hsel.
  destruct (build_email_html_total str_lower (JIRA_BASE_URL cfg) (yesterday w)
              selection (Z.of_nat (List.length issues)) Hsel) as (html & Hhtml).
  destruct (print_console_summary_total str_lower py_repr (JIRA_BASE_URL cfg)
              selection (Z.of_nat (List.length issues)) Hsel) as (out & Hout).
  exists groups, selection, html.
  split.
  { split; [exact Hload|]. split; [rewrite Hfetch; reflexivity|].
    split; [exact Hgroups|]. split; [rewrite Hpick; reflexivity | exact Hhtml]. }
  destruct (main_until_sampling fuel w cfg _ issues groups Hload Hfetch Hgroups)
    as (N & M & _ & Hmain).
  rewrite (Hmain _ eq_refl). clear Hmain.
  rewrite Hpick. cbn [fst of_result]. rewrite proc_bind_ret.
  rewrite Hout, Hhtml.
  fold (subject_of w).
  destruct (send_email_spec (office w) cfg (subject_of w) html)
    as (_ & _ & _ & _ & _ & _ & _ & Hret).
  cbv zeta in Hret. fold recipients in Hret.
  assert (Hsent : snd (send_email (office w) cfg (subject_of w) html) = Returns tt).
  { destruct (DRY_RUN cfg) eqn:Hdry.
    - rewrite (send_email_preview (office w) cfg (subject_of w) html Hrcpt Hdry).
      cbn [snd]. rewrite Hdisk. reflexivity.
    - rewrite (send_email_session (office w) cfg (subject_of w) html Hrcpt Hdry).
      cbn [snd].
      assert (Hall' : forallb (mail (office w))
                        (smtp_session cfg (stripped_parts (RECIPIENT_EMAIL cfg))
                           (mk_message (subject_of w) (SENDER_EMAIL cfg)
                              (String.concat ", "
                                 (stripped_parts (RECIPIENT_EMAIL cfg))) html))
                      = true).
      { apply forallb_forall. intros c _. apply Hmail. }
      rewrite Hall'. reflexivity. }
  specialize (Hret Hsent).
  assert (Hconsole : exists console,
             (if DRY_RUN cfg then of_io (out, Ok tt) else ret tt)
             = (console, Returns tt)
             /\ Forall (fun e => delivers e = false) console).
  { destruct (DRY_RUN cfg).
    - eexists. split; [reflexivity|]. apply (of_io_quiet (out, Ok tt)).
    - eexists. split; [reflexivity | constructor]. }
  destruct Hconsole as (console & -> & _).
  rewrite (proc_bind_split (console, Returns tt)). cbn [fst snd of_result].
  rewrite proc_bind_ret.
  split; [exact Hsent|].
  right. apply in_or_app. right. right. right.
  apply in_or_app. right. destruct (DRY_RUN cfg); exact Hret.
Qed.

End WholeRun.

(** ** The base address *)

Lemma space_len_slash (y : string) : space_len (y ++ "/") = space_len y.
Proof.
  destruct y as [|c1 [|c2 [|c3 r]]]; cbn [append space_len]; try reflexivity.
  - destruct (ascii_space c1); [reflexivity|].
    unfold two_byte_space. cbn. rewrite andb_false_r. reflexivity.
  - destruct (ascii_space c1); [reflexivity|].
    destruct (two_byte_space c1 c2); [reflexivity|].
    unfold three_byte_space. cbn.
    rewrite !andb_false_r. reflexivity.
Qed.

Lemma lstrip_slash (y : string) : lstrip (y ++ "/") = lstrip y ++ "/".
Proof.
  induction y as [y IH] using lstrip_ind.
  rewrite (lstrip_eq (y ++ "/")), (lstrip_eq y), space_len_slash.
  destruct (space_len y) as [|n] eqn:Hn; [reflexivity|].
  pose proof (space_len_le y) as Hle. rewrite Hn in Hle.
  rewrite drop_app by exact Hle. apply IH. lia.
Qed.

Lemma lstrip_slash_nonempty (y : string) : lstrip (y ++ "/") <> EmptyString.
Proof.
  rewrite lstrip_slash. destruct (lstrip y); discriminate.
Qed.

Lemma rstrip_slash (y : string) : rstrip (y ++ "/") = y ++ "/".
Proof.
  induction y as [|c r IH]; [reflexivity|].
  cbn [append rstrip].
  change (String c (r ++ "/")) with (String c r ++ "/") at 1.
  destruct (String.eqb_spec (lstrip (String c r ++ "/")) EmptyString) as [He|_].
  - destruct (lstrip_slash_nonempty _ He).
  - rewrite IH. reflexivity.
Qed.

Lemma rstrip_char_app (c : ascii) (y : string) :
  rstrip_char c (y ++ String c EmptyString) = rstrip_char c y.
Proof.
  induction y as [|a r IH].
  - cbn. rewrite Ascii.eqb_refl. reflexivity.
  - cbn [append rstrip_char]. rewrite IH. reflexivity.
Qed.

Lemma length_app (a b : string) :
  String.length (a ++ b) = String.length a + String.length b.
Proof.
  induction a as [|c a IH]; cbn [append String.length]; [reflexivity|].
  rewrite IH. reflexivity.
Qed.

Lemma strip_fixed_lstrip (b : string) : strip b = b -> lstrip b = b.
Proof.
  unfold strip. intros H.
  destruct (rstrip_prefix (lstrip b)) as (w & Hw & _).
  destruct (lstrip_suffix b) as (w' & Hw').
  rewrite H in Hw.
  assert (Hlen : String.length b
                 = String.length w' + (String.length b + String.length w)).
  { rewrite Hw' at 1. rewrite Hw. rewrite !length_app. reflexivity. }
  assert (w = EmptyString) by (destruct w; [reflexivity | cbn in Hlen; lia]).
  subst w. rewrite Hw. apply append_nil_r.
Qed.

Lemma base_url_slash (b : string) :
  strip b = b ->
  rstrip_char "/" (strip (b ++ "/")) = rstrip_char "/" (strip b).
Proof.
  intros H. unfold strip at 1.
  rewrite lstrip_slash, (strip_fixed_lstrip b H), rstrip_slash, H.
  apply (rstrip_char_app "/" b).
Qed.

(** X18.  A slash at the end of the base address is dropped for the
    requests and kept in the links.  For an address with no whitespace
    around it, [fetch_all_issues] does the same with and without the
    slash, while the line of an issue in the document links to the
    address, two slashes, [browse] and the key. *)
Theorem trailing_slash_in_base_url (b : string) :
  strip b = b ->
  (forall fuel jira auth jql,
     fetch_all_issues fuel jira (b ++ "/") auth jql
     = fetch_all_issues fuel jira b auth jql)
  /\ (forall issue li,
        render_issue_html (b ++ "/") issue = Ok li ->
        exists key summary name,
          issue_texts issue = Ok (key, summary, name)
          /\ li = html_li (b ++ "//browse/" ++ escape key) (escape key)
                    (escape summary) (escape name)).
Proof.
  intros Hb. split.
  - intros fuel jira auth jql. unfold fetch_all_issues.
    rewrite (base_url_slash b Hb). reflexivity.
  - intros issue li. rewrite render_issue_html_texts. intros H.
    apply bind_ok in H as ([[key summary] name] & Ht & H).
    apply Ok_inj in H. subst li.
    exists key, summary, name. split; [exact Ht|].
    unfold escaped_line. rewrite (append_assoc b "/"). reflexivity.
Qed.

(** ** The properties on the sample data *)

Lemma stats_agree_with_groups_witness :
  exists N M,
    summarize_assignee_stats [issue1; issue3; issue10]
    = ([stats_line N M], Ok JNull) /\
    N + M = List.length [issue1; issue3; issue10] /\
    N = List.length (filter assigned [issue1; issue3; issue10]) /\
    M = List.length
          (filter (fun i => negb (assigned i)) [issue1; issue3; issue10]) /\
    bucket [(ana_key, [issue1]); (UNASSIGNED, [issue3; issue10])] UNASSIGNED
    = filter unowned [issue1; issue3; issue10].
Proof.
  apply (stats_agree_with_groups [issue1; issue3; issue10]
           [(ana_key, [issue1]); (UNASSIGNED, [issue3; issue10])]).
  reflexivity.
Defined.

Lemma console_follows_document_witness :
  exists t,
    escaped_line "https://jira.example"
      ("OPS-1", "Reinicio de <router> & switch", "Ana")
    = escaped_line "https://jira.example" t /\
    console_issue_line no_repr "https://jira.example" issue1
    = Ok (console_line "https://jira.example" t).
Proof.
  apply (console_follows_document no_repr "https://jira.example" issue1).
  vm_compute. reflexivity.
Defined.

Lemma reports_independent_of_order_witness :
  build_email_html ascii_lower "https://jira.example" sample_date
    sample_distinct 4
  = build_email_html ascii_lower "https://jira.example" sample_date
      sample_distinct_reversed 4 /\
  print_console_summary ascii_lower no_repr "https://jira.example"
    sample_distinct 4
  = print_console_summary ascii_lower no_repr "https://jira.example"
      sample_distinct_reversed 4.
Proof.
  apply (reports_independent_of_order ascii_lower no_repr
           "https://jira.example" sample_date 4 sample_distinct
           sample_distinct_reversed ["bob <ops>"; "ana"; "(sin asignar)"]).
  - apply (Permutation_rev sample_distinct).
  - reflexivity.
  - repeat constructor; simpl; intuition discriminate.
Defined.

Lemma heading_and_line_names_witness :
  exists n key summary name,
    snd ana_key = JStr n /\
    render_issue_html "https://jira.example" issue1
    = Ok (escaped_line "https://jira.example" (key, summary, name)) /\
    match issue_assignee issue1 with
    | Some a =>
        match field a "displayName" with
        | None => n = "Desconocido" /\ name = "(Sin asignar)"
        | Some _ => shown_name n = name
        end
    | None => shown_name n = name
    end.
Proof.
  apply (heading_and_line_names "https://jira.example" sample_page
           sample_groups ana_key [issue1; issue2] issue1).
  - repeat constructor.
  - reflexivity.
  - left. reflexivity.
  - left. reflexivity.
Defined.

Lemma selection_is_part_of_input_witness :
  (forall key chosen issue,
     In (key, chosen) large_picked -> In issue chosen ->
     belongs key issue = true) /\
  exists rest,
    Permutation (List.concat (map snd large_picked) ++ rest)%list
      (large_group ++ [issue3])%list /\
    ((Z.of_nat (List.length (large_group ++ [issue3])%list) <= 2)%Z ->
     rest = []).
Proof.
  apply (selection_is_part_of_input (large_group ++ [issue3])%list
           large_groups large_picked 2 [3; 3; 21] []).
  - reflexivity.
  - lia.
  - reflexivity.
Defined.

Lemma load_settings_first_missing_witness :
  load_settings ascii_lower ascii_int (env_of sample_vars_short)
  = ([PrintErr "[ERROR] Falta variable de entorno: JIRA_EMAIL"], Exits 1%Z).
Proof.
  apply (load_settings_first_missing ascii_lower ascii_int
           (env_of sample_vars_short) "JIRA_EMAIL").
  reflexivity.
Defined.

Lemma fetch_all_issues_pages_witness :
  fetch_all_issues 1 sample_jira "https://jira.example/"
    ("auditoria@example.org", "secreto") "project in (OPS)"
  = (page_requests "https://jira.example/"
       ("auditoria@example.org", "secreto") "project in (OPS)" 0
       (page_count 3),
     Returns (List.concat (map (fun _ => sample_page) (seq 0 (page_count 3))))).
Proof.
  apply (fetch_all_issues_pages 1 sample_jira "https://jira.example/"
           ("auditoria@example.org", "secreto") "project in (OPS)"
           (fun _ => sample_page) 3).
  - intros i. exists EmptyString.
    exists (JObj [("issues", JList sample_page); ("total", JNum 3)]).
    repeat split.
  - vm_compute. lia.
Defined.


Lemma main_completes_witness :
  exists groups selection html,
    reported ascii_lower ascii_int 1 large_world
      (sample_settings 2 true) large_page groups selection html
    /\ snd (main ascii_lower no_repr ascii_int 1 large_world) = Returns tt
    /\ In (WriteFile "auditoria_preview_20240308_060000.html" html)
         (fst (main ascii_lower no_repr ascii_int 1 large_world)).
Proof.
  apply (main_completes ascii_lower no_repr ascii_int 1 large_world
           (sample_settings 2 true) (fun _ => large_page) 23).
  - reflexivity.
  - simpl. lia.
  - discriminate.
  - intros i. exists EmptyString.
    exists (JObj [("issues", JList large_page); ("total", JNum 23)]).
    repeat split.
  - vm_compute. lia.
  - repeat constructor.
  - reflexivity.
  - reflexivity.
Defined.

(** In that world the report shows Ana's issues B-3 and B-21. *)
Example scenario_large_world :
  fst (pick_random_per_analyst large_groups 2 [3; 3; 21]) = Ok large_picked
  /\ group_by_assignee large_page = Ok large_groups
  /\ exists N M,
       N + M = List.length large_page /\
       firstn 10 (map (fun ev => match ev with Print s => s | _ => EmptyString end)
                    (fst (main ascii_lower no_repr ascii_int 1 large_world)))
       = [newline ++ "[INFO] Ejecutando JQL: " ++ build_jql_relative "OPS, RED ,";
          EmptyString;
          "[INFO] Issues recuperados: 23";
          stats_line N M;
          newline ++ "=== Resumen de auditoría (consola) ===";
          "Total de issues resueltos: 23";
          newline ++ "(Sin asignar) (1):";
          "  - OPS-3 — Sin responsable — Resp.: (Sin asignar) — https://jira.example//browse/OPS-3";
          newline ++ "Ana (2):";
          "  - B-3 — Incidente — Resp.: Ana — https://jira.example//browse/B-3"].
Proof.
  split; [reflexivity|]. split; [reflexivity|].
  exists 22, 1. split; reflexivity.
Qed.

Lemma trailing_slash_in_base_url_witness :
  (forall fuel jira auth jql,
     fetch_all_issues fuel jira ("https://jira.example" ++ "/") auth jql
     = fetch_all_issues fuel jira "https://jira.example" auth jql)
  /\ (forall issue li,
        render_issue_html ("https://jira.example" ++ "/") issue = Ok li ->
        exists key summary name,
          issue_texts issue = Ok (key, summary, name)
          /\ li = html_li ("https://jira.example" ++ "//browse/" ++ escape key)
                    (escape key) (escape summary) (escape name)).
Proof.
  apply (trailing_slash_in_base_url "https://jira.example").
  reflexivity.
Defined.

Lemma build_jql_relative_projects_witness :
  build_jql_relative "OPS,  RED ,,   ,DEV"
  = "project in (OPS,RED,DEV) "
      ++ lit "AND status CHANGED TO `Resuelto` DURING (startOfDay(-1), endOfDay(-1))"
  /\ Forall trimmed ["OPS"; "RED"; "DEV"]
  /\ (forall n m p, trimmed p -> strip (blanks n ++ p ++ blanks m) = p)
  /\ (forall n, strip (blanks n) = EmptyString).
Proof.
  apply (build_jql_relative_projects ["OPS"; "  RED "; ""; "   "; "DEV"]).
  repeat constructor.
Defined.
